(** * Session and memory orchestration: a shallow embedding

    The Python modules [shared/enhanced_memory.py], [shared/state_tracker.py],
    [shared/async_logger.py] and [shared/session_manager.py] are embedded as
    Rocq functions over explicit state.

    Conventions.
    - A Python [dict] whose iteration order is observable (an [OrderedDict],
      [tasks], [sessions_index], [templates_index]) is an insertion-ordered
      association list with unique keys (module [OrderedDict]).  A [dict]
      that is only looked up is a [gmap].
    - [Optional[str]] is [option string]; Python truthiness of such an
      argument is [truthy_str] (absent and the empty string are both falsy).
    - [find_similar_campaigns] and [get_learning_suggestions] are embedded
      on binary64 floats, the kernel's [float], and for whatever functions
      the runtime's [str.lower] and [str.split] are (module
      [CampaignSearch]).  Module [Memory] reads the same scores as exact
      rationals ([Q]), for the properties that do not depend on rounding;
      durations and percentages are exact rationals as well.
    - [datetime.now()] and [time.time()] are read from an explicit argument. *)

#[local] Set Warnings "-clear-no-such-hyp,-register-all,-inexact-float".
From Stdlib Require Import QArith Lqa.
From Corelib Require PrimInt63 PrimFloat.
From stdpp Require Import gmap strings list sorting.

Open Scope string_scope.
Open Scope list_scope.

(** ** Python truthiness and slices *)

Definition truthy_str (o : option string) : bool :=
  match o with
  | Some s => negb (String.eqb s "")
  | None => false
  end.

Definition truthy_int (o : option Z) : bool :=
  match o with
  | Some z => negb (z =? 0)%Z
  | None => false
  end.

(** [l[:n]] for a Python [int] [n]: a negative [n] counts from the end. *)
Definition slice_to {A} (n : Z) (l : list A) : list A :=
  if (0 <=? n)%Z then take (Z.to_nat n) l
  else take (length l - Z.to_nat (- n)) l.

(** ** [list.sort(key=..., reverse=True)] *)

Module PySort.
Section sort.
Context {A : Type} (lt : A → A → bool).

(** A stable sort into descending order: [x] is placed before the first
    element that is not strictly greater, so equal elements keep their
    original order. *)
Fixpoint insert_desc (x : A) (l : list A) : list A :=
  match l with
  | [] => [x]
  | y :: l' => if lt x y then y :: insert_desc x l' else x :: y :: l'
  end.

Definition sort_desc (l : list A) : list A := foldr insert_desc [] l.

(** [x] is not below [y]. *)
Definition ge (x y : A) : Prop := lt x y = false.

End sort.
End PySort.

(** ** Insertion-ordered dictionaries *)

Module OrderedDict.
Section ordered_dict.
Context {V : Type}.

Definition t := list (string * V).

Fixpoint get (k : string) (d : t) : option V :=
  match d with
  | [] => None
  | (k', v) :: d' => if decide (k = k') then Some v else get k d'
  end.

Definition contains (k : string) (d : t) : bool :=
  match get k d with Some _ => true | None => false end.

(** [d[k] = v]: an existing key keeps its position. *)
Fixpoint set (k : string) (v : V) (d : t) : t :=
  match d with
  | [] => [(k, v)]
  | (k', v') :: d' =>
      if decide (k = k') then (k, v) :: d' else (k', v') :: set k v d'
  end.

Fixpoint remove (k : string) (d : t) : t :=
  match d with
  | [] => []
  | (k', v') :: d' =>
      if decide (k = k') then d' else (k', v') :: remove k d'
  end.

(** [OrderedDict.move_to_end(k)]; only ever called on a present key. *)
Definition move_to_end (k : string) (d : t) : t :=
  match get k d with
  | Some v => remove k d ++ [(k, v)]
  | None => d
  end.

(** [OrderedDict.popitem(last=False)], keeping the dictionary only. *)
Definition popitem_first (d : t) : t := tail d.

Definition keys (d : t) : list string := d.*1.
Definition values (d : t) : list V := d.*2.

End ordered_dict.
Global Arguments t : clear implicits.
End OrderedDict.

(** ** [LRUCache] (enhanced_memory.py) *)

Module LRU.
Section lru.
Context {V : Type}.

Record LRUCache := mkLRU {
  cache : OrderedDict.t V;
  capacity : Z
}.

(** [LRUCache(capacity)] *)
Definition init (cap : Z) : LRUCache := mkLRU [] cap.

(** [LRUCache.get]: the cache after the call and the returned value. *)
Definition get (c : LRUCache) (key : string) : LRUCache * option V :=
  if negb (OrderedDict.contains key (cache c)) then (c, None)
  else
    let cache1 := OrderedDict.move_to_end key (cache c) in
    (mkLRU cache1 (capacity c), OrderedDict.get key cache1).

(** [LRUCache.put] *)
Definition put (c : LRUCache) (key : string) (value : V) : LRUCache :=
  let cache1 :=
    if OrderedDict.contains key (cache c)
    then OrderedDict.move_to_end key (cache c)
    else cache c in
  let cache2 := OrderedDict.set key value cache1 in
  if (Z.of_nat (length cache2) >? capacity c)%Z
  then mkLRU (OrderedDict.popitem_first cache2) (capacity c)
  else mkLRU cache2 (capacity c).

(** [LRUCache.clear] *)
Definition clear (c : LRUCache) : LRUCache := mkLRU [] (capacity c).

Inductive op :=
| Put (key : string) (value : V)
| Get (key : string).

Definition step (c : LRUCache) (o : op) : LRUCache :=
  match o with
  | Put k v => put c k v
  | Get k => (get c k).1
  end.

Definition run (ops : list op) (c : LRUCache) : LRUCache :=
  fold_left step ops c.

Definition put_all (kvs : list (string * V)) (c : LRUCache) : LRUCache :=
  fold_left (λ c kv, put c kv.1 kv.2) kvs c.

(** Reachable caches have unique keys and respect the capacity. *)
Definition wf (c : LRUCache) : Prop :=
  NoDup (OrderedDict.keys (cache c)) ∧
  (Z.of_nat (length (cache c)) ≤ capacity c)%Z.

(** "A key that was just read is not the next one evicted", for one
    capacity: whatever [put] follows the [get], the key is still cached. *)
Definition survives_next_put (cap : Z) : Prop :=
  ∀ (c : LRUCache) (k k' : string) (v' : V),
    wf c → capacity c = cap → k ∈ OrderedDict.keys (cache c) →
    k ∈ OrderedDict.keys (cache (put (get c k).1 k' v')).

End lru.
Global Arguments LRUCache : clear implicits.
Global Arguments op : clear implicits.
End LRU.

(** ** [StateTracker] (state_tracker.py) *)

Module StateTracker.

Inductive TaskStatus := PENDING | RUNNING | COMPLETED | FAILED | SKIPPED.

#[global] Instance TaskStatus_eq_dec : EqDecision TaskStatus.
Proof. solve_decision. Defined.

(** One value of the [tasks] dictionary.  [None] stands for Python's [None];
    a task result is an opaque payload. *)
Record Task := mkTask {
  id : string;
  name : string;
  status : TaskStatus;
  start_time : option string;
  end_time : option string;
  result : option string;
  error : option string;
  retry_count : Z
}.

(** The fields of a tracker that the task operations read or write. *)
Record State := mkState {
  tasks : OrderedDict.t Task;
  dependencies : gmap string (list string);
  execution_order : list string
}.

(** [StateTracker(workflow_id)] *)
Definition init : State := mkState [] ∅ [].

Definition set_status (s : TaskStatus) (t : Task) : Task :=
  mkTask (id t) (name t) s (start_time t) (end_time t) (result t) (error t)
    (retry_count t).

(** [self.tasks[task_id][...] = ...] on a registered task. *)
Definition update_task (task_id : string) (f : Task → Task) (st : State) : State :=
  match OrderedDict.get task_id (tasks st) with
  | Some t =>
      mkState (OrderedDict.set task_id (f t) (tasks st)) (dependencies st)
        (execution_order st)
  | None => st
  end.

Definition register_task (st : State) (task_id task_name : string)
    (deps : option (list string)) : State :=
  let t := mkTask task_id task_name PENDING None None None None 0 in
  let ds := match deps with
            | Some (d :: ds) => d :: ds
            | _ => []
            end in
  mkState (OrderedDict.set task_id t (tasks st))
    (<[task_id := ds]> (dependencies st)) (execution_order st).

Definition start_task (st : State) (now : string) (task_id : string) : State :=
  if OrderedDict.contains task_id (tasks st) then
    let st1 := update_task task_id (set_status RUNNING) st in
    let st2 := update_task task_id
                 (λ t, mkTask (id t) (name t) (status t) (Some now) (end_time t)
                         (result t) (error t) (retry_count t)) st1 in
    mkState (tasks st2) (dependencies st2) (execution_order st2 ++ [task_id])
  else st.

Definition complete_task (st : State) (now : string) (task_id : string)
    (res : option string) : State :=
  if OrderedDict.contains task_id (tasks st) then
    update_task task_id
      (λ t, mkTask (id t) (name t) COMPLETED (start_time t) (Some now) res
              (error t) (retry_count t)) st
  else st.

Definition fail_task (st : State) (now : string) (task_id err : string) : State :=
  if OrderedDict.contains task_id (tasks st) then
    update_task task_id
      (λ t, mkTask (id t) (name t) FAILED (start_time t) (Some now) (result t)
              (Some err) (retry_count t)) st
  else st.

Definition retry_task (st : State) (task_id : string) : State :=
  if OrderedDict.contains task_id (tasks st) then
    update_task task_id
      (λ t, mkTask (id t) (name t) PENDING (start_time t) (end_time t) (result t)
              (error t) (retry_count t + 1)) st
  else st.

(** [self.dependencies.get(task_id, [])] *)
Definition deps_of (st : State) (task_id : string) : list string :=
  default [] (dependencies st !! task_id).

Definition dep_completed (st : State) (dep_id : string) : bool :=
  match OrderedDict.get dep_id (tasks st) with
  | None => false
  | Some t => bool_decide (status t = COMPLETED)
  end.

Definition can_execute_task (st : State) (task_id : string) : bool :=
  if negb (OrderedDict.contains task_id (tasks st)) then false
  else forallb (dep_completed st) (deps_of st task_id).

Definition get_ready_tasks (st : State) : list string :=
  (List.filter
     (λ kt : string * Task,
        bool_decide (status kt.2 = PENDING) && can_execute_task st kt.1)
     (tasks st)).*1.

(** [get_task_status] *)
Definition get_task_status (st : State) (task_id : string) : option TaskStatus :=
  status <$> OrderedDict.get task_id (tasks st).

Inductive op :=
| RegisterTask (task_id task_name : string) (deps : option (list string))
| StartTask (now task_id : string)
| CompleteTask (now task_id : string) (res : option string)
| FailTask (now task_id err : string)
| RetryTask (task_id : string).

Definition step (st : State) (o : op) : State :=
  match o with
  | RegisterTask t n ds => register_task st t n ds
  | StartTask now t => start_task st now t
  | CompleteTask now t r => complete_task st now t r
  | FailTask now t e => fail_task st now t e
  | RetryTask t => retry_task st t
  end.

Definition run (ops : list op) : State := fold_left step ops init.

(** "No task transitions to running without [can_execute_task]": along
    every run from a fresh tracker, a step turns a task's status into
    [RUNNING] only if [can_execute_task] holds for that task in the state
    the step starts from. *)
Definition running_only_when_executable : Prop :=
  ∀ (ops : list op) (o : op) (t : string),
    get_task_status (run ops) t ≠ Some RUNNING →
    get_task_status (step (run ops) o) t = Some RUNNING →
    can_execute_task (run ops) t = true.

End StateTracker.

(** ** Strings: [str.lower] and [str.split] on ASCII text

    On ASCII strings [lower] and [split] are [str.lower] and [str.split].
    On other strings they are not: [str.lower] also folds the letters
    beyond ASCII and [str.split] also separates on the other Unicode
    spaces.  Module [CampaignSearch] therefore takes the two functions as
    parameters, and uses these two on ASCII examples only. *)

Module PyStr.

Definition lower_ascii (a : Ascii.ascii) : Ascii.ascii :=
  let n := Ascii.nat_of_ascii a in
  if (65 <=? n)%nat && (n <=? 90)%nat then Ascii.ascii_of_nat (n + 32) else a.

Fixpoint lower (s : string) : string :=
  match s with
  | EmptyString => EmptyString
  | String a s' => String (lower_ascii a) (lower s')
  end.

(** The ASCII characters [str.split()] treats as separators. *)
Definition is_space (a : Ascii.ascii) : bool :=
  let n := Ascii.nat_of_ascii a in
  ((9 <=? n)%nat && (n <=? 13)%nat) || ((28 <=? n)%nat && (n <=? 32)%nat).

Definition flush (cur : string) : list string :=
  match cur with
  | EmptyString => []
  | _ => [cur]
  end.

Fixpoint split_from (cur : string) (s : string) : list string :=
  match s with
  | EmptyString => flush cur
  | String a s' =>
      if is_space a then flush cur ++ split_from EmptyString s'
      else split_from (cur +:+ String a EmptyString) s'
  end.

(** [s.split()]: the maximal runs of non-space characters. *)
Definition split (s : string) : list string := split_from EmptyString s.

End PyStr.

(** ** [EnhancedMemoryManager] (enhanced_memory.py) *)

Module Memory.

(** A stored value ([Any]): Python's [None] or an opaque payload. *)
Inductive Value := VNone | VData (payload : string).

#[global] Instance Value_eq_dec : EqDecision Value.
Proof. solve_decision. Defined.

Module MemoryEntry.
Record t := mk {
  key : string;
  value : Value;
  memory_type : string;
  agent_id : string;
  session_id : option string;
  created_at : string;
  accessed_at : string;
  access_count : Z;
  tags : list string
}.
End MemoryEntry.

Module CampaignTemplate.
Record t := mk {
  template_id : string;
  product_name : string;
  category : string;
  quality_score : Q;
  created_at : string;
  session_id : string;
  target_audience : string;
  keywords : list string;
  listing_structure : string;
  social_strategy : string;
  success_metrics : string;
  tags : list string
}.
End CampaignTemplate.

(** What a long-term memory file holds when it is read back. *)
Inductive PickleFile :=
| Pickled (e : MemoryEntry.t)
| Unreadable.

Record Manager := mkManager {
  session_id : string;
  short_term_memory : gmap string (gmap string MemoryEntry.t);
  working_memory : gmap string (gmap string MemoryEntry.t);
  shared_memory : gmap string MemoryEntry.t;
  enable_caching : bool;
  cache : LRU.LRUCache Value;
  longterm_index : gmap string string;
  longterm_files : gmap string PickleFile;
  templates_index : OrderedDict.t CampaignTemplate.t
}.

(** [EnhancedMemoryManager(session_id, ...)] over the indexes found on disk. *)
Definition init (sid : string) (caching : bool) (cache_size : Z)
    (lt_index : gmap string string) (lt_files : gmap string PickleFile)
    (templates : OrderedDict.t CampaignTemplate.t) : Manager :=
  mkManager sid ∅ ∅ ∅ caching (LRU.init cache_size) lt_index lt_files templates.

Definition with_cache (m : Manager) (c : LRU.LRUCache Value) : Manager :=
  mkManager (session_id m) (short_term_memory m) (working_memory m)
    (shared_memory m) (enable_caching m) c (longterm_index m)
    (longterm_files m) (templates_index m).

Definition with_short_term (m : Manager)
    (stm : gmap string (gmap string MemoryEntry.t)) : Manager :=
  mkManager (session_id m) stm (working_memory m) (shared_memory m)
    (enable_caching m) (cache m) (longterm_index m) (longterm_files m)
    (templates_index m).

Definition with_working (m : Manager)
    (wm : gmap string (gmap string MemoryEntry.t)) : Manager :=
  mkManager (session_id m) (short_term_memory m) wm (shared_memory m)
    (enable_caching m) (cache m) (longterm_index m) (longterm_files m)
    (templates_index m).

Definition with_shared (m : Manager) (sm : gmap string MemoryEntry.t) : Manager :=
  mkManager (session_id m) (short_term_memory m) (working_memory m) sm
    (enable_caching m) (cache m) (longterm_index m) (longterm_files m)
    (templates_index m).

Definition with_longterm (m : Manager) (ix : gmap string string)
    (fs : gmap string PickleFile) : Manager :=
  mkManager (session_id m) (short_term_memory m) (working_memory m)
    (shared_memory m) (enable_caching m) (cache m) ix fs (templates_index m).

Definition with_templates (m : Manager)
    (ts : OrderedDict.t CampaignTemplate.t) : Manager :=
  mkManager (session_id m) (short_term_memory m) (working_memory m)
    (shared_memory m) (enable_caching m) (cache m) (longterm_index m)
    (longterm_files m) ts.

(** [f"{agent_id}:{memory_type}:{key}"] *)
Definition cache_key (agent_id memory_type key : string) : string :=
  agent_id +:+ ":" +:+ memory_type +:+ ":" +:+ key.

(** [f"{agent_id}:{key}"] *)
Definition memory_key (agent_id key : string) : string :=
  agent_id +:+ ":" +:+ key.

(** [_load_longterm_memory] *)
Definition load_longterm_memory (m : Manager) (agent_id key : string)
    : option MemoryEntry.t :=
  match longterm_index m !! memory_key agent_id key with
  | None => None
  | Some path =>
      match longterm_files m !! path with
      | Some (Pickled e) => Some e
      | Some Unreadable => None
      | None => None
      end
  end.

(** [entry.accessed_at = now; entry.access_count += 1] *)
Definition touch (now : string) (e : MemoryEntry.t) : MemoryEntry.t :=
  MemoryEntry.mk (MemoryEntry.key e) (MemoryEntry.value e)
    (MemoryEntry.memory_type e) (MemoryEntry.agent_id e)
    (MemoryEntry.session_id e) (MemoryEntry.created_at e) now
    (MemoryEntry.access_count e + 1) (MemoryEntry.tags e).

(** The entry a tier holds, with the store in which that object lives
    after [touch] has mutated it.  The entry of the long-term tier is a
    fresh copy read from its file, so mutating it changes no store. *)
Definition lookup_and_touch (m : Manager) (now agent_id key memory_type : string)
    : option (MemoryEntry.t * Manager) :=
  if String.eqb memory_type "short_term" then
    match short_term_memory m !! agent_id with
    | Some entries =>
        match entries !! key with
        | Some e =>
            Some (touch now e,
                  with_short_term m
                    (<[agent_id := <[key := touch now e]> entries]>
                       (short_term_memory m)))
        | None => None
        end
    | None => None
    end
  else if String.eqb memory_type "long_term" then
    match load_longterm_memory m agent_id key with
    | Some e => Some (touch now e, m)
    | None => None
    end
  else if String.eqb memory_type "working" then
    match working_memory m !! agent_id with
    | Some entries =>
        match entries !! key with
        | Some e =>
            Some (touch now e,
                  with_working m
                    (<[agent_id := <[key := touch now e]> entries]>
                       (working_memory m)))
        | None => None
        end
    | None => None
    end
  else if String.eqb memory_type "shared" then
    match shared_memory m !! key with
    | Some e =>
        Some (touch now e, with_shared m (<[key := touch now e]> (shared_memory m)))
    | None => None
    end
  else None.

(** [retrieve]: the manager after the call and the returned value
    ([VNone] when the method returns [None]). *)
Definition retrieve (m : Manager) (now agent_id key memory_type : string)
    : Manager * Value :=
  let ck := cache_key agent_id memory_type key in
  let '(m1, cached) :=
    if enable_caching m then
      let '(c1, r) := LRU.get (cache m) ck in (with_cache m c1, r)
    else (m, None) in
  match cached with
  | Some (VData p) => (m1, VData p)
  | _ =>
      match lookup_and_touch m1 now agent_id key memory_type with
      | Some (e, m2) =>
          let m3 :=
            if enable_caching m2
            then with_cache m2 (LRU.put (cache m2) ck (MemoryEntry.value e))
            else m2 in
          (m3, MemoryEntry.value e)
      | None => (m1, VNone)
      end
  end.

Section hashing.
(** [hashlib.md5(s.encode()).hexdigest()] *)
Variable md5_hexdigest : string → string.

(** [store].  [io_ok] tells whether the file writes of this call succeed;
    a failed write raises inside the [try], after the in-memory update of
    the short-term tier and before the cache update. *)
Definition store (io_ok : bool) (m : Manager) (now agent_id key : string)
    (value : Value) (memory_type : string) (tags : option (list string))
    : Manager * bool :=
  let entry :=
    MemoryEntry.mk key value memory_type agent_id (Some (session_id m)) now now 0
      (default [] tags) in
  let stored : Manager * bool :=
    if String.eqb memory_type "short_term" then
      let entries := default ∅ (short_term_memory m !! agent_id) in
      (with_short_term m
         (<[agent_id := <[key := entry]> entries]> (short_term_memory m)),
       io_ok)
    else if String.eqb memory_type "long_term" then
      if io_ok then
        let mk := memory_key agent_id key in
        let path := md5_hexdigest mk +:+ ".pkl" in
        (with_longterm m (<[mk := path]> (longterm_index m))
           (<[path := Pickled entry]> (longterm_files m)), true)
      else (m, false)
    else if String.eqb memory_type "working" then
      let entries := default ∅ (working_memory m !! agent_id) in
      (with_working m
         (<[agent_id := <[key := entry]> entries]> (working_memory m)), true)
    else if String.eqb memory_type "shared" then
      (with_shared m (<[key := entry]> (shared_memory m)), true)
    else (m, true) in
  let '(m1, ok) := stored in
  if ok then
    ((if enable_caching m1
      then with_cache m1 (LRU.put (cache m1) (cache_key agent_id memory_type key) value)
      else m1), true)
  else (m1, false).

(** [save_campaign_template] *)
Definition save_campaign_template (m : Manager) (now : string)
    (product_name category : string) (quality_score : Q)
    (target_audience : string) (keywords : list string)
    (listing_structure social_strategy success_metrics : string)
    (tags : option (list string)) : Manager * string :=
  let template_id :=
    String.substring 0 16
      (md5_hexdigest (product_name +:+ ":" +:+ category +:+ ":" +:+ session_id m)) in
  let template :=
    CampaignTemplate.mk template_id product_name category quality_score now
      (session_id m) target_audience keywords listing_structure social_strategy
      success_metrics (default [] tags) in
  (with_templates m (OrderedDict.set template_id template (templates_index m)),
   template_id).

(** The arguments of one [save_campaign_template] call. *)
Record SaveCall := mkSaveCall {
  sc_now : string;
  sc_product_name : string;
  sc_category : string;
  sc_quality_score : Q;
  sc_target_audience : string;
  sc_keywords : list string;
  sc_listing_structure : string;
  sc_social_strategy : string;
  sc_success_metrics : string;
  sc_tags : option (list string)
}.

Definition save_call (m : Manager) (c : SaveCall) : Manager :=
  (save_campaign_template m (sc_now c) (sc_product_name c) (sc_category c)
     (sc_quality_score c) (sc_target_audience c) (sc_keywords c)
     (sc_listing_structure c) (sc_social_strategy c) (sc_success_metrics c)
     (sc_tags c)).1.

(** The quality gate of [EnhancedCampaignWorkflow]
    (enhanced_campaign_workflow.py): the campaign is saved only
    [if validation_report.get('overall_score', 0) >= 85]. *)
Definition workflow_save_step (m : Manager) (overall_score : option Q)
    (c : SaveCall) : Manager :=
  let score := default 0%Q overall_score in
  if Qle_bool 85 score then
    save_call m
      (mkSaveCall (sc_now c) (sc_product_name c) (sc_category c) score
         (sc_target_audience c) (sc_keywords c) (sc_listing_structure c)
         (sc_social_strategy c) (sc_success_metrics c) (sc_tags c))
  else m.

Definition meets_threshold (t : CampaignTemplate.t) : Prop :=
  (85 <= CampaignTemplate.quality_score t)%Q.

(** "Every indexed template reaches the approval threshold": whatever
    calls are made on a manager with an empty template index, every
    indexed template scores at least 85. *)
Definition saved_templates_meet_threshold : Prop :=
  ∀ (m : Manager) (calls : list SaveCall),
    templates_index m = [] →
    Forall meets_threshold
      (OrderedDict.values (templates_index (fold_left save_call calls m))).

End hashing.

(** *** Similarity search, with exact rational scores *)

Definition Qlt_bool (x y : Q) : bool := negb (Qle_bool y x).

Definition truthy_list {A} (o : option (list A)) : bool :=
  match o with
  | Some (_ :: _) => true
  | _ => false
  end.

(** [n / d] as a Python true division of two lengths. *)
Definition ratio (n d : nat) : Q :=
  (inject_Z (Z.of_nat n) / inject_Z (Z.of_nat d))%Q.

(** [len(set(a) & set(b))] *)
Definition keyword_overlap (a b : list string) : nat :=
  size ((list_to_set a : gset string) ∩ list_to_set b).

(** [set(s.lower().split())] *)
Definition words (s : string) : gset string :=
  list_to_set (PyStr.split (PyStr.lower s)).

(** The body of the scoring loop for one template. *)
Definition similarity (category : option string)
    (keywords : option (list string)) (target_audience : option string)
    (template : CampaignTemplate.t) : Q :=
  let similarity0 := 0%Q in
  let similarity1 :=
    if truthy_str category
       && String.eqb (PyStr.lower (CampaignTemplate.category template))
            (PyStr.lower (default "" category))
    then (similarity0 + 0.4)%Q else similarity0 in
  let similarity2 :=
    if truthy_list keywords
       && truthy_list (Some (CampaignTemplate.keywords template))
    then
      let kws := default [] keywords in
      let keyword_overlap :=
        keyword_overlap kws (CampaignTemplate.keywords template) in
      if (0 <? keyword_overlap)%nat then
        (similarity1
         + 0.4 * ratio keyword_overlap
                   (max (length kws)
                      (length (CampaignTemplate.keywords template))))%Q
      else similarity1
    else similarity1 in
  if truthy_str target_audience
     && truthy_str (Some (CampaignTemplate.target_audience template))
  then
    let target_words := words (default "" target_audience) in
    let template_words := words (CampaignTemplate.target_audience template) in
    let word_overlap := size (target_words ∩ template_words) in
    if (0 <? word_overlap)%nat then
      (similarity2
       + 0.2 * ratio word_overlap (max (size target_words) (size template_words)))%Q
    else similarity2
  else similarity2.

(** The loop over [templates_index.values()], which builds [results]. *)
Fixpoint score_templates (category : option string)
    (keywords : option (list string)) (target_audience : option string)
    (min_quality_score : Q) (templates : list CampaignTemplate.t)
    : list (CampaignTemplate.t * Q) :=
  match templates with
  | [] => []
  | template :: rest =>
      let results :=
        score_templates category keywords target_audience min_quality_score rest in
      if Qlt_bool (CampaignTemplate.quality_score template) min_quality_score
      then results
      else
        let sim := similarity category keywords target_audience template in
        if Qlt_bool 0 sim then (template, sim) :: results else results
  end.

(** [key=lambda x: (x[1], x[0].quality_score)] and tuple comparison. *)
Definition sort_key (x : CampaignTemplate.t * Q) : Q * Q :=
  (x.2, CampaignTemplate.quality_score x.1).

Definition key_lt (a b : Q * Q) : bool :=
  match (a.1 ?= b.1)%Q with
  | Lt => true
  | Eq => Qlt_bool a.2 b.2
  | Gt => false
  end.

Definition rank_lt (x y : CampaignTemplate.t * Q) : bool :=
  key_lt (sort_key x) (sort_key y).

Definition find_similar_campaigns (m : Manager) (category : option string)
    (keywords : option (list string)) (target_audience : option string)
    (min_quality_score : Q) (limit : Z) : list (CampaignTemplate.t * Q) :=
  let results :=
    score_templates category keywords target_audience min_quality_score
      (OrderedDict.values (templates_index m)) in
  slice_to limit (PySort.sort_desc rank_lt results).

(** *** The similarity as a weighted sum *)

(** Category term: 0.4 when the query category is non-empty and equals
    the template's, case-insensitively. *)
Definition category_term (category : option string)
    (t : CampaignTemplate.t) : Q :=
  match category with
  | Some c =>
      if negb (String.eqb c "")
         && String.eqb (PyStr.lower (CampaignTemplate.category t)) (PyStr.lower c)
      then 0.4%Q else 0%Q
  | None => 0%Q
  end.

(** 0.4 × |distinct common keywords| / max of the two list lengths; an
    absent keyword list counts as empty, and a quotient with denominator 0
    (which then has numerator 0 as well) is 0. *)
Definition keyword_term (keywords : option (list string))
    (t : CampaignTemplate.t) : Q :=
  (0.4 * ratio (keyword_overlap (default [] keywords) (CampaignTemplate.keywords t))
           (max (length (default [] keywords))
              (length (CampaignTemplate.keywords t))))%Q.

(** 0.2 × |common words| / max of the two numbers of distinct words; an
    absent audience counts as the empty string. *)
Definition audience_term (target_audience : option string)
    (t : CampaignTemplate.t) : Q :=
  let a := words (default "" target_audience) in
  let b := words (CampaignTemplate.target_audience t) in
  (0.2 * ratio (size (a ∩ b)) (max (size a) (size b)))%Q.

Definition similarity_spec (category : option string)
    (keywords : option (list string)) (target_audience : option string)
    (t : CampaignTemplate.t) : Q :=
  (category_term category t + keyword_term keywords t
   + audience_term target_audience t)%Q.

(** Two stored templates used in the examples below. *)
Definition template_hub : CampaignTemplate.t :=
  CampaignTemplate.mk "t1" "SmartHub Pro 360" "Smart Home Devices" 92
    "2024-05-01T10:00:00" "s1" "Tech savvy homeowners"
    ["smart hub"; "home automation"; "voice control"] "" "" "" [].

Definition template_uncategorised : CampaignTemplate.t :=
  CampaignTemplate.mk "t2" "Mystery Box" "" 90
    "2024-05-02T10:00:00" "s2" "" ["gift"] "" "" "" [].

Definition manager_with (ts : list CampaignTemplate.t) : Manager :=
  init "s3" true 100 ∅ ∅
    (fold_left (λ d t, OrderedDict.set (CampaignTemplate.template_id t) t d) ts []).

End Memory.

(** ** [AsyncLogger] (async_logger.py) *)

Module AsyncLogger.

Inductive LogLevel := DEBUG | INFO | WARNING | ERROR | SUCCESS | METRIC.

Definition LogLevel_value (l : LogLevel) : string :=
  match l with
  | DEBUG => "DEBUG" | INFO => "INFO" | WARNING => "WARNING"
  | ERROR => "ERROR" | SUCCESS => "SUCCESS" | METRIC => "METRIC"
  end.

Inductive EventType :=
| SESSION_STARTED | SESSION_COMPLETED | AGENT_STARTED | AGENT_COMPLETED
| AGENT_ERROR | TOOL_CALLED | TOOL_COMPLETED | MEMORY_STORED
| MEMORY_RETRIEVED | WORKFLOW_STAGE | VALIDATION_RESULT | METRIC_RECORDED.

Definition EventType_value (e : EventType) : string :=
  match e with
  | SESSION_STARTED => "session_started"
  | SESSION_COMPLETED => "session_completed"
  | AGENT_STARTED => "agent_started"
  | AGENT_COMPLETED => "agent_completed"
  | AGENT_ERROR => "agent_error"
  | TOOL_CALLED => "tool_called"
  | TOOL_COMPLETED => "tool_completed"
  | MEMORY_STORED => "memory_stored"
  | MEMORY_RETRIEVED => "memory_retrieved"
  | WORKFLOW_STAGE => "workflow_stage"
  | VALIDATION_RESULT => "validation_result"
  | METRIC_RECORDED => "metric_recorded"
  end.

Module LogEvent.
Record t := mk {
  timestamp : string;
  session_id : string;
  event_type : string;
  level : string;
  agent_id : option string;
  agent_name : option string;
  message : string;
  data : list (string * string);
  duration_ms : option Q;
  parent_event_id : option string;
  event_id : string
}.
End LogEvent.

(** [queue.Queue(maxsize)]: unbounded when [maxsize <= 0]. *)
Module Queue.
Record t (A : Type) := mk {
  items : list A;
  maxsize : Z
}.
Arguments mk {A}.
Arguments items {A}.
Arguments maxsize {A}.

Inductive put_result (A : Type) :=
| Stored (q : t A)
| RaisesFull
| WaitsForSpace.
Arguments Stored {A}.
Arguments RaisesFull {A}.
Arguments WaitsForSpace {A}.

Definition full {A} (q : t A) : bool :=
  (0 <? maxsize q)%Z && (maxsize q <=? Z.of_nat (length (items q)))%Z.

(** [Queue.put(item, block)] without a timeout. *)
Definition put {A} (q : t A) (item : A) (block : bool) : put_result A :=
  if full q then (if block then WaitsForSpace else RaisesFull)
  else Stored (mk (items q ++ [item]) (maxsize q)).

Definition put_nowait {A} (q : t A) (item : A) : put_result A :=
  put q item false.
End Queue.

(** The producer-side fields of the logger. *)
Record Logger := mkLogger {
  session_id : string;
  log_queue : Queue.t LogEvent.t;
  events_logged : Z;
  events_dropped : Z
}.

(** How a call ends. *)
Inductive outcome (A : Type) :=
| Returns (a : A)
| Raises
| Blocks.
Arguments Returns {A}.
Arguments Raises {A}.
Arguments Blocks {A}.

(** [log].  [now] is [datetime.now().isoformat()] and [fresh_id] the
    [event_id] produced by the default factory of [LogEvent]. *)
Definition log (st : Logger) (now fresh_id : string) (event_type : EventType)
    (level : LogLevel) (message : string) (agent_id agent_name : option string)
    (data : option (list (string * string))) (duration_ms : option Q)
    (parent_event_id : option string) : Logger * outcome string :=
  let event :=
    LogEvent.mk now (session_id st) (EventType_value event_type)
      (LogLevel_value level) agent_id agent_name message (default [] data)
      duration_ms parent_event_id fresh_id in
  match Queue.put_nowait (log_queue st) event with
  | Queue.Stored q =>
      (mkLogger (session_id st) q (events_logged st) (events_dropped st),
       Returns (LogEvent.event_id event))
  | Queue.RaisesFull =>
      (mkLogger (session_id st) (log_queue st) (events_logged st)
         (events_dropped st + 1),
       Returns (LogEvent.event_id event))
  | Queue.WaitsForSpace => (st, Blocks)
  end.

(** *** Reading the log files back *)

(** A JSON value as [json.loads] returns it; an object is a [dict]. *)
Inductive json :=
| JNull
| JBool (b : bool)
| JNumber (n : Z)
| JString (s : string)
| JArray (items : list json)
| JObject (fields : list (string * json)).

(** One line of a log file, seen through [json.loads(line.strip())]:
    either a [JSONDecodeError] or the decoded value. *)
Inductive Line :=
| Malformed
| Decoded (value : json).

(** The log directory: file name to lines; an absent name is a file that
    does not exist. *)
Definition Files := gmap string (list Line).

Definition master_log_file : string := "session_timeseries.jsonl".

(** [_get_agent_log_file] *)
Definition agent_log_file (agent_id : string) : string :=
  "agent_" +:+ agent_id +:+ ".jsonl".

Inductive result (A : Type) :=
| Ok (a : A)
| AttributeError.
Arguments Ok {A}.
Arguments AttributeError {A}.

(** [event.get(field) != expected]; only a [dict] has [get]. *)
Definition field_differs (event : json) (field expected : string) : result bool :=
  match event with
  | JObject fields =>
      Ok (match OrderedDict.get field fields with
          | Some (JString s) => negb (String.eqb s expected)
          | _ => true
          end)
  | _ => AttributeError
  end.

(** [flt and event.get(field) != flt] *)
Definition filtered_out (flt : option string) (event : json) (field : string)
    : result bool :=
  if truthy_str flt then field_differs event field (default "" flt)
  else Ok false.

(** The loop over the lines of the file; [events] is the list built so
    far. *)
Fixpoint read_lines (event_type level : option string) (limit : option Z)
    (events : list json) (lines : list Line) : result (list json) :=
  match lines with
  | [] => Ok events
  | Malformed :: rest => read_lines event_type level limit events rest
  | Decoded event :: rest =>
      match filtered_out event_type event "event_type" with
      | AttributeError => AttributeError
      | Ok true => read_lines event_type level limit events rest
      | Ok false =>
          match filtered_out level event "level" with
          | AttributeError => AttributeError
          | Ok true => read_lines event_type level limit events rest
          | Ok false =>
              let events' := events ++ [event] in
              if truthy_int limit
                 && (default 0 limit <=? Z.of_nat (length events'))%Z
              then Ok events'
              else read_lines event_type level limit events' rest
          end
      end
  end.

(** [read_logs], on the files as they are once the queue is flushed. *)
Definition read_logs (files : Files) (agent_id event_type level : option string)
    (limit : option Z) : result (list json) :=
  let log_file :=
    if truthy_str agent_id then agent_log_file (default "" agent_id)
    else master_log_file in
  match files !! log_file with
  | None => Ok []
  | Some lines => read_lines event_type level limit [] lines
  end.

(** *** The result in the words of the specification *)

Definition field_is (event : json) (field expected : string) : bool :=
  match event with
  | JObject fields =>
      match OrderedDict.get field fields with
      | Some (JString s) => String.eqb s expected
      | _ => false
      end
  | _ => false
  end.

(** An event matches when every non-empty filter equals its field. *)
Definition matches (event_type level : option string) (event : json) : bool :=
  (negb (truthy_str event_type)
   || field_is event "event_type" (default "" event_type))
  && (negb (truthy_str level) || field_is event "level" (default "" level)).

(** The decoded lines, in file order. *)
Definition decoded (lines : list Line) : list json :=
  omap (λ l, match l with Decoded v => Some v | Malformed => None end) lines.

Definition is_object (v : json) : bool :=
  match v with JObject _ => true | _ => false end.

(** The cut made by [limit]: none when it is absent or 0, the first
    [limit] matches when positive, the first match when negative. *)
Definition cut (limit : option Z) (events : list json) : list json :=
  match limit with
  | None => events
  | Some n =>
      if (n =? 0)%Z then events
      else if (0 <? n)%Z then take (Z.to_nat n) events
      else take 1 events
  end.

(** How many further matches the loop takes once [events] holds [len]
    events. *)
Definition cut_from (limit : option Z) (len : nat) (found : list json)
    : list json :=
  if truthy_int limit
  then take (Z.to_nat (Z.max 1 (default 0%Z limit - Z.of_nat len))) found
  else found.

(** When a filter is set, the decoded lines have to be objects for the
    loop to get through the file. *)
Definition readable (event_type level : option string) (lines : list Line)
    : Prop :=
  truthy_str event_type || truthy_str level = true →
  Forall (λ v, is_object v = true) (decoded lines).

End AsyncLogger.

(** ** [SessionManager] (session_manager.py) *)

Module SessionManager.

(** Timestamps are the instants, in microseconds, that the ISO strings of
    [datetime.now().isoformat()] denote; their string order, used by
    [list_sessions], is the order of the instants. *)
Definition Time := Z.

Module SessionMetadata.
Record t := mk {
  session_id : string;
  created_at : Time;
  status : string;
  product_name : option string;
  workflow_type : string;
  duration_seconds : Q;
  agent_count : Z;
  error_count : Z;
  quality_score : option Q;
  completed_at : option Time;
  archived_at : option Time
}.
End SessionMetadata.

(** The index, the session directories that exist under [sessions_root],
    and the retention period. *)
Record State := mkState {
  sessions_index : OrderedDict.t SessionMetadata.t;
  session_dirs : gset string;
  retention_days : Z
}.

Inductive call_result := Returned | Raised.

Definition is_finished (status : string) : bool :=
  String.eqb status "completed" || String.eqb status "failed".

(** The assignments [update_session] makes to the metadata object. *)
Definition updated_metadata (now : Time) (status : option string)
    (duration : option Q) (agent_count error_count : option Z)
    (quality_score : option Q) (md : SessionMetadata.t) : SessionMetadata.t :=
  let '(status1, completed1) :=
    if truthy_str status then
      (default "" status,
       if is_finished (default "" status) then Some now
       else SessionMetadata.completed_at md)
    else (SessionMetadata.status md, SessionMetadata.completed_at md) in
  SessionMetadata.mk (SessionMetadata.session_id md)
    (SessionMetadata.created_at md) status1
    (SessionMetadata.product_name md) (SessionMetadata.workflow_type md)
    (default (SessionMetadata.duration_seconds md) duration)
    (default (SessionMetadata.agent_count md) agent_count)
    (default (SessionMetadata.error_count md) error_count)
    (match quality_score with
     | Some q => Some q
     | None => SessionMetadata.quality_score md
     end)
    completed1 (SessionMetadata.archived_at md).

(** [update_session].  Writing [session_manifest.json] raises when the
    session directory is gone; the metadata object is already updated by
    then. *)
Definition update_session (st : State) (now : Time) (session_id : string)
    (status : option string) (duration : option Q)
    (agent_count error_count : option Z) (quality_score : option Q)
    : State * call_result :=
  match OrderedDict.get session_id (sessions_index st) with
  | None => (st, Returned)
  | Some metadata =>
      let metadata' :=
        updated_metadata now status duration agent_count error_count
          quality_score metadata in
      let st' :=
        mkState (OrderedDict.set session_id metadata' (sessions_index st))
          (session_dirs st) (retention_days st) in
      (st', if bool_decide (session_id ∈ session_dirs st) then Returned else Raised)
  end.

(** [sessions.sort(key=lambda s: s.created_at, reverse=True)] *)
Definition created_lt (a b : SessionMetadata.t) : bool :=
  (SessionMetadata.created_at a <? SessionMetadata.created_at b)%Z.

Definition status_selected (status : option string) (s : SessionMetadata.t)
    : bool :=
  negb (truthy_str status)
  || String.eqb (SessionMetadata.status s) (default "" status).

(** [list_sessions] *)
Definition list_sessions (st : State) (status : option string)
    (limit : option Z) : list SessionMetadata.t :=
  let sessions := OrderedDict.values (sessions_index st) in
  let sessions1 :=
    if truthy_str status
    then List.filter
           (λ s, String.eqb (SessionMetadata.status s) (default "" status))
           sessions
    else sessions in
  let sessions2 := PySort.sort_desc created_lt sessions1 in
  if truthy_int limit then slice_to (default 0%Z limit) sessions2 else sessions2.

Definition microseconds_per_day : Z := 86400000000.

(** [datetime.now() - timedelta(days=self.retention_days)] *)
Definition cutoff_date (st : State) (now : Time) : Time :=
  (now - retention_days st * microseconds_per_day)%Z.

Definition due (cutoff : Time) (metadata : SessionMetadata.t) : bool :=
  (SessionMetadata.created_at metadata <? cutoff)%Z
  && is_finished (SessionMetadata.status metadata).

Definition archived_metadata (now : Time) (md : SessionMetadata.t)
    : SessionMetadata.t :=
  SessionMetadata.mk (SessionMetadata.session_id md)
    (SessionMetadata.created_at md) "archived"
    (SessionMetadata.product_name md) (SessionMetadata.workflow_type md)
    (SessionMetadata.duration_seconds md) (SessionMetadata.agent_count md)
    (SessionMetadata.error_count md) (SessionMetadata.quality_score md)
    (SessionMetadata.completed_at md) (Some now).

(** The archive step of a session goes through: its directory exists and
    no I/O error occurs. *)
Definition archivable (io_error : string → bool) (st : State)
    (session_id : string) : bool :=
  bool_decide (session_id ∈ session_dirs st) && negb (io_error session_id).

(** [_archive_session].  [io_error session_id] tells whether creating the
    archive or removing the directory raises for this session in this
    sweep; the [except] clause then returns [False] and, in this model,
    the directory is still there. *)
Definition archive_session (io_error : string → bool) (now : Time)
    (st : State) (session_id : string) : State * bool :=
  if negb (bool_decide (session_id ∈ session_dirs st)) then (st, false)
  else if io_error session_id then (st, false)
  else
    let index' :=
      match OrderedDict.get session_id (sessions_index st) with
      | Some md =>
          OrderedDict.set session_id (archived_metadata now md) (sessions_index st)
      | None => sessions_index st
      end in
    (mkState index' (session_dirs st ∖ {[session_id]}) (retention_days st), true).

Definition sessions_to_cleanup (st : State) (now : Time) : list string :=
  (List.filter (λ kv : string * SessionMetadata.t, due (cutoff_date st now) kv.2)
     (sessions_index st)).*1.

(** The second loop of [cleanup_old_sessions]. *)
Definition archive_all (io_error : string → bool) (now : Time)
    (ids : list string) (acc : State * Z) : State * Z :=
  fold_left
    (λ (acc : State * Z) session_id,
       let '(st', ok) := archive_session io_error now acc.1 session_id in
       (st', if ok then (acc.2 + 1)%Z else acc.2))
    ids acc.

(** [cleanup_old_sessions] *)
Definition cleanup_old_sessions (io_error : string → bool) (st : State)
    (now : Time) : State * Z :=
  archive_all io_error now (sessions_to_cleanup st now) (st, 0%Z).

(** *** The update and the sweep in the words of the specification *)

(** A supplied status is stored, whatever it is. *)
Definition supplied_status_is_stored : Prop :=
  ∀ st now session_id s md md',
    OrderedDict.get session_id (sessions_index st) = Some md →
    OrderedDict.get session_id
      (sessions_index
         (update_session st now session_id (Some s) None None None None).1)
    = Some md' →
    SessionMetadata.status md' = s.

(** A second sweep, at the same instant, archives nothing. *)
Definition second_cleanup_returns_zero : Prop :=
  ∀ io_error1 io_error2 st now,
    NoDup (OrderedDict.keys (sessions_index st)) →
    (cleanup_old_sessions io_error2
       (cleanup_old_sessions io_error1 st now).1 now).2 = 0%Z.

End SessionManager.

(** ** Auxiliary views of the cache and of the cache keys *)

Module LRUOps.

(** The dictionary [put] builds before it checks the size. *)
Definition inserted {V : Type} (c : LRU.LRUCache V) (k : string) (v : V)
    : OrderedDict.t V :=
  OrderedDict.set k v
    (if OrderedDict.contains k (LRU.cache c)
     then OrderedDict.move_to_end k (LRU.cache c) else LRU.cache c).

End LRUOps.

Module PyStrOps.

(** The separator of the cache keys occurs in [s]. *)
Fixpoint has_colon (s : string) : bool :=
  match s with
  | EmptyString => false
  | String a s' => Ascii.eqb a (Ascii.ascii_of_nat 58) || has_colon s'
  end.

End PyStrOps.

(** ** Further operations of [EnhancedMemoryManager] *)

Module MemoryOps.
Import Memory.

(** [clear_session_memory] *)
Definition clear_session_memory (m : Manager) : Manager :=
  let m1 := with_working (with_short_term m ∅) ∅ in
  if enable_caching m1 then with_cache m1 (LRU.clear (cache m1)) else m1.

(** [clear_working_memory] *)
Definition clear_working_memory (m : Manager) (agent_id : string) : Manager :=
  match working_memory m !! agent_id with
  | Some _ => with_working m (<[agent_id := ∅]> (working_memory m))
  | None => m
  end.

(** [share_to_all]; storing in the shared tier writes no file. *)
Definition share_to_all (md5_hexdigest : string → string) (m : Manager)
    (now from_agent key : string) (value : Value) : Manager :=
  (store md5_hexdigest true m now from_agent key value "shared" None).1.

(** The four memory tiers of [store] and [retrieve]. *)
Definition is_tier (memory_type : string) : Prop :=
  memory_type = "short_term" ∨ memory_type = "long_term"
  ∨ memory_type = "working" ∨ memory_type = "shared".

(** The entry a tier holds for an agent and a key. *)
Definition peek (m : Manager) (agent_id key memory_type : string)
    : option MemoryEntry.t :=
  if String.eqb memory_type "short_term" then
    short_term_memory m !! agent_id ≫= (.!! key)
  else if String.eqb memory_type "long_term" then
    load_longterm_memory m agent_id key
  else if String.eqb memory_type "working" then
    working_memory m !! agent_id ≫= (.!! key)
  else if String.eqb memory_type "shared" then shared_memory m !! key
  else None.

(** What is cached under the key of a lookup, as [retrieve] sees it. *)
Definition cached (m : Manager) (agent_id key memory_type : string)
    : option Value :=
  if enable_caching m
  then (LRU.get (cache m) (cache_key agent_id memory_type key)).2
  else None.

End MemoryOps.

(** ** The comparisons of a sort *)

Module PySortOrder.

(** The comparisons [lt] makes among the elements of [l] are those of a
    strict weak order: [lt] is asymmetric, and "not below" is transitive.
    Python's [<] on floats, and on tuples of floats, is such an order on any
    values other than NaN; [list.sort] promises its result only then. *)
Definition consistent {A : Type} (lt : A → A → bool) (l : list A) : bool :=
  forallb
    (λ x,
       forallb
         (λ y,
            implb (lt x y) (negb (lt y x))
            && forallb
                 (λ z, implb (negb (lt x y) && negb (lt y z)) (negb (lt x z)))
                 l)
         l)
    l.

(** [x] and [k] compare as equal: neither is below the other. *)
Definition tied {A : Type} (lt : A → A → bool) (k x : A) : bool :=
  negb (lt x k) && negb (lt k x).

End PySortOrder.

(** ** [find_similar_campaigns] on Python's floats and strings *)

Module CampaignSearch.
Import PrimInt63 PrimFloat.

(** A Python [float] is an IEEE 754 binary64 number, here the kernel's
    [float] with the same correctly rounded operations and comparisons; a
    decimal literal denotes the nearest double in both.  So the scores
    below are the numbers the code computes, rounding included:
    [0.4 + 0.2] is [0.6000000000000001]. *)

(** [float(n)] for a length [n]. *)
Fixpoint int_of_nat (n : nat) : int :=
  match n with
  | O => 0%uint63
  | S n' => PrimInt63.add (int_of_nat n') 1%uint63
  end.

Definition float_of_nat (n : nat) : float := of_uint63 (int_of_nat n).

(** [a / b] for two lengths: the true division of two ints, which for
    ints below 2^53 is the division of the two doubles. *)
Definition truediv (a b : nat) : float :=
  (float_of_nat a / float_of_nat b)%float.

Module CampaignTemplate.
Record t := mk {
  template_id : string;
  product_name : string;
  category : string;
  quality_score : float;
  created_at : string;
  session_id : string;
  target_audience : string;
  keywords : list string;
  listing_structure : string;
  social_strategy : string;
  success_metrics : string;
  tags : list string
}.
End CampaignTemplate.

(** [key=lambda x: (x[1], x[0].quality_score)] *)
Definition sort_key (x : CampaignTemplate.t * float) : float * float :=
  (x.2, CampaignTemplate.quality_score x.1).

(** Python's [<] on two pairs of floats: the first components that are
    not [==] decide, and equal pairs are not below each other. *)
Definition tuple_lt (a b : float * float) : bool :=
  if negb (a.1 =? b.1)%float then (a.1 <? b.1)%float
  else if negb (a.2 =? b.2)%float then (a.2 <? b.2)%float
  else false.

Definition rank_lt (x y : CampaignTemplate.t * float) : bool :=
  tuple_lt (sort_key x) (sort_key y).

(** The dictionary [get_learning_suggestions] returns, without its
    formatted ["message"]. *)
Record Suggestions := mkSuggestions {
  found_similar_campaign : bool;
  similarity_score : float;
  template_id : string;
  reference_product_name : string;
  reference_quality_score : float;
  reference_created_at : string;
  suggested_keywords : list string;
  suggested_listing_structure : string;
  suggested_social_strategy : string
}.

(** [min_quality_score=85.0], the threshold [get_learning_suggestions]
    and the examples below search with. *)
Definition min_quality_85 : float := 85%float.

(** [s += term] when the term applies. *)
Definition plus (s : float) (term : option float) : float :=
  match term with
  | Some x => (s + x)%float
  | None => s
  end.

Section runtime.
(** [str.lower] and [str.split] are the runtime's; the development holds
    for whatever functions they are. *)
Variable str_lower : string → string.
Variable str_split : string → list string.

(** [set(s.lower().split())] *)
Definition words (s : string) : gset string :=
  list_to_set (str_split (str_lower s)).

(** The body of the scoring loop for one template. *)
Definition similarity (category : option string)
    (keywords : option (list string)) (target_audience : option string)
    (template : CampaignTemplate.t) : float :=
  let similarity0 := 0%float in
  let similarity1 :=
    if truthy_str category
       && String.eqb (str_lower (CampaignTemplate.category template))
            (str_lower (default "" category))
    then (similarity0 + 0.4)%float else similarity0 in
  let similarity2 :=
    if Memory.truthy_list keywords
       && Memory.truthy_list (Some (CampaignTemplate.keywords template))
    then
      let kws := default [] keywords in
      let keyword_overlap :=
        Memory.keyword_overlap kws (CampaignTemplate.keywords template) in
      if (0 <? keyword_overlap)%nat then
        (similarity1
         + 0.4 * truediv keyword_overlap
                   (max (length kws)
                      (length (CampaignTemplate.keywords template))))%float
      else similarity1
    else similarity1 in
  if truthy_str target_audience
     && truthy_str (Some (CampaignTemplate.target_audience template))
  then
    let target_words := words (default "" target_audience) in
    let template_words := words (CampaignTemplate.target_audience template) in
    let word_overlap := size (target_words ∩ template_words) in
    if (0 <? word_overlap)%nat then
      (similarity2
       + 0.2 * truediv word_overlap
                 (max (size target_words) (size template_words)))%float
    else similarity2
  else similarity2.

(** The loop over [templates_index.values()], which builds [results]. *)
Fixpoint score_templates (category : option string)
    (keywords : option (list string)) (target_audience : option string)
    (min_quality_score : float) (templates : list CampaignTemplate.t)
    : list (CampaignTemplate.t * float) :=
  match templates with
  | [] => []
  | template :: rest =>
      let results :=
        score_templates category keywords target_audience min_quality_score rest in
      if (CampaignTemplate.quality_score template <? min_quality_score)%float
      then results
      else
        let sim := similarity category keywords target_audience template in
        if (0 <? sim)%float then (template, sim) :: results else results
  end.

(** [find_similar_campaigns], on [self.templates_index].
    [results.sort(key=..., reverse=True)] is the stable descending sort
    [PySort.sort_desc] whenever the comparisons among the keys are
    consistent ([PySortOrder.consistent]); Python promises no particular
    order otherwise. *)
Definition find_similar_campaigns
    (templates_index : OrderedDict.t CampaignTemplate.t)
    (category : option string) (keywords : option (list string))
    (target_audience : option string) (min_quality_score : float) (limit : Z)
    : list (CampaignTemplate.t * float) :=
  let results :=
    score_templates category keywords target_audience min_quality_score
      (OrderedDict.values templates_index) in
  slice_to limit (PySort.sort_desc rank_lt results).

(** [get_learning_suggestions]; the three arguments are
    [product_info.get('category')], [product_info.get('keywords', [])] and
    [product_info.get('target_audience')]. *)
Definition get_learning_suggestions
    (templates_index : OrderedDict.t CampaignTemplate.t)
    (category : option string) (keywords : list string)
    (target_audience : option string) : option Suggestions :=
  let similar_campaigns :=
    find_similar_campaigns templates_index category (Some keywords)
      target_audience min_quality_85 3 in
  match similar_campaigns with
  | [] => None
  | (best_template, similarity) :: _ =>
      Some (mkSuggestions true similarity
              (CampaignTemplate.template_id best_template)
              (CampaignTemplate.product_name best_template)
              (CampaignTemplate.quality_score best_template)
              (CampaignTemplate.created_at best_template)
              (slice_to 10 (CampaignTemplate.keywords best_template))
              (CampaignTemplate.listing_structure best_template)
              (CampaignTemplate.social_strategy best_template))
  end.

(** *** The result in the words of the specification *)

(** Category term as the claim states it: 0.4 when the template's
    category equals the query category, case-insensitively. *)
Definition category_term_stated (category : option string)
    (t : CampaignTemplate.t) : option float :=
  match category with
  | Some c =>
      if String.eqb (str_lower (CampaignTemplate.category t)) (str_lower c)
      then Some 0.4%float else None
  | None => None
  end.

(** Category term as amended: the query category must also be non-empty. *)
Definition category_term (category : option string)
    (t : CampaignTemplate.t) : option float :=
  match category with
  | Some c =>
      if negb (String.eqb c "")
         && String.eqb (str_lower (CampaignTemplate.category t)) (str_lower c)
      then Some 0.4%float else None
  | None => None
  end.

(** 0.4 × k / max of the two list lengths, for k > 0 distinct common
    keywords; an absent keyword list counts as empty. *)
Definition keyword_term (keywords : option (list string))
    (t : CampaignTemplate.t) : option float :=
  let k :=
    Memory.keyword_overlap (default [] keywords) (CampaignTemplate.keywords t) in
  if (0 <? k)%nat then
    Some (0.4 * truediv k
                  (max (length (default [] keywords))
                     (length (CampaignTemplate.keywords t))))%float
  else None.

(** 0.2 × w / max of the two numbers of distinct words, for w > 0 common
    words; an absent or empty audience, of the query or of the template,
    adds nothing. *)
Definition audience_term (target_audience : option string)
    (t : CampaignTemplate.t) : option float :=
  match target_audience with
  | Some ta =>
      if negb (String.eqb ta "")
         && negb (String.eqb (CampaignTemplate.target_audience t) "")
      then
        let a := words ta in
        let b := words (CampaignTemplate.target_audience t) in
        let w := size (a ∩ b) in
        if (0 <? w)%nat
        then Some (0.2 * truediv w (max (size a) (size b)))%float
        else None
      else None
  | None => None
  end.

(** The weighted sum, added up from 0.0 in the order category, keywords,
    audience. *)
Definition similarity_stated (category : option string)
    (keywords : option (list string)) (target_audience : option string)
    (t : CampaignTemplate.t) : float :=
  plus (plus (plus 0%float (category_term_stated category t))
          (keyword_term keywords t))
    (audience_term target_audience t).

Definition similarity_spec (category : option string)
    (keywords : option (list string)) (target_audience : option string)
    (t : CampaignTemplate.t) : float :=
  plus (plus (plus 0%float (category_term category t))
          (keyword_term keywords t))
    (audience_term target_audience t).

(** The stored templates that pass the quality filter with a positive
    similarity, each with its similarity, in the order of the index. *)
Definition qualifying (templates_index : OrderedDict.t CampaignTemplate.t)
    (category : option string) (keywords : option (list string))
    (target_audience : option string) (min_quality_score : float)
    : list (CampaignTemplate.t * float) :=
  (λ t, (t, similarity_spec category keywords target_audience t))
  <$> List.filter
        (λ t, negb (CampaignTemplate.quality_score t <? min_quality_score)%float
              && (0 <? similarity_spec category keywords target_audience t)%float)
        (OrderedDict.values templates_index).

(** The result of one call as the specification words it: every returned
    pair carries the stated weighted sum, and there are at most [limit]
    pairs. *)
Definition results_as_stated
    (templates_index : OrderedDict.t CampaignTemplate.t)
    (category : option string) (keywords : option (list string))
    (target_audience : option string) (min_quality_score : float) (limit : Z)
    : Prop :=
  let res := find_similar_campaigns templates_index category keywords
               target_audience min_quality_score limit in
  (∀ t s, (t, s) ∈ res →
          s = similarity_stated category keywords target_audience t)
  ∧ (Z.of_nat (length res) ≤ limit)%Z.

End runtime.

(** Stored templates used in the examples below. *)
Definition template_uncategorised : CampaignTemplate.t :=
  CampaignTemplate.mk "t0" "Mystery Box" "" 90
    "2024-05-02T10:00:00" "s2" "" ["gift"] "" "" "" [].

Definition template_partial : CampaignTemplate.t :=
  CampaignTemplate.mk "t1" "SmartHub Pro 360" "Smart Home" 95
    "2024-05-01T10:00:00" "s1" "tech gadget fans"
    ["smart hub"; "zigbee"; "matter"] "" "" "" [].

Definition template_audience : CampaignTemplate.t :=
  CampaignTemplate.mk "t2" "HomeSense Mini" "Smart Home" 90
    "2024-05-03T10:00:00" "s1" "tech savvy homeowners" [] "" "" "" [].

Definition index_of (ts : list CampaignTemplate.t)
    : OrderedDict.t CampaignTemplate.t :=
  fold_left (λ d t, OrderedDict.set (CampaignTemplate.template_id t) t d) ts [].

End CampaignSearch.

(** ** Queries of [StateTracker] *)

Module StateTrackerOps.
Import StateTracker.

(** [get_task_result] *)
Definition get_task_result (st : State) (task_id : string) : option string :=
  match OrderedDict.get task_id (tasks st) with
  | Some t => if bool_decide (status t = COMPLETED) then result t else None
  | None => None
  end.

(** [sum(1 for t in self.tasks.values() if t["status"] == s)] *)
Definition count_status (s : TaskStatus) (st : State) : nat :=
  length (List.filter (λ t, bool_decide (status t = s))
            (OrderedDict.values (tasks st))).

(** The numbers of [get_workflow_progress]. *)
Record Progress := mkProgress {
  total_tasks : nat;
  completed : nat;
  failed : nat;
  running : nat;
  pending : nat;
  completion_percentage : Q
}.

Definition get_workflow_progress (st : State) : Progress :=
  let total := length (tasks st) in
  let completed := count_status COMPLETED st in
  mkProgress total completed (count_status FAILED st) (count_status RUNNING st)
    (count_status PENDING st)
    (if (0 <? total)%nat
     then (inject_Z (Z.of_nat completed) / inject_Z (Z.of_nat total) * 100)%Q
     else 0%Q).

(** [has_critical_failure] *)
Definition has_critical_failure (st : State) : bool :=
  existsb (λ t, bool_decide (status t = FAILED) && (3 <=? retry_count t)%Z)
    (OrderedDict.values (tasks st)).

(** [get_next_executable_tasks] *)
Definition get_next_executable_tasks (st : State) (max_parallel : Z)
    : list string :=
  slice_to max_parallel (get_ready_tasks st).

(** How often [retry_task] is called on a task in a sequence of calls. *)
Definition retries_of (task_id : string) (ops : list op) : nat :=
  length (List.filter
            (λ o, match o with
                  | RetryTask t => bool_decide (t = task_id)
                  | _ => false
                  end) ops).

(** Trackers as the operations leave them: task ids are unique, exactly
    the registered tasks have a dependency list, only registered tasks
    were started, and every task carries its own id and one of the four
    statuses the operations assign. *)
Definition wf (st : State) : Prop :=
  NoDup (OrderedDict.keys (tasks st))
  ∧ (∀ k, k ∈ OrderedDict.keys (tasks st) ↔ is_Some (dependencies st !! k))
  ∧ (∀ k, k ∈ execution_order st → k ∈ OrderedDict.keys (tasks st))
  ∧ (∀ k x, (k, x) ∈ tasks st → id x = k ∧ status x ≠ SKIPPED).

End StateTrackerOps.

(** ** The background writer of [AsyncLogger] *)

Module LogWorker.
Import AsyncLogger.

Section writer.
(** [json.loads(event.to_json())]: what a written line decodes to. *)
Variable to_json : LogEvent.t → json.

(** [open(path, 'a')] followed by one [write]. *)
Definition append_line (files : Files) (path : string) (line : Line) : Files :=
  <[path := default [] (files !! path) ++ [line]]> files.

(** How the two writes of [_write_event] end. *)
Inductive write_outcome :=
| WriteOk
| MasterWriteFails
| AgentWriteFails.

(** [_write_event]: the files afterwards and whether it returned. *)
Definition write_event (outcome : write_outcome) (files : Files)
    (event : LogEvent.t) : Files * bool :=
  match outcome with
  | MasterWriteFails => (files, false)
  | _ =>
      let files1 := append_line files master_log_file (Decoded (to_json event)) in
      if truthy_str (LogEvent.agent_id event) then
        match outcome with
        | AgentWriteFails => (files1, false)
        | _ =>
            (append_line files1
               (agent_log_file (default "" (LogEvent.agent_id event)))
               (Decoded (to_json event)), true)
        end
      else (files1, true)
  end.

(** One turn of the loop of [_log_worker] that finds an event in the
    queue: the event is taken off, written, and counted if the write
    returned. *)
Definition worker_step (outcome : write_outcome) (sys : Logger * Files)
    : Logger * Files :=
  let '(st, files) := sys in
  match Queue.items (log_queue st) with
  | [] => sys
  | event :: rest =>
      let q := Queue.mk rest (Queue.maxsize (log_queue st)) in
      let '(files', ok) := write_event outcome files event in
      (mkLogger (session_id st) q
         (if ok then (events_logged st + 1)%Z else events_logged st)
         (events_dropped st),
       files')
  end.

(** The arguments of one [log] call. *)
Record LogCall := mkLogCall {
  lc_now : string;
  lc_fresh_id : string;
  lc_event_type : EventType;
  lc_level : LogLevel;
  lc_message : string;
  lc_agent_id : option string;
  lc_agent_name : option string;
  lc_data : option (list (string * string));
  lc_duration_ms : option Q;
  lc_parent_event_id : option string
}.

Definition log_call (st : Logger) (c : LogCall) : Logger :=
  (log st (lc_now c) (lc_fresh_id c) (lc_event_type c) (lc_level c)
     (lc_message c) (lc_agent_id c) (lc_agent_name c) (lc_data c)
     (lc_duration_ms c) (lc_parent_event_id c)).1.

(** The event [log] builds from its arguments. *)
Definition event_of (st : Logger) (c : LogCall) : LogEvent.t :=
  LogEvent.mk (lc_now c) (session_id st) (EventType_value (lc_event_type c))
    (LogLevel_value (lc_level c)) (lc_agent_id c) (lc_agent_name c)
    (lc_message c) (default [] (lc_data c)) (lc_duration_ms c)
    (lc_parent_event_id c) (lc_fresh_id c).

(** A producer call or a turn of the writer. *)
Inductive action :=
| Log (c : LogCall)
| Work (outcome : write_outcome).

Definition act (sys : Logger * Files) (a : action) : Logger * Files :=
  match a with
  | Log c => (log_call sys.1 c, sys.2)
  | Work outcome => worker_step outcome sys
  end.

(** [AsyncLogger(session_id, session_dir, buffer_size)] with an empty log
    directory. *)
Definition fresh (sid : string) (buffer_size : Z) : Logger * Files :=
  (mkLogger sid (Queue.mk [] buffer_size) 0 0, ∅).

(** The writer emptying the queue with every write succeeding, as
    [flush] waits for. *)
Definition drain (sys : Logger * Files) : Logger * Files :=
  fold_left (λ s _, worker_step WriteOk s) (Queue.items (log_queue sys.1)) sys.

(** The files after the writer has written the events [es] in turn,
    every write succeeding. *)
Definition written (files : Files) (es : list LogEvent.t) : Files :=
  fold_left (λ f e, (write_event WriteOk f e).1) es files.

(** A run of producer calls and writer turns. *)
Definition run (acts : list action) (sys : Logger * Files) : Logger * Files :=
  fold_left act acts sys.

End writer.

(** The [log] calls among a sequence of actions. *)
Definition log_calls (acts : list action) : list LogCall :=
  omap (λ a, match a with Log c => Some c | Work _ => None end) acts.

(** The lines of a log file; none when the file does not exist. *)
Definition lines_of (files : Files) (path : string) : list Line :=
  default [] (files !! path).

(** Whether a call names the agent [a]. *)
Definition by_agent (a : string) (c : LogCall) : bool :=
  bool_decide (lc_agent_id c = Some a).

End LogWorker.

(** ** Further operations of [SessionManager] *)

Module SessionOps.
Import SessionManager.

(** [create_session]; [session_id] is the value of [uuid.uuid4()]. *)
Definition create_session (st : State) (now : Time) (session_id : string)
    (product_name : option string) (workflow_type : string) : State * string :=
  let metadata :=
    SessionMetadata.mk session_id now "running" product_name workflow_type
      0 0 0 None None None in
  (mkState (OrderedDict.set session_id metadata (sessions_index st))
     (session_dirs st ∪ {[session_id]}) (retention_days st),
   session_id).

(** [get_session_metadata] *)
Definition get_session_metadata (st : State) (session_id : string)
    : option SessionMetadata.t :=
  OrderedDict.get session_id (sessions_index st).

(** [cleanup_session] *)
Definition cleanup_session (io_error : string → bool) (st : State) (now : Time)
    (session_id : string) : State * bool :=
  archive_session io_error now st session_id.

End SessionOps.

(** * Properties of the embedding *)

Module PySortFacts.
Import PySort.
Section sort_facts.
Context {A : Type} (lt : A → A → bool).

Lemma insert_desc_perm x l : insert_desc lt x l ≡ₚ x :: l.
Proof.
  induction l as [|y l IH]; simpl; [done|].
  destruct (lt x y); [|done].
  rewrite IH. apply Permutation_swap.
Qed.

Lemma sort_desc_perm l : sort_desc lt l ≡ₚ l.
Proof.
  induction l as [|x l IH]; simpl; [done|].
  rewrite insert_desc_perm. by rewrite IH.
Qed.

Hypothesis lt_asym : ∀ x y, lt x y = true → lt y x = false.
Hypothesis ge_trans : ∀ x y z, lt x y = false → lt y z = false → lt x z = false.

Lemma insert_desc_sorted x l :
  StronglySorted (ge lt) l → StronglySorted (ge lt) (insert_desc lt x l).
Proof.
  induction 1 as [|y l Hl IH Hy]; simpl.
  - repeat constructor.
  - destruct (lt x y) eqn:E.
    + constructor; [done|].
      rewrite insert_desc_perm. constructor; [|done].
      by apply lt_asym.
    + constructor; [by constructor|]. constructor; [done|].
      eapply Forall_impl; [exact Hy|]. intros z Hz.
      unfold ge in *. by eapply ge_trans.
Qed.

Lemma sort_desc_sorted l : StronglySorted (ge lt) (sort_desc lt l).
Proof.
  induction l as [|x l IH]; simpl; [constructor|].
  by apply insert_desc_sorted.
Qed.
End sort_facts.
End PySortFacts.

Module OrderedDictFacts.
Import OrderedDict.
Section ordered_dict_facts.
Context {V : Type}.
Implicit Types (d : OrderedDict.t V) (v : V) (k : string).

Lemma get_Some_elem_of k v d : get k d = Some v → (k, v) ∈ d.
Proof.
  induction d as [|[k' v'] d IH]; simpl; [done|].
  case_decide as Hk.
  - intros [= ->]. subst. left.
  - intros H. right. auto.
Qed.

Lemma get_None_keys k d : get k d = None ↔ k ∉ keys d.
Proof.
  induction d as [|[k' v'] d IH]; simpl.
  - split; [intros _; apply not_elem_of_nil | done].
  - case_decide as Hk.
    + split; [done|]. intros H. exfalso. apply H. subst. left.
    + rewrite IH. unfold keys. simpl. rewrite not_elem_of_cons. tauto.
Qed.

Lemma get_is_Some_keys k d : is_Some (get k d) ↔ k ∈ keys d.
Proof.
  destruct (get k d) eqn:E.
  - split; [intros _|eauto].
    apply get_Some_elem_of in E.
    unfold keys. apply list_elem_of_fmap. by exists (k, v).
  - apply get_None_keys in E. split; [intros [? ?]; done | done].
Qed.

Lemma contains_keys k d : contains k d = true ↔ k ∈ keys d.
Proof.
  unfold contains. rewrite <- get_is_Some_keys.
  destruct (get k d) as [v|].
  - split; eauto.
  - split; [done|]. by intros [? ?].
Qed.

Lemma keys_set_absent k v d : k ∉ keys d → set k v d = d ++ [(k, v)].
Proof.
  induction d as [|[k' v'] d IH]; simpl; [done|].
  rewrite not_elem_of_cons. intros [Hne Hd].
  case_decide; [done|]. by rewrite IH.
Qed.

Lemma keys_set_present k v d : k ∈ keys d → keys (set k v d) = keys d.
Proof.
  unfold keys. induction d as [|[k' v'] d IH]; simpl.
  - intros H. by apply elem_of_nil in H.
  - rewrite elem_of_cons. case_decide as Hk; [by subst|].
    intros [?|Hd]; [done|]. simpl. f_equal. by apply IH.
Qed.

Lemma get_set_eq k v d : get k (set k v d) = Some v.
Proof.
  induction d as [|[k' v'] d IH]; simpl.
  - by case_decide.
  - case_decide as Hk; simpl; by case_decide.
Qed.

Lemma get_set_ne k k' v d : k ≠ k' → get k' (set k v d) = get k' d.
Proof.
  intros Hne. induction d as [|[k0 v0] d IH]; simpl.
  - case_decide; [by subst|done].
  - case_decide as Hk; simpl.
    + subst k0. case_decide; [by subst|done].
    + case_decide; [done|apply IH].
Qed.

Lemma keys_remove_subseteq k d : keys (remove k d) ⊆ keys d.
Proof.
  induction d as [|[k' v'] d IH]; simpl; [done|].
  case_decide.
  - unfold keys. simpl. set_solver.
  - unfold keys in *. simpl. set_solver.
Qed.

Lemma NoDup_keys_remove k d : NoDup (keys d) → NoDup (keys (remove k d)).
Proof.
  induction d as [|[k' v'] d IH]; simpl; [done|].
  unfold keys in *. simpl. rewrite NoDup_cons. intros [Hk' Hd].
  case_decide; [done|]. simpl. apply NoDup_cons. split; [|auto].
  intros Hin. apply Hk'. by apply (keys_remove_subseteq k d).
Qed.

Lemma not_elem_of_keys_remove k d : NoDup (keys d) → k ∉ keys (remove k d).
Proof.
  induction d as [|[k' v'] d IH]; simpl.
  - intros _. apply not_elem_of_nil.
  - unfold keys in *. simpl. rewrite NoDup_cons. intros [Hk' Hd].
    case_decide as Hk; [by subst|].
    simpl. rewrite not_elem_of_cons. auto.
Qed.

Lemma elem_of_keys_remove_ne k k' d :
  k ≠ k' → k' ∈ keys d → k' ∈ keys (remove k d).
Proof.
  intros Hne. induction d as [|[k0 v0] d IH]; simpl; [done|].
  unfold keys in *. simpl. rewrite elem_of_cons.
  case_decide as Hk.
  - intros [?|?]; [congruence|done].
  - simpl. rewrite elem_of_cons. naive_solver.
Qed.

Lemma length_remove k d : k ∈ keys d → S (length (remove k d)) = length d.
Proof.
  induction d as [|[k' v'] d IH]; simpl.
  - intros H. by apply elem_of_nil in H.
  - unfold keys in *. simpl. rewrite elem_of_cons.
    case_decide as Hk; [done|].
    intros [?|Hd]; [done|]. simpl. f_equal. by apply IH.
Qed.

Lemma keys_move_to_end k d :
  k ∈ keys d → keys (move_to_end k d) = keys (remove k d) ++ [k].
Proof.
  intros Hk. unfold move_to_end.
  apply get_is_Some_keys in Hk as [v ->].
  unfold keys. by rewrite fmap_app.
Qed.

Lemma NoDup_keys_move_to_end k d :
  NoDup (keys d) → NoDup (keys (move_to_end k d)).
Proof.
  intros Hnd. unfold move_to_end. destruct (get k d) eqn:E; [|done].
  unfold keys. rewrite fmap_app. simpl. apply NoDup_app. split_and!.
  - by apply NoDup_keys_remove.
  - intros x Hx Hx'. apply list_elem_of_singleton in Hx'. subst x.
    by apply (not_elem_of_keys_remove k d).
  - apply NoDup_singleton.
Qed.

Lemma length_move_to_end k d : length (move_to_end k d) = length d.
Proof.
  unfold move_to_end. destruct (get k d) eqn:E; [|done].
  rewrite length_app. simpl.
  assert (k ∈ keys d) as Hk by (apply get_is_Some_keys; eauto).
  apply length_remove in Hk. lia.
Qed.

Lemma NoDup_keys_set k v d : NoDup (keys d) → NoDup (keys (set k v d)).
Proof.
  intros Hnd. destruct (decide (k ∈ keys d)) as [Hin|Hout].
  - by rewrite keys_set_present.
  - rewrite keys_set_absent by done. unfold keys. rewrite fmap_app.
    simpl. apply NoDup_app. split_and!; [done| |apply NoDup_singleton].
    intros x Hx Hx'. apply list_elem_of_singleton in Hx'. by subst.
Qed.

Lemma length_set k v d :
  length (set k v d) = if contains k d then length d else S (length d).
Proof.
  destruct (contains k d) eqn:E.
  - apply contains_keys in E.
    rewrite <- (length_fmap fst (set k v d)), <- (length_fmap fst d).
    fold (keys (set k v d)). by rewrite keys_set_present.
  - assert (k ∉ keys d) as Hk.
    { intros Hk. apply contains_keys in Hk. congruence. }
    rewrite keys_set_absent by done. rewrite length_app. simpl. lia.
Qed.

Lemma get_remove_ne k k' d : k ≠ k' → get k' (remove k d) = get k' d.
Proof.
  intros Hne. induction d as [|[k0 v0] d IH]; simpl; [done|].
  case_decide as Hk; simpl.
  - subst k0. case_decide; [by subst|done].
  - case_decide; [done|apply IH].
Qed.

Lemma get_app_l k d d' :
  get k (d ++ d') = match get k d with Some v => Some v | None => get k d' end.
Proof.
  induction d as [|[k0 v0] d IH]; simpl; [done|]. by case_decide.
Qed.

Lemma get_move_to_end k k' d :
  NoDup (keys d) → get k' (move_to_end k d) = get k' d.
Proof.
  intros Hnd. unfold move_to_end. destruct (get k d) eqn:E; [|done].
  rewrite get_app_l. destruct (decide (k = k')) as [<-|Hne].
  - assert (get k (remove k d) = None) as ->.
    { apply get_None_keys. by apply not_elem_of_keys_remove. }
    simpl. by case_decide.
  - rewrite get_remove_ne by done. destruct (get k' d); [done|].
    simpl. case_decide; [by subst|done].
Qed.

Lemma Forall_values_set (P : V → Prop) k v d :
  P v → Forall P (values d) → Forall P (values (set k v d)).
Proof.
  intros Hv. unfold values. induction d as [|[k' v'] d IH]; simpl.
  - intros _. by apply Forall_cons.
  - rewrite Forall_cons. intros [Hv' Hd]. case_decide; simpl.
    + by apply Forall_cons.
    + apply Forall_cons. split; [done|]. by apply IH.
Qed.

End ordered_dict_facts.
End OrderedDictFacts.

Module LRUFacts.
Import LRU.
Section lru_facts.
Context {V : Type}.
Implicit Types (c : LRUCache V) (k : string) (v : V).
Implicit Types (d : OrderedDict.t V) (kvs : list (string * V)).

Lemma capacity_get c k : capacity (get c k).1 = capacity c.
Proof. unfold get. by destruct (OrderedDict.contains k (cache c)). Qed.

Lemma capacity_put c k v : capacity (put c k v) = capacity c.
Proof. unfold put. by case_match. Qed.

Lemma capacity_step c o : capacity (step c o) = capacity c.
Proof. destruct o; [apply capacity_put | apply capacity_get]. Qed.

Lemma wf_get c k : wf c → wf (get c k).1.
Proof.
  intros [Hnd Hlen]. unfold get.
  destruct (OrderedDict.contains k (cache c)); simpl; [|done].
  split; simpl.
  - by apply OrderedDictFacts.NoDup_keys_move_to_end.
  - by rewrite OrderedDictFacts.length_move_to_end.
Qed.

Lemma NoDup_keys_tail (d : OrderedDict.t V) :
  NoDup (OrderedDict.keys d) → NoDup (OrderedDict.keys (tail d)).
Proof.
  destruct d as [|[k v] d]; simpl; [done|].
  unfold OrderedDict.keys. simpl. rewrite NoDup_cons. tauto.
Qed.

Lemma wf_put c k v : (0 ≤ capacity c)%Z → wf c → wf (put c k v).
Proof.
  intros Hcap [Hnd Hlen]. unfold put.
  set (cache1 := if OrderedDict.contains k (cache c)
                 then OrderedDict.move_to_end k (cache c) else cache c).
  assert (NoDup (OrderedDict.keys cache1) ∧ length cache1 = length (cache c))
    as [Hnd1 Hlen1].
  { subst cache1. destruct (OrderedDict.contains k (cache c)); [|done].
    split; [by apply OrderedDictFacts.NoDup_keys_move_to_end|].
    apply OrderedDictFacts.length_move_to_end. }
  pose proof (OrderedDictFacts.length_set k v cache1) as Hset.
  pose proof (OrderedDictFacts.NoDup_keys_set k v cache1 Hnd1) as Hnd2.
  destruct (Z.gtb_spec (Z.of_nat (length (OrderedDict.set k v cache1)))
              (capacity c)) as [Hgt|Hle]; split; simpl; try done.
  - by apply NoDup_keys_tail.
  - unfold OrderedDict.popitem_first.
    destruct (OrderedDict.set k v cache1) as [|p d'] eqn:E; simpl in *; [lia|].
    destruct (OrderedDict.contains k cache1); lia.
Qed.

Lemma wf_step c o : (0 ≤ capacity c)%Z → wf c → wf (step c o).
Proof. destruct o; simpl; [apply wf_put | intros _; apply wf_get]. Qed.

Lemma wf_run ops c : (0 ≤ capacity c)%Z → wf c → wf (run ops c).
Proof.
  revert c. induction ops as [|o ops IH]; intros c Hcap Hwf; simpl; [done|].
  apply IH; [by rewrite capacity_step | by apply wf_step].
Qed.

Lemma capacity_run ops c : capacity (run ops c) = capacity c.
Proof.
  revert c. induction ops as [|o ops IH]; intros c; simpl; [done|].
  by rewrite IH, capacity_step.
Qed.

Lemma put_fresh_room c k v :
  k ∉ OrderedDict.keys (cache c) →
  (Z.of_nat (length (cache c)) < capacity c)%Z →
  put c k v = mkLRU (cache c ++ [(k, v)]) (capacity c).
Proof.
  intros Hk Hlen. unfold put.
  assert (OrderedDict.contains k (cache c) = false) as ->.
  { apply not_true_is_false. by rewrite OrderedDictFacts.contains_keys. }
  rewrite OrderedDictFacts.keys_set_absent by done.
  rewrite length_app. simpl.
  destruct (Z.gtb_spec (Z.of_nat (length (cache c) + 1)) (capacity c)); [lia|done].
Qed.

Lemma put_fresh_full c k v :
  k ∉ OrderedDict.keys (cache c) →
  Z.of_nat (length (cache c)) = capacity c →
  put c k v = mkLRU (tail (cache c ++ [(k, v)])) (capacity c).
Proof.
  intros Hk Hlen. unfold put.
  assert (OrderedDict.contains k (cache c) = false) as ->.
  { apply not_true_is_false. by rewrite OrderedDictFacts.contains_keys. }
  rewrite OrderedDictFacts.keys_set_absent by done.
  rewrite length_app. simpl.
  destruct (Z.gtb_spec (Z.of_nat (length (cache c) + 1)) (capacity c)); [done|lia].
Qed.

(** Filling an empty cache with distinct keys, up to its capacity, keeps
    every pair in insertion order. *)
Lemma put_all_fill kvs d cap :
  NoDup (OrderedDict.keys (d ++ kvs)) →
  (Z.of_nat (length (d ++ kvs)) ≤ cap)%Z →
  put_all kvs (mkLRU d cap) = mkLRU (d ++ kvs) cap.
Proof.
  revert d. induction kvs as [|[k v] kvs IH]; intros d Hnd Hlen; simpl.
  - by rewrite app_nil_r.
  - replace (d ++ (k, v) :: kvs) with ((d ++ [(k, v)]) ++ kvs) in *
      by (by rewrite <- app_assoc).
    rewrite put_fresh_room; simpl.
    + by apply IH.
    + unfold OrderedDict.keys in Hnd. rewrite !fmap_app in Hnd.
      apply NoDup_app in Hnd as [Hnd _]. apply NoDup_app in Hnd as (_ & Hd & _).
      intros Hin. apply (Hd k Hin). simpl. left.
    + rewrite !length_app in Hlen. simpl in Hlen. lia.
Qed.

Lemma put_preserves_key c k k' v' :
  wf c → k ∈ OrderedDict.keys (cache c) →
  (Z.of_nat (length (cache c)) < capacity c)%Z
    ∨ k ∈ OrderedDict.keys (tail (cache c)) →
  k ∈ OrderedDict.keys (cache (put c k' v')).
Proof.
  intros [Hnd Hlen] Hk Hroom. unfold put.
  destruct (OrderedDict.contains k' (cache c)) eqn:Hc.
  - apply OrderedDictFacts.contains_keys in Hc.
    assert (k ∈ OrderedDict.keys
              (OrderedDict.set k' v' (OrderedDict.move_to_end k' (cache c))))
      as Hin.
    { rewrite OrderedDictFacts.keys_set_present;
        rewrite OrderedDictFacts.keys_move_to_end by done.
      - apply elem_of_app. destruct (decide (k' = k)) as [->|Hne].
        + right. left.
        + left. by apply OrderedDictFacts.elem_of_keys_remove_ne.
      - apply elem_of_app. right. left. }
    assert (length (OrderedDict.set k' v' (OrderedDict.move_to_end k' (cache c)))
            = length (cache c)) as Hl.
    { rewrite OrderedDictFacts.length_set.
      assert (OrderedDict.contains k' (OrderedDict.move_to_end k' (cache c)) = true)
        as ->.
      { apply OrderedDictFacts.contains_keys.
        rewrite OrderedDictFacts.keys_move_to_end by done.
        apply elem_of_app. right. left. }
      apply OrderedDictFacts.length_move_to_end. }
    rewrite Hl.
    destruct (Z.gtb_spec (Z.of_nat (length (cache c))) (capacity c)); [lia|done].
  - assert (k' ∉ OrderedDict.keys (cache c)) as Hk'.
    { intros Hin. apply OrderedDictFacts.contains_keys in Hin. congruence. }
    rewrite OrderedDictFacts.keys_set_absent by done. rewrite length_app. simpl.
    destruct (Z.gtb_spec (Z.of_nat (length (cache c) + 1)) (capacity c))
      as [Hgt|Hle]; simpl.
    + destruct Hroom as [Hlt|Htl]; [lia|].
      destruct (cache c) as [|p rest]; simpl in *; [by apply elem_of_nil in Htl|].
      unfold OrderedDict.keys in *. rewrite fmap_app. apply elem_of_app. by left.
    + unfold OrderedDict.keys in *. rewrite fmap_app. apply elem_of_app. by left.
Qed.

Lemma get_hit c k v :
  wf c → OrderedDict.get k (cache c) = Some v →
  (get c k).2 = Some v
  ∧ last (OrderedDict.keys (cache (get c k).1)) = Some k
  ∧ ∀ k', OrderedDict.get k' (cache (get c k).1) = OrderedDict.get k' (cache c).
Proof.
  intros [Hnd _] Hget. unfold get.
  assert (k ∈ OrderedDict.keys (cache c)) as Hk
    by (apply OrderedDictFacts.get_is_Some_keys; eauto).
  assert (OrderedDict.contains k (cache c) = true) as ->
    by (by apply OrderedDictFacts.contains_keys).
  simpl. split_and!.
  - by rewrite OrderedDictFacts.get_move_to_end.
  - rewrite OrderedDictFacts.keys_move_to_end by done. apply last_snoc.
  - intros k'. by apply OrderedDictFacts.get_move_to_end.
Qed.

Lemma read_key_survives cap :
  (2 ≤ cap)%Z → survives_next_put (V := V) cap.
Proof.
  intros Hcap c k k' v' Hwf Hc Hk.
  pose proof (wf_get c k Hwf) as Hwf1.
  destruct Hwf as [Hnd Hlen].
  assert (cache (get c k).1 = OrderedDict.move_to_end k (cache c)
          ∧ capacity (get c k).1 = capacity c) as [Hc1 Hcap1].
  { unfold get.
    assert (OrderedDict.contains k (cache c) = true) as ->
      by (by apply OrderedDictFacts.contains_keys).
    done. }
  apply put_preserves_key; [done| |].
  - rewrite Hc1, OrderedDictFacts.keys_move_to_end by done.
    apply elem_of_app. right. left.
  - rewrite Hc1, Hcap1, OrderedDictFacts.length_move_to_end.
    destruct (decide (Z.of_nat (length (cache c)) < capacity c)%Z) as [?|Hfull];
      [by left|right].
    unfold OrderedDict.move_to_end.
    apply OrderedDictFacts.get_is_Some_keys in Hk as Hv. destruct Hv as [v ->].
    pose proof (OrderedDictFacts.length_remove k (cache c) Hk) as Hrem.
    destruct (OrderedDict.remove k (cache c)) as [|p rest]; simpl in *; [lia|].
    unfold OrderedDict.keys. rewrite fmap_app. apply elem_of_app. right. left.
Qed.

Lemma put_all_overflow_by_one cap (kvs : list (string * V)) :
  (0 ≤ cap)%Z → NoDup kvs.*1 → Z.of_nat (length kvs) = (cap + 1)%Z →
  cache (put_all kvs (init cap)) = tail kvs.
Proof.
  intros Hcap Hnd Hlen.
  destruct kvs as [|[k v] kvs' _] using rev_ind; [simpl in Hlen; lia|].
  rewrite length_app in Hlen. simpl in Hlen.
  unfold put_all. rewrite fold_left_app. simpl.
  fold (put_all kvs' (init cap)). unfold init.
  rewrite fmap_app in Hnd. apply NoDup_app in Hnd as (Hnd1 & Hdisj & _).
  rewrite (put_all_fill kvs' [] cap); simpl; [|done|lia].
  rewrite put_fresh_full; simpl; [done| |lia].
  intros Hin. apply (Hdisj k Hin). simpl. left.
Qed.
End lru_facts.
End LRUFacts.

Module StateTrackerFacts.
Import StateTracker.

Lemma can_execute_task_spec st t :
  can_execute_task st t = true ↔
  t ∈ OrderedDict.keys (tasks st)
  ∧ ∀ d, d ∈ deps_of st t →
         ∃ task, OrderedDict.get d (tasks st) = Some task ∧ status task = COMPLETED.
Proof.
  unfold can_execute_task.
  destruct (OrderedDict.contains t (tasks st)) eqn:Hc; simpl.
  - apply OrderedDictFacts.contains_keys in Hc.
    rewrite forallb_forall. split.
    + intros H. split; [done|]. intros d Hd.
      apply list_elem_of_In in Hd. specialize (H d Hd).
      unfold dep_completed in H.
      destruct (OrderedDict.get d (tasks st)) as [task|]; [|done].
      apply bool_decide_eq_true in H. eauto.
    + intros [_ H] d Hd. apply list_elem_of_In in Hd.
      destruct (H d Hd) as (task & Hg & Hs). unfold dep_completed.
      rewrite Hg. by apply bool_decide_eq_true.
  - split; [done|]. intros [Hin _].
    apply OrderedDictFacts.contains_keys in Hin. congruence.
Qed.

Lemma start_task_registered st now t :
  t ∈ OrderedDict.keys (tasks st) →
  get_task_status (start_task st now t) t = Some RUNNING.
Proof.
  intros Hin. unfold start_task, get_task_status.
  apply OrderedDictFacts.contains_keys in Hin as Hc. rewrite Hc.
  apply OrderedDictFacts.get_is_Some_keys in Hin as [task Ht].
  unfold update_task at 2. rewrite Ht.
  unfold update_task. simpl. rewrite OrderedDictFacts.get_set_eq. simpl.
  by rewrite OrderedDictFacts.get_set_eq.
Qed.

Lemma start_task_unregistered st now t :
  t ∉ OrderedDict.keys (tasks st) → start_task st now t = st.
Proof.
  intros Hout. unfold start_task.
  assert (OrderedDict.contains t (tasks st) = false) as ->; [|done].
  apply not_true_is_false. by rewrite OrderedDictFacts.contains_keys.
Qed.

Lemma get_ready_tasks_spec st t :
  NoDup (OrderedDict.keys (tasks st)) →
  t ∈ get_ready_tasks st ↔
  get_task_status st t = Some PENDING ∧ can_execute_task st t = true.
Proof.
  intros Hnd. unfold get_ready_tasks, get_task_status.
  rewrite list_elem_of_fmap. split.
  - intros ([k task] & -> & Hin). apply list_elem_of_In in Hin.
    apply filter_In in Hin as [Hin Hb]. simpl in *.
    apply andb_true_iff in Hb as [Hs Hc]. apply bool_decide_eq_true in Hs.
    split; [|done].
    assert (OrderedDict.get k (tasks st) = Some task) as ->; [|simpl; by rewrite Hs].
    clear Hc Hs. induction (tasks st) as [|[k' t'] d IH]; simpl in *; [done|].
    unfold OrderedDict.keys in Hnd. simpl in Hnd.
    apply NoDup_cons in Hnd as [Hk' Hnd].
    destruct Hin as [[= -> ->]|Hin]; case_decide as Hk; try done.
    + subst k'. exfalso. apply Hk'. apply list_elem_of_fmap.
      exists (k, task). split; [done|]. by apply list_elem_of_In.
    + by apply IH.
  - intros [Hs Hc].
    destruct (OrderedDict.get t (tasks st)) as [task|] eqn:Hg; [|done].
    simpl in Hs. injection Hs as Hs.
    exists (t, task). split; [done|]. apply list_elem_of_In, filter_In.
    split; [by apply list_elem_of_In, OrderedDictFacts.get_Some_elem_of|].
    simpl. rewrite Hc, andb_true_r. by apply bool_decide_eq_true.
Qed.

Lemma NoDup_keys_update_task t f st :
  NoDup (OrderedDict.keys (tasks st)) →
  NoDup (OrderedDict.keys (tasks (update_task t f st))).
Proof.
  intros Hnd. unfold update_task.
  destruct (OrderedDict.get t (tasks st)); [|done].
  by apply OrderedDictFacts.NoDup_keys_set.
Qed.

Lemma NoDup_keys_step st o :
  NoDup (OrderedDict.keys (tasks st)) →
  NoDup (OrderedDict.keys (tasks (step st o))).
Proof.
  intros Hnd.
  destruct o; simpl;
    unfold register_task, start_task, complete_task, fail_task, retry_task;
    try destruct (OrderedDict.contains _ _); simpl;
    auto using OrderedDictFacts.NoDup_keys_set, NoDup_keys_update_task.
Qed.

Lemma NoDup_keys_run ops : NoDup (OrderedDict.keys (tasks (run ops))).
Proof.
  unfold run.
  assert (NoDup (OrderedDict.keys (tasks init))) as Hinit by apply NoDup_nil_2.
  revert Hinit. generalize init.
  induction ops as [|o ops IH]; intros st Hst; simpl; [done|].
  apply IH. by apply NoDup_keys_step.
Qed.

End StateTrackerFacts.

Module MemoryFacts.
Import Memory.

Lemma Qlt_bool_iff (x y : Q) : Qlt_bool x y = true ↔ (x < y)%Q.
Proof.
  unfold Qlt_bool. rewrite negb_true_iff. split.
  - intros H. apply Qnot_le_lt. intros Hle.
    apply Qle_bool_iff in Hle. congruence.
  - intros H. apply not_true_is_false. intros Hle.
    apply Qle_bool_iff in Hle. by apply Qlt_not_le in H.
Qed.

Lemma key_lt_spec (a b : Q * Q) :
  key_lt a b = true ↔ (a.1 < b.1 ∨ (a.1 == b.1 ∧ a.2 < b.2))%Q.
Proof.
  unfold key_lt. destruct (Qcompare_spec a.1 b.1) as [He|Hl|Hg].
  - rewrite Qlt_bool_iff. split; [by right|]. intros [Hl|[_ ?]]; [lra|done].
  - split; [by left|done].
  - split; [done|]. intros [Hl|[He _]]; lra.
Qed.

Lemma key_lt_false (a b : Q * Q) :
  key_lt a b = false ↔ (b.1 < a.1 ∨ (b.1 == a.1 ∧ b.2 <= a.2))%Q.
Proof.
  rewrite <- not_true_iff_false, key_lt_spec. split.
  - intros Hn. destruct (Q_dec a.1 b.1) as [[Hl|Hg]|He].
    + exfalso. apply Hn. by left.
    + by left.
    + right. split; [lra|].
      apply Qnot_lt_le. intros Hl. apply Hn. by right.
  - intros [Hg|[He Hle]] [Hl|[He' Hl]]; lra.
Qed.

Lemma key_lt_asym a b : key_lt a b = true → key_lt b a = false.
Proof.
  rewrite key_lt_spec, key_lt_false.
  intros [Hl|[He Hl]]; [by left|right]. split; lra.
Qed.

Lemma key_ge_trans a b c :
  key_lt a b = false → key_lt b c = false → key_lt a c = false.
Proof.
  rewrite !key_lt_false.
  intros [H1|[E1 L1]] [H2|[E2 L2]].
  - left. lra.
  - left. lra.
  - left. lra.
  - right. split; lra.
Qed.

Lemma slice_to_prefix {A} (n : Z) (l : list A) :
  ∃ rest, l = slice_to n l ++ rest.
Proof.
  unfold slice_to. destruct (0 <=? n)%Z.
  - exists (drop (Z.to_nat n) l). by rewrite take_drop.
  - exists (drop (length l - Z.to_nat (- n)) l). by rewrite take_drop.
Qed.

Lemma slice_to_length {A} (n : Z) (l : list A) :
  (0 ≤ n)%Z → length (slice_to n l) = Z.to_nat n `min` length l.
Proof.
  intros Hn. unfold slice_to.
  destruct (Z.leb_spec 0 n); [|lia]. apply length_take.
Qed.

Lemma ratio_zero d : (ratio 0 d == 0)%Q.
Proof. unfold ratio. simpl. unfold Qdiv. ring. Qed.

Lemma keyword_overlap_nil_l b : keyword_overlap [] b = 0.
Proof.
  unfold keyword_overlap. simpl.
  rewrite (left_absorb_L ∅ (∩)). apply size_empty.
Qed.

Lemma keyword_overlap_nil_r a : keyword_overlap a [] = 0.
Proof.
  unfold keyword_overlap. simpl.
  rewrite (right_absorb_L ∅ (∩)). apply size_empty.
Qed.

Lemma words_empty : words "" = ∅.
Proof. reflexivity. Qed.

Lemma eqb_empty_true s : String.eqb s "" = true → s = "".
Proof. by intros H%String.eqb_eq. Qed.

Lemma truthy_list_false {A} (o : option (list A)) :
  truthy_list o = false → default [] o = [].
Proof. by destruct o as [[|]|]. Qed.

Lemma truthy_str_false o : truthy_str o = false → default "" o = "".
Proof.
  destruct o as [s|]; simpl; [|done].
  rewrite negb_false_iff. apply eqb_empty_true.
Qed.

Lemma category_points category t :
  ((if truthy_str category
       && String.eqb (PyStr.lower (CampaignTemplate.category t))
            (PyStr.lower (default "" category))
    then 0 + 0.4 else 0) == category_term category t)%Q.
Proof.
  unfold category_term. destruct category as [c|]; simpl; [|done].
  by destruct (negb (String.eqb c "")
               && String.eqb (PyStr.lower (CampaignTemplate.category t))
                    (PyStr.lower c)).
Qed.

Lemma keyword_points s keywords t :
  ((if truthy_list keywords && truthy_list (Some (CampaignTemplate.keywords t))
    then
      if (0 <? keyword_overlap (default [] keywords) (CampaignTemplate.keywords t))%nat
      then s + 0.4 * ratio
                 (keyword_overlap (default [] keywords) (CampaignTemplate.keywords t))
                 (max (length (default [] keywords))
                    (length (CampaignTemplate.keywords t)))
      else s
    else s) == s + keyword_term keywords t)%Q.
Proof.
  unfold keyword_term.
  destruct (truthy_list keywords) eqn:Hk; simpl.
  - destruct (CampaignTemplate.keywords t) as [|kw kws] eqn:Ht; simpl.
    + rewrite keyword_overlap_nil_r, ratio_zero. ring.
    + destruct (Nat.ltb_spec 0
                  (keyword_overlap (default [] keywords) (kw :: kws))) as [|Hz];
        [done|].
      assert (keyword_overlap (default [] keywords) (kw :: kws) = 0) as -> by lia.
      rewrite ratio_zero. ring.
  - rewrite (truthy_list_false _ Hk), keyword_overlap_nil_l, ratio_zero. ring.
Qed.

Lemma audience_points s target_audience t :
  ((if truthy_str target_audience
       && truthy_str (Some (CampaignTemplate.target_audience t))
    then
      if (0 <? size (words (default "" target_audience)
                     ∩ words (CampaignTemplate.target_audience t)))%nat
      then s + 0.2 * ratio
                 (size (words (default "" target_audience)
                        ∩ words (CampaignTemplate.target_audience t)))
                 (max (size (words (default "" target_audience)))
                    (size (words (CampaignTemplate.target_audience t))))
      else s
    else s) == s + audience_term target_audience t)%Q.
Proof.
  unfold audience_term.
  destruct (truthy_str target_audience) eqn:Ha; simpl.
  - destruct (negb (String.eqb (CampaignTemplate.target_audience t) "")) eqn:Ht.
    + destruct (Nat.ltb_spec 0
                  (size (words (default "" target_audience)
                         ∩ words (CampaignTemplate.target_audience t)))) as [|Hz];
        [done|].
      assert (size (words (default "" target_audience)
                    ∩ words (CampaignTemplate.target_audience t)) = 0) as -> by lia.
      rewrite ratio_zero. ring.
    + apply negb_false_iff, eqb_empty_true in Ht. rewrite Ht, words_empty.
      rewrite (right_absorb_L ∅ (∩)), size_empty, ratio_zero. ring.
  - rewrite (truthy_str_false _ Ha), words_empty.
    rewrite (left_absorb_L ∅ (∩)), size_empty, ratio_zero. ring.
Qed.

(** The scoring loop computes the specified weighted sum. *)
Lemma similarity_meets_spec category keywords target_audience t :
  (similarity category keywords target_audience t
   == similarity_spec category keywords target_audience t)%Q.
Proof.
  unfold similarity, similarity_spec.
  rewrite audience_points, keyword_points, category_points. reflexivity.
Qed.

Lemma score_templates_spec category keywords target_audience minq ts t s :
  (t, s) ∈ score_templates category keywords target_audience minq ts ↔
  t ∈ ts ∧ ¬ (CampaignTemplate.quality_score t < minq)%Q
  ∧ s = similarity category keywords target_audience t ∧ (0 < s)%Q.
Proof.
  induction ts as [|t0 ts IH]; simpl.
  - split; [by intros ?%elem_of_nil | by intros [?%elem_of_nil _]].
  - destruct (Qlt_bool (CampaignTemplate.quality_score t0) minq) eqn:Hq.
    + apply Qlt_bool_iff in Hq. rewrite IH, elem_of_cons.
      split; [naive_solver|]. intros ([->|Hin] & Hn & Hs & Hp); [done|done].
    + assert (¬ (CampaignTemplate.quality_score t0 < minq)%Q) as Hnq.
      { intros H%Qlt_bool_iff. congruence. }
      destruct (Qlt_bool 0 (similarity category keywords target_audience t0))
        eqn:Hs0.
      * apply Qlt_bool_iff in Hs0. rewrite !elem_of_cons, IH.
        split.
        -- intros [[= -> ->]|(? & ? & ? & ?)]; [by auto|by auto].
        -- intros ([->|Hin] & Hn & -> & Hp); [by left|by right].
      * rewrite IH, elem_of_cons. split; [naive_solver|].
        intros ([->|Hin] & Hn & -> & Hp); [|done].
        apply Qlt_bool_iff in Hp. congruence.
Qed.

End MemoryFacts.

Module AsyncLoggerFacts.
Import AsyncLogger.

Lemma cut_from_start limit found : cut_from limit 0 found = cut limit found.
Proof.
  unfold cut_from, cut. destruct limit as [n|]; simpl; [|done].
  destruct (Z.eqb_spec n 0) as [->|Hn]; simpl; [done|].
  destruct (Z.ltb_spec 0 n).
  - f_equal. lia.
  - replace (Z.max 1 (n - Z.of_nat 0)) with 1%Z by lia. done.
Qed.

Lemma filtered_out_object flt fields field :
  filtered_out flt (JObject fields) field
  = Ok (truthy_str flt && negb (field_is (JObject fields) field (default "" flt))).
Proof.
  unfold filtered_out, field_differs, field_is.
  destruct (truthy_str flt); simpl; [|done].
  by destruct (OrderedDict.get field fields) as [[| | |s| |]|].
Qed.

Lemma read_lines_spec event_type level limit lines events :
  readable event_type level lines →
  read_lines event_type level limit events lines
  = Ok (events ++ cut_from limit (length events)
                    (List.filter (matches event_type level) (decoded lines))).
Proof.
  revert events. induction lines as [|[|event] lines IH]; intros events Hr.
  - simpl. unfold cut_from. destruct (truthy_int limit); simpl;
      by rewrite ?take_nil, app_nil_r.
  - simpl. apply IH, Hr.
  - assert (readable event_type level lines) as Hr'.
    { intros Hf. specialize (Hr Hf). simpl in Hr. by apply Forall_inv_tail in Hr. }
    assert (∀ rest, cut_from limit (length events) (event :: rest)
              = if truthy_int limit
                   && (default 0%Z limit <=? Z.of_nat (length (events ++ [event])))%Z
                then [event]
                else event :: cut_from limit (length (events ++ [event])) rest)
      as Hcut.
    { intros rest. unfold cut_from. rewrite length_app. simpl.
      destruct (truthy_int limit); simpl; [|done].
      destruct (Z.leb_spec (default 0%Z limit) (Z.of_nat (length events + 1))).
      - replace (Z.max 1 (default 0%Z limit - Z.of_nat (length events)))
          with 1%Z by lia. done.
      - replace (Z.to_nat (Z.max 1 (default 0%Z limit - Z.of_nat (length events))))
          with (S (Z.to_nat (Z.max 1 (default 0%Z limit
                                      - Z.of_nat (length events + 1)))))
          by lia.
        done. }
    assert (matches event_type level event = true →
              (if truthy_int limit
                  && (default 0%Z limit <=? Z.of_nat (length (events ++ [event])))%Z
               then Ok (events ++ [event])
               else read_lines event_type level limit (events ++ [event]) lines)
              = Ok (events ++ cut_from limit (length events)
                       (List.filter (matches event_type level)
                          (decoded (Decoded event :: lines))))) as Hkeep.
    { intros Hm. simpl decoded. simpl List.filter. rewrite Hm, Hcut.
      destruct (truthy_int limit
                && (default 0%Z limit <=? Z.of_nat (length (events ++ [event])))%Z);
        [done|].
      rewrite IH by done. by rewrite <- app_assoc. }
    assert (matches event_type level event = false →
            read_lines event_type level limit events lines
            = Ok (events ++ cut_from limit (length events)
                     (List.filter (matches event_type level)
                        (decoded (Decoded event :: lines))))) as Hskip.
    { intros Hm. simpl decoded. simpl List.filter. rewrite Hm. by apply IH. }
    simpl read_lines.
    destruct (truthy_str event_type || truthy_str level) eqn:Hf.
    + specialize (Hr Hf). simpl in Hr. apply Forall_inv in Hr.
      destruct event as [| | | | |fields]; try discriminate Hr.
      rewrite !filtered_out_object.
      assert (matches event_type level (JObject fields)
              = (negb (truthy_str event_type)
                 || field_is (JObject fields) "event_type" (default "" event_type))
                && (negb (truthy_str level)
                    || field_is (JObject fields) "level" (default "" level)))
        as Hm by done.
      destruct (truthy_str event_type),
        (field_is (JObject fields) "event_type" (default "" event_type)),
        (truthy_str level),
        (field_is (JObject fields) "level" (default "" level));
        cbn [andb negb orb] in Hm |- *;
        first [by apply Hkeep | by apply Hskip].
    + apply orb_false_iff in Hf as [He Hl].
      unfold filtered_out. rewrite He, Hl.
      apply Hkeep. unfold matches. by rewrite He, Hl.
Qed.

(** With the decoded lines all objects (or no filter set), [read_logs]
    returns the matching events of the selected file, in file order, cut
    by [limit]; a missing file gives the empty list. *)
Lemma read_logs_spec files agent_id event_type level limit :
  let log_file :=
    if truthy_str agent_id then agent_log_file (default "" agent_id)
    else master_log_file in
  match files !! log_file with
  | None => read_logs files agent_id event_type level limit = Ok []
  | Some lines =>
      readable event_type level lines →
      read_logs files agent_id event_type level limit
      = Ok (cut limit (List.filter (matches event_type level) (decoded lines)))
  end.
Proof.
  intros log_file. unfold read_logs. fold log_file.
  destruct (files !! log_file) as [lines|]; [|done].
  intros Hr. rewrite read_lines_spec by done. simpl.
  by rewrite cut_from_start.
Qed.

Lemma read_lines_limit_zero event_type level lines events :
  read_lines event_type level (Some 0%Z) events lines
  = read_lines event_type level None events lines.
Proof.
  revert events. induction lines as [|[|event] lines IH]; intros events;
    simpl; [done|done|].
  destruct (filtered_out event_type event "event_type") as [[|]|]; [done| |done].
  by destruct (filtered_out level event "level") as [[|]|].
Qed.

End AsyncLoggerFacts.

Module SessionManagerFacts.
Import SessionManager.

Lemma archive_session_unfold io_error now st sid :
  archive_session io_error now st sid
  = if archivable io_error st sid then
      (mkState
         (match OrderedDict.get sid (sessions_index st) with
          | Some md => OrderedDict.set sid (archived_metadata now md) (sessions_index st)
          | None => sessions_index st
          end)
         (session_dirs st ∖ {[sid]}) (retention_days st), true)
    else (st, false).
Proof.
  unfold archive_session, archivable.
  destruct (bool_decide (sid ∈ session_dirs st)); simpl; [|done].
  by destruct (io_error sid).
Qed.

(** What the archiving loop leaves behind, session by session. *)
Lemma archive_all_spec io_error now ids st count :
  NoDup ids →
  let r := archive_all io_error now ids (st, count) in
  (∀ sid, OrderedDict.get sid (sessions_index r.1)
          = if bool_decide (sid ∈ ids) && archivable io_error st sid
            then archived_metadata now <$> OrderedDict.get sid (sessions_index st)
            else OrderedDict.get sid (sessions_index st))
  ∧ (∀ sid, sid ∈ session_dirs r.1 ↔
            sid ∈ session_dirs st
            ∧ (bool_decide (sid ∈ ids) && archivable io_error st sid = false))
  ∧ r.2 = (count + Z.of_nat (length (List.filter (archivable io_error st) ids)))%Z
  ∧ retention_days r.1 = retention_days st
  ∧ OrderedDict.keys (sessions_index r.1) = OrderedDict.keys (sessions_index st).
Proof.
  revert st count. induction ids as [|x ids IH]; intros st count Hnd.
  - simpl. split_and!; try done; [|lia].
    intros sid. split; [by intros ?|by intros [? _]].
  - apply NoDup_cons in Hnd as [Hx Hnd].
    cbn [archive_all fold_left]. rewrite archive_session_unfold.
    cbn [fst snd].
    destruct (archivable io_error st x) eqn:Hax.
    + set (st1 := mkState _ _ _).
      specialize (IH st1 (count + 1)%Z Hnd).
      unfold archive_all in IH. cbn zeta in IH.
      destruct IH as (Hget & Hdirs & Hcount & Hret & Hkeys).
      assert (∀ sid, sid ≠ x →
                archivable io_error st1 sid = archivable io_error st sid) as Hother.
      { intros sid Hne. unfold archivable. f_equal. apply bool_decide_ext.
        subst st1. simpl. set_solver. }
      assert (∀ sid, sid ≠ x →
                OrderedDict.get sid (sessions_index st1)
                = OrderedDict.get sid (sessions_index st)) as Hgother.
      { intros sid Hne. subst st1. simpl.
        destruct (OrderedDict.get x (sessions_index st)); [|done].
        by rewrite OrderedDictFacts.get_set_ne. }
      split_and!.
      * intros sid. rewrite Hget. destruct (decide (sid = x)) as [->|Hne].
        -- rewrite (bool_decide_eq_false_2 (x ∈ ids)) by done.
           rewrite (bool_decide_eq_true_2 (x ∈ x :: ids)) by left.
           rewrite Hax. simpl. subst st1. simpl.
           destruct (OrderedDict.get x (sessions_index st)) eqn:Hg; simpl.
           ++ by rewrite OrderedDictFacts.get_set_eq.
           ++ done.
        -- rewrite Hother, Hgother by done.
           rewrite (bool_decide_ext (sid ∈ x :: ids) (sid ∈ ids)); [done|].
           set_solver.
      * intros sid. rewrite Hdirs. destruct (decide (sid = x)) as [->|Hne].
        -- rewrite (bool_decide_eq_true_2 (x ∈ x :: ids)) by left.
           rewrite Hax. subst st1. simpl. split; [set_solver|by intros [_ ?]].
        -- rewrite Hother by done.
           rewrite (bool_decide_ext (sid ∈ x :: ids) (sid ∈ ids)) by set_solver.
           subst st1. simpl. set_solver.
      * rewrite Hcount. simpl. rewrite Hax. simpl.
        assert (List.filter (archivable io_error st1) ids
                = List.filter (archivable io_error st) ids) as ->; [|lia].
        apply filter_ext_in. intros sid Hin. apply Hother.
        intros ->. by apply list_elem_of_In in Hin.
      * by rewrite Hret.
      * rewrite Hkeys. subst st1. simpl.
        destruct (OrderedDict.get x (sessions_index st)) eqn:Hg; [|done].
        apply OrderedDictFacts.keys_set_present, OrderedDictFacts.get_is_Some_keys. eauto.
    + specialize (IH st count Hnd).
      unfold archive_all in IH. cbn zeta in IH.
      destruct IH as (Hget & Hdirs & Hcount & Hret & Hkeys).
      split_and!; [| |  |done|done].
      * intros sid. rewrite Hget. destruct (decide (sid = x)) as [->|Hne].
        -- rewrite (bool_decide_eq_false_2 (x ∈ ids)) by done.
           rewrite Hax, !andb_false_r. simpl. done.
        -- rewrite (bool_decide_ext (sid ∈ x :: ids) (sid ∈ ids)); [done|].
           set_solver.
      * intros sid. rewrite Hdirs. destruct (decide (sid = x)) as [->|Hne].
        -- rewrite (bool_decide_eq_false_2 (x ∈ ids)) by done.
           rewrite Hax, !andb_false_r. simpl. done.
        -- rewrite (bool_decide_ext (sid ∈ x :: ids) (sid ∈ ids)); [done|].
           set_solver.
      * rewrite Hcount. simpl. by rewrite Hax.
Qed.

Lemma elem_of_sessions_to_cleanup st now sid :
  NoDup (OrderedDict.keys (sessions_index st)) →
  sid ∈ sessions_to_cleanup st now ↔
  ∃ md, OrderedDict.get sid (sessions_index st) = Some md
        ∧ due (cutoff_date st now) md = true.
Proof.
  unfold sessions_to_cleanup. generalize (cutoff_date st now) as cutoff.
  intros cutoff. induction (sessions_index st) as [|[k md0] d IH]; intros Hnd.
  - simpl. split; [by intros ?%elem_of_nil|by intros (? & ? & _)].
  - unfold OrderedDict.keys in Hnd. simpl in Hnd.
    apply NoDup_cons in Hnd as [Hk Hnd]. specialize (IH Hnd).
    simpl. case_decide as Hsid.
    + subst k. destruct (due cutoff md0) eqn:Hd; simpl.
      * split; [intros _; eauto|intros _; left].
      * rewrite IH. split.
        -- intros (md & Hg & _). exfalso. apply Hk.
           apply OrderedDictFacts.get_is_Some_keys. eauto.
        -- intros (md & [= ->] & ?). congruence.
    + destruct (due cutoff md0); simpl; rewrite ?elem_of_cons, IH; naive_solver.
Qed.

Lemma NoDup_sessions_to_cleanup st now :
  NoDup (OrderedDict.keys (sessions_index st)) →
  NoDup (sessions_to_cleanup st now).
Proof.
  unfold sessions_to_cleanup, OrderedDict.keys.
  induction (sessions_index st) as [|[k md0] d IH]; simpl; [done|].
  rewrite NoDup_cons. intros [Hk Hnd].
  destruct (due _ md0); simpl; [|by apply IH].
  apply NoDup_cons. split; [|by apply IH].
  intros Hin. apply Hk. apply list_elem_of_fmap in Hin as ([k' md'] & -> & Hin).
  apply list_elem_of_In, filter_In in Hin as [Hin _].
  apply list_elem_of_fmap. exists (k', md'). split; [done|].
  by apply list_elem_of_In.
Qed.

Lemma filter_nil_Forall {A} (f : A → bool) (l : list A) :
  Forall (λ x, f x = false) l → List.filter f l = [].
Proof.
  induction 1 as [|x l Hx _ IH]; simpl; [done|]. by rewrite Hx.
Qed.

End SessionManagerFacts.

Module PySortOrderFacts.
Import PySort PySortOrder.
Section order_facts.
Context {A : Type} (lt : A → A → bool).

Lemma consistent_spec (l : list A) :
  consistent lt l = true →
  (∀ x y, x ∈ l → y ∈ l → lt x y = true → lt y x = false)
  ∧ (∀ x y z, x ∈ l → y ∈ l → z ∈ l →
       lt x y = false → lt y z = false → lt x z = false).
Proof.
  unfold consistent. rewrite forallb_forall. intros H.
  assert (∀ x y, x ∈ l → y ∈ l →
            implb (lt x y) (negb (lt y x)) = true
            ∧ ∀ z, z ∈ l →
                implb (negb (lt x y) && negb (lt y z)) (negb (lt x z)) = true)
    as H'.
  { intros x y Hx%list_elem_of_In Hy%list_elem_of_In.
    specialize (H x Hx). rewrite forallb_forall in H. specialize (H y Hy).
    apply andb_true_iff in H as [H1 H2]. split; [done|].
    intros z Hz%list_elem_of_In. rewrite forallb_forall in H2. by apply H2. }
  split.
  - intros x y Hx Hy Hlt. destruct (H' x y Hx Hy) as [H1 _].
    rewrite Hlt in H1. simpl in H1. by apply negb_true_iff.
  - intros x y z Hx Hy Hz Hxy Hyz. destruct (H' x y Hx Hy) as [_ H2].
    specialize (H2 z Hz). rewrite Hxy, Hyz in H2. simpl in H2.
    by apply negb_true_iff.
Qed.

Section on.
Variable dom : list A.
Hypothesis lt_asym :
  ∀ x y, x ∈ dom → y ∈ dom → lt x y = true → lt y x = false.
Hypothesis ge_trans :
  ∀ x y z, x ∈ dom → y ∈ dom → z ∈ dom →
           lt x y = false → lt y z = false → lt x z = false.

Lemma insert_desc_sorted_on x l :
  x ∈ dom → l ⊆ dom →
  StronglySorted (ge lt) l → StronglySorted (ge lt) (insert_desc lt x l).
Proof.
  intros Hx Hl Hs. induction Hs as [|y l Hs IH Hy]; simpl.
  - repeat constructor.
  - assert (y ∈ dom) as Hyd by (apply Hl; left).
    assert (l ⊆ dom) as Hld by (intros z Hz; apply Hl; by right).
    destruct (lt x y) eqn:E.
    + constructor; [by apply IH|].
      rewrite PySortFacts.insert_desc_perm. constructor; [|done].
      by apply lt_asym.
    + constructor; [by constructor|]. constructor; [done|].
      apply Forall_forall. intros z Hz. rewrite Forall_forall in Hy.
      unfold ge in *. apply (ge_trans x y z); auto.
Qed.

Lemma sort_desc_sorted_on l :
  l ⊆ dom → StronglySorted (ge lt) (sort_desc lt l).
Proof.
  induction l as [|x l IH]; intros Hl; simpl; [constructor|].
  apply insert_desc_sorted_on.
  - apply Hl. left.
  - intros z Hz. apply Hl. right.
    by rewrite PySortFacts.sort_desc_perm in Hz.
  - apply IH. intros z Hz. apply Hl. by right.
Qed.

(** Insertion passes only elements strictly above [x], so it does not
    overtake an element tied with [x]. *)
Lemma filter_tied_insert_desc k x l :
  k ∈ dom → x ∈ dom → l ⊆ dom →
  List.filter (tied lt k) (insert_desc lt x l)
  = List.filter (tied lt k) (x :: l).
Proof.
  intros Hk Hx. induction l as [|y l IH]; intros Hl; [done|].
  assert (y ∈ dom) as Hyd by (apply Hl; left).
  assert (l ⊆ dom) as Hld by (intros z Hz; apply Hl; by right).
  cbn [insert_desc]. destruct (lt x y) eqn:E; [|done].
  cbn [List.filter]. rewrite (IH Hld). cbn [List.filter].
  destruct (tied lt k x) eqn:Tx; [|done].
  destruct (tied lt k y) eqn:Ty; [|done].
  exfalso. unfold tied in Tx, Ty.
  apply andb_true_iff in Tx as [Tx1 Tx2]. apply andb_true_iff in Ty as [Ty1 Ty2].
  apply negb_true_iff in Tx1, Tx2, Ty1, Ty2.
  pose proof (ge_trans x k y Hx Hk Hyd Tx1 Ty2). congruence.
Qed.

(** The sort is stable: elements that compare as equal keep their
    order. *)
Lemma sort_desc_stable_on k l :
  k ∈ dom → l ⊆ dom →
  List.filter (tied lt k) (sort_desc lt l) = List.filter (tied lt k) l.
Proof.
  intros Hk. induction l as [|x l IH]; intros Hl; [done|].
  assert (x ∈ dom) as Hxd by (apply Hl; left).
  assert (l ⊆ dom) as Hld by (intros z Hz; apply Hl; by right).
  cbn [sort_desc foldr]. fold (sort_desc lt l).
  rewrite filter_tied_insert_desc; [|done|done|].
  - cbn [List.filter]. by rewrite (IH Hld).
  - intros z Hz. apply Hld. by rewrite PySortFacts.sort_desc_perm in Hz.
Qed.

End on.

(** What [list.sort(reverse=True)] returns when the comparisons among
    the elements are consistent: a permutation, in descending order, in
    which elements that compare as equal keep their order. *)
Lemma sort_desc_consistent l :
  consistent lt l = true →
  sort_desc lt l ≡ₚ l
  ∧ StronglySorted (ge lt) (sort_desc lt l)
  ∧ ∀ k, k ∈ l →
         List.filter (tied lt k) (sort_desc lt l) = List.filter (tied lt k) l.
Proof.
  intros [Hasym Htrans]%consistent_spec. split_and!.
  - apply PySortFacts.sort_desc_perm.
  - by apply (sort_desc_sorted_on l).
  - intros k Hk. by apply (sort_desc_stable_on l).
Qed.

End order_facts.
End PySortOrderFacts.

Module CampaignSearchFacts.
Import PrimInt63 PrimFloat.
Import CampaignSearch.
Section runtime_facts.
Variable str_lower : string → string.
Variable str_split : string → list string.

Lemma float_category_points category t s :
  (if truthy_str category
      && String.eqb (str_lower (CampaignTemplate.category t))
           (str_lower (default "" category))
   then (s + 0.4)%float else s)
  = plus s (category_term str_lower category t).
Proof.
  unfold category_term. destruct category as [c|]; simpl; [|done].
  by destruct (negb (String.eqb c "")
               && String.eqb (str_lower (CampaignTemplate.category t))
                    (str_lower c)).
Qed.

Lemma float_keyword_points keywords t s :
  (if Memory.truthy_list keywords
      && Memory.truthy_list (Some (CampaignTemplate.keywords t))
   then
     if (0 <? Memory.keyword_overlap (default [] keywords)
                (CampaignTemplate.keywords t))%nat
     then (s + 0.4 * truediv
                     (Memory.keyword_overlap (default [] keywords)
                        (CampaignTemplate.keywords t))
                     (max (length (default [] keywords))
                        (length (CampaignTemplate.keywords t))))%float
     else s
   else s)
  = plus s (keyword_term keywords t).
Proof.
  unfold keyword_term. cbv zeta.
  destruct (Memory.truthy_list keywords) eqn:Hk; simpl.
  - destruct (CampaignTemplate.keywords t) as [|kw kws] eqn:Ht; simpl.
    + by rewrite MemoryFacts.keyword_overlap_nil_r.
    + by destruct (0 <? _)%nat.
  - by rewrite (MemoryFacts.truthy_list_false _ Hk),
      MemoryFacts.keyword_overlap_nil_l.
Qed.

Lemma float_audience_points target_audience t s :
  (if truthy_str target_audience
      && truthy_str (Some (CampaignTemplate.target_audience t))
   then
     if (0 <? size (words str_lower str_split (default "" target_audience)
                    ∩ words str_lower str_split
                        (CampaignTemplate.target_audience t)))%nat
     then (s + 0.2 * truediv
                     (size (words str_lower str_split
                              (default "" target_audience)
                            ∩ words str_lower str_split
                                (CampaignTemplate.target_audience t)))
                     (max (size (words str_lower str_split
                                   (default "" target_audience)))
                        (size (words str_lower str_split
                                 (CampaignTemplate.target_audience t)))))%float
     else s
   else s)
  = plus s (audience_term str_lower str_split target_audience t).
Proof.
  unfold audience_term. destruct target_audience as [ta|]; simpl; [|done].
  destruct (negb (String.eqb ta "")
            && negb (String.eqb (CampaignTemplate.target_audience t) ""));
    [|done].
  by destruct (0 <? _)%nat.
Qed.

(** The scoring loop computes the specified weighted sum, to the last
    bit. *)
Lemma float_similarity_meets_spec category keywords target_audience t :
  similarity str_lower str_split category keywords target_audience t
  = similarity_spec str_lower str_split category keywords target_audience t.
Proof.
  unfold similarity, similarity_spec. cbv zeta.
  by rewrite float_audience_points, float_keyword_points, float_category_points.
Qed.

Lemma score_templates_qualifying index category keywords target_audience minq :
  score_templates str_lower str_split category keywords target_audience minq
    (OrderedDict.values index)
  = qualifying str_lower str_split index category keywords target_audience minq.
Proof.
  unfold qualifying.
  induction (OrderedDict.values index) as [|t ts IH]; [done|].
  cbn [score_templates List.filter]. rewrite IH, float_similarity_meets_spec.
  destruct (CampaignTemplate.quality_score t <? minq)%float; [done|].
  cbn [negb andb].
  by destruct (0 <? similarity_spec _ _ _ _ _ _)%float.
Qed.

Lemma slice_to_unfold {A} (limit : Z) (l : list A) :
  slice_to limit l
  = if (0 <=? limit)%Z then take (Z.to_nat limit) l
    else take (length l - Z.to_nat (- limit)) l.
Proof. done. Qed.

End runtime_facts.
End CampaignSearchFacts.

(** * Running the embedding on small inputs *)

Module Examples.

Example lower_mixed_case : PyStr.lower "Smart Home-Devices 2" = "smart home-devices 2".
Proof. reflexivity. Qed.

Example split_runs_of_spaces :
  PyStr.split "  Tech savvy   homeowners " = ["Tech"; "savvy"; "homeowners"].
Proof. reflexivity. Qed.

Example slice_negative : slice_to (-1)%Z [1; 2; 3] = [1; 2].
Proof. reflexivity. Qed.

(** A stable descending sort keeps equal elements in their original
    order. *)
Example sort_desc_stable :
  PySort.sort_desc (λ x y : nat * string, (x.1 <? y.1)%nat)
    [(1, "a"); (3, "b"); (1, "c"); (3, "d")]
  = [(3, "b"); (3, "d"); (1, "a"); (1, "c")].
Proof. reflexivity. Qed.

(** A category match with one keyword out of three, and a template that
    does not match at all. *)
Example similarity_of_hub :
  (Memory.similarity (Some "smart home devices") (Some ["smart hub"]) None
     Memory.template_hub == 0.4 + 0.4 * (1 # 3))%Q
  ∧ Memory.find_similar_campaigns
      (Memory.manager_with [Memory.template_uncategorised; Memory.template_hub])
      (Some "smart home devices") (Some ["smart hub"]) None 85 5
    = [(Memory.template_hub,
        Memory.similarity (Some "smart home devices") (Some ["smart hub"]) None
          Memory.template_hub)].
Proof. split; vm_compute; reflexivity. Qed.

(** Registration order is the order of [get_ready_tasks]; B becomes ready
    once A is completed. *)
Example ready_tasks_follow_dependencies :
  let st0 := StateTracker.run
               [StateTracker.RegisterTask "A" "research" None;
                StateTracker.RegisterTask "B" "copy" (Some ["A"]);
                StateTracker.RegisterTask "C" "seo" None] in
  StateTracker.get_ready_tasks st0 = ["A"; "C"]
  ∧ StateTracker.get_ready_tasks
      (StateTracker.complete_task (StateTracker.start_task st0 "t1" "A") "t2" "A"
         (Some "done"))
    = ["B"; "C"].
Proof. split; vm_compute; reflexivity. Qed.

(** With a limit of 2 the second match ends the read; a negative limit
    ends it at the first. *)
Example read_logs_limits :
  let info := AsyncLogger.JObject [("level", AsyncLogger.JString "INFO")] in
  let files : AsyncLogger.Files :=
    {[ AsyncLogger.master_log_file :=
         [AsyncLogger.Decoded info; AsyncLogger.Malformed;
          AsyncLogger.Decoded info; AsyncLogger.Decoded info] ]} in
  AsyncLogger.read_logs files None None (Some "INFO") (Some 2%Z)
  = AsyncLogger.Ok [info; info]
  ∧ AsyncLogger.read_logs files None None None (Some (-3)%Z)
    = AsyncLogger.Ok [info]
  ∧ AsyncLogger.read_logs files (Some "copywriter") None None None
    = AsyncLogger.Ok [].
Proof. split_and!; vm_compute; reflexivity. Qed.

End Examples.

(** * The claims *)

(** C1, as amended.  When the comparisons among the scores are
    consistent (as they are unless a score is NaN),
    [find_similar_campaigns] returns the Python slice [[:limit]] of a
    ranking that holds exactly the stored templates whose quality_score is
    not below [min_quality_score] and whose similarity is positive, once
    for each stored entry, each paired with its similarity; the ranking is
    in descending order of (similarity, quality_score), pairs that compare
    as equal keeping the order of the index.  The similarity is the
    floating-point sum, added up from 0.0 in this order, of 0.4 if the
    query category is non-empty and equals the template's category
    case-insensitively, of 0.4 × k / max of the two keyword-list lengths
    for k > 0 distinct common keywords, and of 0.2 × w / max of the two
    distinct-word counts for w > 0 common audience words.  The slice is the
    first [limit] pairs for [limit ≥ 0], so [min limit n] pairs of the [n]
    qualifying ones, and all but the last [-limit] pairs for
    [limit < 0]. *)
Theorem find_similar_campaigns_ranking (str_lower : string → string)
    (str_split : string → list string)
    (templates_index : OrderedDict.t CampaignSearch.CampaignTemplate.t)
    (category : option string) (keywords : option (list string))
    (target_audience : option string) (min_quality_score : PrimFloat.float)
    (limit : Z) :
  let qualifying :=
    CampaignSearch.qualifying str_lower str_split templates_index category
      keywords target_audience min_quality_score in
  let res :=
    CampaignSearch.find_similar_campaigns str_lower str_split templates_index
      category keywords target_audience min_quality_score limit in
  PySortOrder.consistent CampaignSearch.rank_lt qualifying = true →
  ∃ ranking,
    ranking ≡ₚ qualifying
    ∧ StronglySorted (λ x y, CampaignSearch.rank_lt x y = false) ranking
    ∧ (∀ x, x ∈ qualifying →
         List.filter (PySortOrder.tied CampaignSearch.rank_lt x) ranking
         = List.filter (PySortOrder.tied CampaignSearch.rank_lt x) qualifying)
    ∧ res = (if (0 <=? limit)%Z then take (Z.to_nat limit) ranking
             else take (length ranking - Z.to_nat (- limit)) ranking)
    ∧ ((0 ≤ limit)%Z → length res = Z.to_nat limit `min` length qualifying).
Proof.
  intros qualifying res Hc.
  destruct (PySortOrderFacts.sort_desc_consistent CampaignSearch.rank_lt
              qualifying Hc) as (Hperm & Hsorted & Hstable).
  exists (PySort.sort_desc CampaignSearch.rank_lt qualifying).
  assert (res = slice_to limit
                  (PySort.sort_desc CampaignSearch.rank_lt qualifying)) as Hres.
  { unfold res, CampaignSearch.find_similar_campaigns.
    by rewrite CampaignSearchFacts.score_templates_qualifying. }
  split_and!; [done|done|done| |].
  - by rewrite Hres.
  - intros Hl. rewrite Hres, MemoryFacts.slice_to_length by done.
    by rewrite Hperm.
Qed.

Lemma find_similar_campaigns_ranking_witness :
  ∃ ranking,
    ranking
    ≡ₚ CampaignSearch.qualifying PyStr.lower PyStr.split
         (CampaignSearch.index_of
            [CampaignSearch.template_partial; CampaignSearch.template_audience])
         (Some "smart home") (Some ["smart hub"; "voice"; "wifi"])
         (Some "Tech savvy homeowners") CampaignSearch.min_quality_85
    ∧ CampaignSearch.find_similar_campaigns PyStr.lower PyStr.split
        (CampaignSearch.index_of
           [CampaignSearch.template_partial; CampaignSearch.template_audience])
        (Some "smart home") (Some ["smart hub"; "voice"; "wifi"])
        (Some "Tech savvy homeowners") CampaignSearch.min_quality_85 1
      = take 1 ranking.
Proof.
  destruct (find_similar_campaigns_ranking PyStr.lower PyStr.split
              (CampaignSearch.index_of
                 [CampaignSearch.template_partial;
                  CampaignSearch.template_audience])
              (Some "smart home") (Some ["smart hub"; "voice"; "wifi"])
              (Some "Tech savvy homeowners") CampaignSearch.min_quality_85 1)
    as (ranking & Hperm & _ & _ & Hres & _).
  - vm_compute. reflexivity.
  - exists ranking. split; [exact Hperm|exact Hres].
Defined.

(** C1 as stated fails when the query category is the empty string: a
    template whose category is also empty gets no category points, so its
    similarity is 0.4 (one keyword out of one) and not the stated 0.8. *)
Lemma find_similar_campaigns_empty_category :
  ¬ CampaignSearch.results_as_stated PyStr.lower PyStr.split
      (CampaignSearch.index_of [CampaignSearch.template_uncategorised])
      (Some "") (Some ["gift"]) None CampaignSearch.min_quality_85 5.
Proof.
  intros [H _].
  specialize (H CampaignSearch.template_uncategorised
                (CampaignSearch.similarity PyStr.lower PyStr.split (Some "")
                   (Some ["gift"]) None CampaignSearch.template_uncategorised)).
  assert (CampaignSearch.similarity PyStr.lower PyStr.split (Some "")
            (Some ["gift"]) None CampaignSearch.template_uncategorised
          = CampaignSearch.similarity_stated PyStr.lower PyStr.split (Some "")
              (Some ["gift"]) None CampaignSearch.template_uncategorised)
    as Heq.
  { apply H. vm_compute. left. }
  apply (f_equal
           (λ s, PrimFloat.eqb s
                   (CampaignSearch.similarity PyStr.lower PyStr.split (Some "")
                      (Some ["gift"]) None
                      CampaignSearch.template_uncategorised))) in Heq.
  vm_compute in Heq. discriminate Heq.
Qed.

(** C3: what [retrieve] does to the access metadata.  On a cache hit
    (caching enabled and a payload cached under the key) it returns the
    cached payload and changes no tier, so the stored entry keeps its
    [accessed_at] and [access_count]; only the path that reaches a backing
    dictionary (shown here with caching disabled, short-term tier) stamps
    [accessed_at] and adds one to [access_count]. *)
Theorem retrieve_cache_hit_skips_access_metadata (m : Memory.Manager)
    (now agent_id key memory_type payload : string) :
  LRU.wf (Memory.cache m) →
  (Memory.enable_caching m = true →
   OrderedDict.get (Memory.cache_key agent_id memory_type key)
     (LRU.cache (Memory.cache m)) = Some (Memory.VData payload) →
   let '(m', r) := Memory.retrieve m now agent_id key memory_type in
   r = Memory.VData payload
   ∧ Memory.short_term_memory m' = Memory.short_term_memory m
   ∧ Memory.working_memory m' = Memory.working_memory m
   ∧ Memory.shared_memory m' = Memory.shared_memory m
   ∧ Memory.longterm_files m' = Memory.longterm_files m)
  ∧ (Memory.enable_caching m = false →
     ∀ entries e,
       Memory.short_term_memory m !! agent_id = Some entries →
       entries !! key = Some e →
       let '(m', r) := Memory.retrieve m now agent_id key "short_term" in
       r = Memory.MemoryEntry.value e
       ∧ (Memory.short_term_memory m' !! agent_id) ≫= (.!! key)
         = Some (Memory.touch now e)).
Proof.
  intros Hwf. split.
  - intros Hc Hget. unfold Memory.retrieve. rewrite Hc.
    destruct (LRUFacts.get_hit _ _ _ Hwf Hget) as (Hr & _ & _).
    destruct (LRU.get (Memory.cache m)
                (Memory.cache_key agent_id memory_type key)) as [c1 r].
    simpl in Hr. subst r. done.
  - intros Hc entries e Hentries He. unfold Memory.retrieve. rewrite Hc.
    unfold Memory.lookup_and_touch. simpl. rewrite Hentries, He. simpl.
    rewrite Hc. split; [done|]. unfold Memory.with_short_term. simpl.
    rewrite lookup_insert_eq. simpl. by rewrite lookup_insert_eq.
Qed.

(** The failing scenario of C3: a value stored at 10:00 and retrieved at
    10:05 comes back from the cache, and its entry still says it was last
    accessed at 10:00, zero times. *)
Lemma retrieve_cache_hit_skips_access_metadata_witness :
  let m0 := Memory.init "s1" true 100 ∅ ∅ [] in
  let m1 := (Memory.store (λ s, s) true m0 "2024-05-01T10:00:00" "copywriter"
               "draft" (Memory.VData "v1") "short_term" None).1 in
  let '(m2, r) := Memory.retrieve m1 "2024-05-01T10:05:00" "copywriter" "draft"
                    "short_term" in
  r = Memory.VData "v1"
  ∧ Memory.short_term_memory m2 = Memory.short_term_memory m1
  ∧ ((Memory.short_term_memory m2 !! "copywriter") ≫= (.!! "draft"))
    = Some (Memory.MemoryEntry.mk "draft" (Memory.VData "v1") "short_term"
              "copywriter" (Some "s1") "2024-05-01T10:00:00"
              "2024-05-01T10:00:00" 0 []).
Proof.
  intros m0 m1.
  assert (LRU.wf (Memory.cache m1)) as Hwf.
  { split; [vm_compute; apply NoDup_singleton | vm_compute; discriminate]. }
  destruct (retrieve_cache_hit_skips_access_metadata m1 "2024-05-01T10:05:00"
              "copywriter" "draft" "short_term" "v1" Hwf) as [Hhit _].
  specialize (Hhit eq_refl eq_refl).
  destruct (Memory.retrieve m1 "2024-05-01T10:05:00" "copywriter" "draft"
              "short_term") as [m2 r].
  destruct Hhit as (Hr & Hst & _). split_and!; [done|done|].
  rewrite Hst. vm_compute. reflexivity.
Defined.

(** C4, as amended.  [save_campaign_template] indexes the new template
    under the returned id with exactly the quality_score it was given,
    whatever that score is; the threshold is applied by the workflow's
    guard [overall_score >= 85] before the call, so an index whose
    templates all reach 85 keeps that property under the workflow's save
    step. *)
Theorem save_campaign_template_records_given_score
    (md5_hexdigest : string → string) (m : Memory.Manager) :
  (∀ now product_name category quality_score target_audience keywords
     listing_structure social_strategy success_metrics tags,
     let '(m', template_id) :=
       Memory.save_campaign_template md5_hexdigest m now product_name category
         quality_score target_audience keywords listing_structure
         social_strategy success_metrics tags in
     ∃ t, OrderedDict.get template_id (Memory.templates_index m') = Some t
          ∧ Memory.CampaignTemplate.quality_score t = quality_score
          ∧ Memory.CampaignTemplate.template_id t = template_id)
  ∧ (Forall Memory.meets_threshold (OrderedDict.values (Memory.templates_index m)) →
     ∀ steps : list (option Q * Memory.SaveCall),
       Forall Memory.meets_threshold
         (OrderedDict.values
            (Memory.templates_index
               (fold_left
                  (λ m s, Memory.workflow_save_step md5_hexdigest m s.1 s.2)
                  steps m)))).
Proof.
  split.
  - intros. simpl. eexists. split; [apply OrderedDictFacts.get_set_eq|done].
  - intros Hm steps. revert m Hm.
    induction steps as [|[score c] steps IH]; intros m Hm; simpl; [done|].
    apply IH. unfold Memory.workflow_save_step.
    destruct (Qle_bool 85 (default 0%Q score)) eqn:Hq; [|done].
    unfold Memory.save_call. simpl.
    apply OrderedDictFacts.Forall_values_set; [|done].
    unfold Memory.meets_threshold. simpl. by apply Qle_bool_iff.
Qed.

Lemma save_campaign_template_records_given_score_witness :
  Forall Memory.meets_threshold
    (OrderedDict.values
       (Memory.templates_index
          (fold_left (λ m s, Memory.workflow_save_step (λ s, s) m s.1 s.2)
             [(Some 92%Q,
               Memory.mkSaveCall "2024-05-03T09:00:00" "SmartHub Pro 360"
                 "Smart Home Devices" 92 "Tech savvy homeowners" ["smart hub"]
                 "" "" "" None);
              (Some 40%Q,
               Memory.mkSaveCall "2024-05-04T09:00:00" "Dull Lamp" "Lighting" 40
                 "" [] "" "" "" None)]
             (Memory.manager_with [Memory.template_hub])))).
Proof.
  apply (save_campaign_template_records_given_score (λ s, s)
           (Memory.manager_with [Memory.template_hub])).
  vm_compute. repeat constructor. discriminate.
Defined.

(** C4 as stated fails: [save_campaign_template] called with a
    quality_score of 10 records the template. *)
Lemma save_campaign_template_below_threshold :
  ¬ Memory.saved_templates_meet_threshold (λ s, s).
Proof.
  intros H.
  specialize (H (Memory.init "s1" true 100 ∅ ∅ [])
                [Memory.mkSaveCall "2024-05-04T09:00:00" "Dull Lamp" "Lighting" 10
                   "" [] "" "" "" None] eq_refl).
  apply Forall_inv in H. vm_compute in H. by apply H.
Qed.

(** C9, as amended.  For a cache of capacity [cap ≥ 1], starting empty:
    every sequence of [put]/[get] leaves at most [cap] keys; putting
    [cap + 1] distinct keys leaves exactly all but the first one, in
    insertion order; [get] on a present key returns its value, moves the key
    to the most-recently-used end and changes no binding; and, when
    [cap ≥ 2], the key just read survives the next [put]. *)
Theorem lru_cache_correct {V : Type} (cap : Z) :
  (1 ≤ cap)%Z →
  (∀ ops : list (LRU.op V),
      (Z.of_nat (length (LRU.cache (LRU.run ops (LRU.init cap)))) ≤ cap)%Z)
  ∧ (∀ kvs : list (string * V),
      NoDup kvs.*1 → Z.of_nat (length kvs) = (cap + 1)%Z →
      LRU.cache (LRU.put_all kvs (LRU.init cap)) = tail kvs)
  ∧ (∀ (c : LRU.LRUCache V) k v,
      LRU.wf c → LRU.capacity c = cap →
      OrderedDict.get k (LRU.cache c) = Some v →
      (LRU.get c k).2 = Some v
      ∧ last (OrderedDict.keys (LRU.cache (LRU.get c k).1)) = Some k
      ∧ ∀ k', OrderedDict.get k' (LRU.cache (LRU.get c k).1)
              = OrderedDict.get k' (LRU.cache c))
  ∧ ((2 ≤ cap)%Z → LRU.survives_next_put (V := V) cap).
Proof.
  intros Hcap. split_and!.
  - intros ops.
    assert (LRU.wf (LRU.run ops (LRU.init (V := V) cap))) as [_ Hlen].
    { apply LRUFacts.wf_run; simpl; [lia|]. split; simpl; [apply NoDup_nil_2|lia]. }
    by rewrite LRUFacts.capacity_run in Hlen.
  - intros kvs Hnd Hlen. apply LRUFacts.put_all_overflow_by_one; [lia|done..].
  - intros c k v Hwf _ Hget. by apply LRUFacts.get_hit.
  - apply LRUFacts.read_key_survives.
Qed.

Lemma lru_cache_correct_witness :
  (∀ ops : list (LRU.op nat),
      (Z.of_nat (length (LRU.cache (LRU.run ops (LRU.init 2)))) ≤ 2)%Z)
  ∧ LRU.cache (LRU.put_all [("a", 1); ("b", 2); ("c", 3)] (LRU.init 2))
    = [("b", 2); ("c", 3)].
Proof.
  destruct (lru_cache_correct (V := nat) 2 ltac:(lia)) as (H1 & H2 & _).
  split; [exact H1|].
  apply (H2 [("a", 1); ("b", 2); ("c", 3)]); [|reflexivity].
  vm_compute. repeat constructor; set_solver.
Defined.

(** C9 as stated fails at capacity 1: the key that [get] has just promoted
    is the one the next [put] evicts. *)
Lemma lru_capacity_one_evicts_read_key :
  ¬ LRU.survives_next_put (V := nat) 1.
Proof.
  intros H.
  specialize (H (LRU.mkLRU [("a", 7)] 1) "a" "b" 8).
  assert ("a" ∈ OrderedDict.keys (LRU.cache (LRU.put
            (LRU.get (LRU.mkLRU [("a", 7)] 1) "a").1 "b" 8))) as Hin.
  { apply H; [|done|].
    - split; simpl; [apply NoDup_singleton|lia].
    - simpl. left. }
  vm_compute in Hin. apply list_elem_of_singleton in Hin. discriminate.
Qed.

(** C2, as amended.  In every state reached from a fresh tracker:
    [can_execute_task] is true exactly for a registered task all of whose
    dependencies are registered and completed; [get_ready_tasks] lists
    exactly the pending tasks for which it is true; and [start_task] does
    not consult it: it marks any registered task running and ignores an
    unregistered one. *)
Theorem can_execute_gates_readiness_not_start (ops : list StateTracker.op) :
  let st := StateTracker.run ops in
  (∀ t, StateTracker.can_execute_task st t = true ↔
        t ∈ OrderedDict.keys (StateTracker.tasks st)
        ∧ ∀ d, d ∈ StateTracker.deps_of st t →
               ∃ task, OrderedDict.get d (StateTracker.tasks st) = Some task
                       ∧ StateTracker.status task = StateTracker.COMPLETED)
  ∧ (∀ t, t ∈ StateTracker.get_ready_tasks st ↔
          StateTracker.get_task_status st t = Some StateTracker.PENDING
          ∧ StateTracker.can_execute_task st t = true)
  ∧ (∀ now t, t ∈ OrderedDict.keys (StateTracker.tasks st) →
              StateTracker.get_task_status (StateTracker.start_task st now t) t
              = Some StateTracker.RUNNING)
  ∧ (∀ now t, t ∉ OrderedDict.keys (StateTracker.tasks st) →
              StateTracker.start_task st now t = st).
Proof.
  intros st. split_and!.
  - intros t. apply StateTrackerFacts.can_execute_task_spec.
  - intros t. apply StateTrackerFacts.get_ready_tasks_spec.
    apply StateTrackerFacts.NoDup_keys_run.
  - intros now t. apply StateTrackerFacts.start_task_registered.
  - intros now t. apply StateTrackerFacts.start_task_unregistered.
Qed.

(** C2 as stated fails: with A registered and B depending on A,
    [start_task("B")] makes B running although [can_execute_task("B")] is
    false. *)
Lemma start_task_runs_blocked_task :
  ¬ StateTracker.running_only_when_executable.
Proof.
  intros H.
  specialize (H [StateTracker.RegisterTask "A" "research" None;
                 StateTracker.RegisterTask "B" "copy" (Some ["A"])]
                (StateTracker.StartTask "2024-01-01T00:00:00" "B") "B").
  vm_compute in H. discriminate H; [intros [=] | reflexivity].
Qed.

(** C5.  [log] always returns the id of the event it built: it neither
    raises nor waits.  On a full queue the queue is left as it is and
    [events_dropped] grows by one; otherwise the event is appended to the
    queue and [events_dropped] is unchanged. *)
Theorem log_drops_when_full_and_returns_id (st : AsyncLogger.Logger)
    (now fresh_id : string) (event_type : AsyncLogger.EventType)
    (level : AsyncLogger.LogLevel) (message : string)
    (agent_id agent_name : option string)
    (data : option (list (string * string))) (duration_ms : option Q)
    (parent_event_id : option string) :
  let event :=
    AsyncLogger.LogEvent.mk now (AsyncLogger.session_id st)
      (AsyncLogger.EventType_value event_type)
      (AsyncLogger.LogLevel_value level) agent_id agent_name message
      (default [] data) duration_ms parent_event_id fresh_id in
  let '(st', r) :=
    AsyncLogger.log st now fresh_id event_type level message agent_id
      agent_name data duration_ms parent_event_id in
  r = AsyncLogger.Returns fresh_id
  ∧ AsyncLogger.events_logged st' = AsyncLogger.events_logged st
  ∧ if AsyncLogger.Queue.full (AsyncLogger.log_queue st)
    then AsyncLogger.log_queue st' = AsyncLogger.log_queue st
         ∧ AsyncLogger.events_dropped st' = (AsyncLogger.events_dropped st + 1)%Z
    else AsyncLogger.Queue.items (AsyncLogger.log_queue st')
         = AsyncLogger.Queue.items (AsyncLogger.log_queue st) ++ [event]
         ∧ AsyncLogger.Queue.maxsize (AsyncLogger.log_queue st')
           = AsyncLogger.Queue.maxsize (AsyncLogger.log_queue st)
         ∧ AsyncLogger.events_dropped st' = AsyncLogger.events_dropped st.
Proof.
  intros event. unfold AsyncLogger.log, AsyncLogger.Queue.put_nowait,
    AsyncLogger.Queue.put.
  by destruct (AsyncLogger.Queue.full (AsyncLogger.log_queue st)).
Qed.

(** C8 at a failing input: the master log holds the single line [42],
    which is valid JSON but not an object; reading with an event-type
    filter raises [AttributeError] instead of returning the (empty) list
    of matching events. *)
Theorem read_logs_non_object_line_raises :
  AsyncLogger.read_logs
    {[ AsyncLogger.master_log_file :=
         [AsyncLogger.Decoded (AsyncLogger.JNumber 42)] ]}
    None (Some "agent_started") None None
  = AsyncLogger.AttributeError.
Proof. vm_compute. reflexivity. Qed.

(** C10.  With [limit = 0], [list_sessions] and [read_logs] behave as
    with no limit: [list_sessions] returns every session selected by the
    status filter, and [read_logs] every matching event of the file. *)
Theorem limit_zero_means_no_limit :
  (∀ st status,
     SessionManager.list_sessions st status (Some 0%Z)
     = SessionManager.list_sessions st status None
     ∧ SessionManager.list_sessions st status (Some 0%Z)
       ≡ₚ List.filter (SessionManager.status_selected status)
            (OrderedDict.values (SessionManager.sessions_index st)))
  ∧ (∀ files agent_id event_type level,
       AsyncLogger.read_logs files agent_id event_type level (Some 0%Z)
       = AsyncLogger.read_logs files agent_id event_type level None
       ∧ ∀ lines,
           files !! (if truthy_str agent_id
                     then AsyncLogger.agent_log_file (default "" agent_id)
                     else AsyncLogger.master_log_file) = Some lines →
           AsyncLogger.readable event_type level lines →
           AsyncLogger.read_logs files agent_id event_type level (Some 0%Z)
           = AsyncLogger.Ok
               (List.filter (AsyncLogger.matches event_type level)
                  (AsyncLogger.decoded lines))).
Proof.
  split.
  - intros st status. split; [done|].
    unfold SessionManager.list_sessions. simpl.
    rewrite PySortFacts.sort_desc_perm.
    unfold SessionManager.status_selected.
    destruct (truthy_str status); simpl; [done|].
    induction (OrderedDict.values (SessionManager.sessions_index st))
      as [|s l IH]; simpl; [done|]. by constructor.
  - intros files agent_id event_type level. split.
    + unfold AsyncLogger.read_logs.
      destruct (files !! _); [|done].
      apply AsyncLoggerFacts.read_lines_limit_zero.
    + intros lines Hfile Hr.
      pose proof (AsyncLoggerFacts.read_logs_spec files agent_id event_type
                    level (Some 0%Z)) as Hspec.
      simpl in Hspec. rewrite Hfile in Hspec. by apply Hspec.
Qed.

Lemma limit_zero_means_no_limit_witness :
  let lines :=
    [AsyncLogger.Decoded
       (AsyncLogger.JObject [("level", AsyncLogger.JString "INFO")]);
     AsyncLogger.Malformed;
     AsyncLogger.Decoded
       (AsyncLogger.JObject [("level", AsyncLogger.JString "DEBUG")]);
     AsyncLogger.Decoded
       (AsyncLogger.JObject [("level", AsyncLogger.JString "INFO")])] in
  AsyncLogger.read_logs {[ AsyncLogger.master_log_file := lines ]}
    None None (Some "INFO") (Some 0%Z)
  = AsyncLogger.Ok
      [AsyncLogger.JObject [("level", AsyncLogger.JString "INFO")];
       AsyncLogger.JObject [("level", AsyncLogger.JString "INFO")]].
Proof.
  intros lines.
  destruct limit_zero_means_no_limit as [_ H].
  destruct (H {[ AsyncLogger.master_log_file := lines ]} None None (Some "INFO"))
    as [_ Hall].
  rewrite (Hall lines).
  - reflexivity.
  - reflexivity.
  - intros _. subst lines. simpl. repeat constructor.
Defined.

(** C6, as amended.  [update_session] on an unknown id returns normally
    and changes nothing.  On a known id it replaces, in that session's
    metadata only, [status] when a non-empty status is given (stamping
    [completed_at] when that status is completed or failed) and each of
    [duration_seconds], [agent_count], [error_count], [quality_score] that
    is given; every other field, every other session and the set of
    session directories are unchanged. *)
Theorem update_session_partial_update (st : SessionManager.State)
    (now : SessionManager.Time) (session_id : string) (status : option string)
    (duration : option Q) (agent_count error_count : option Z)
    (quality_score : option Q) :
  let r := SessionManager.update_session st now session_id status duration
             agent_count error_count quality_score in
  (OrderedDict.get session_id (SessionManager.sessions_index st) = None →
   r = (st, SessionManager.Returned))
  ∧ (∀ md, OrderedDict.get session_id (SessionManager.sessions_index st) = Some md →
       ∃ md',
         OrderedDict.get session_id (SessionManager.sessions_index r.1) = Some md'
         ∧ SessionManager.SessionMetadata.status md'
           = (if truthy_str status then default "" status
              else SessionManager.SessionMetadata.status md)
         ∧ SessionManager.SessionMetadata.completed_at md'
           = (if truthy_str status
                 && SessionManager.is_finished (default "" status)
              then Some now
              else SessionManager.SessionMetadata.completed_at md)
         ∧ SessionManager.SessionMetadata.duration_seconds md'
           = default (SessionManager.SessionMetadata.duration_seconds md) duration
         ∧ SessionManager.SessionMetadata.agent_count md'
           = default (SessionManager.SessionMetadata.agent_count md) agent_count
         ∧ SessionManager.SessionMetadata.error_count md'
           = default (SessionManager.SessionMetadata.error_count md) error_count
         ∧ SessionManager.SessionMetadata.quality_score md'
           = match quality_score with
             | Some q => Some q
             | None => SessionManager.SessionMetadata.quality_score md
             end
         ∧ SessionManager.SessionMetadata.session_id md'
           = SessionManager.SessionMetadata.session_id md
         ∧ SessionManager.SessionMetadata.created_at md'
           = SessionManager.SessionMetadata.created_at md
         ∧ SessionManager.SessionMetadata.product_name md'
           = SessionManager.SessionMetadata.product_name md
         ∧ SessionManager.SessionMetadata.workflow_type md'
           = SessionManager.SessionMetadata.workflow_type md
         ∧ SessionManager.SessionMetadata.archived_at md'
           = SessionManager.SessionMetadata.archived_at md
         ∧ (∀ other, other ≠ session_id →
              OrderedDict.get other (SessionManager.sessions_index r.1)
              = OrderedDict.get other (SessionManager.sessions_index st))
         ∧ OrderedDict.keys (SessionManager.sessions_index r.1)
           = OrderedDict.keys (SessionManager.sessions_index st)
         ∧ SessionManager.session_dirs r.1 = SessionManager.session_dirs st).
Proof.
  intros r. subst r. unfold SessionManager.update_session. split.
  - by intros ->.
  - intros md Hmd. rewrite Hmd. simpl.
    eexists. split; [apply OrderedDictFacts.get_set_eq|].
    unfold SessionManager.updated_metadata.
    destruct (truthy_str status); simpl.
    + destruct (SessionManager.is_finished (default "" status)); simpl;
        (split_and!; try done;
         [intros other Hne; by apply OrderedDictFacts.get_set_ne
         |apply OrderedDictFacts.keys_set_present, OrderedDictFacts.get_is_Some_keys; eauto]).
    + split_and!; try done;
        [intros other Hne; by apply OrderedDictFacts.get_set_ne
        |apply OrderedDictFacts.keys_set_present, OrderedDictFacts.get_is_Some_keys; eauto].
Qed.

Lemma update_session_partial_update_witness :
  let md := SessionManager.SessionMetadata.mk "s1" 1000%Z "running" None
              "amazon_campaign" 0 0 0 None None None in
  let st := SessionManager.mkState [("s1", md)] {["s1"]} 7 in
  ∃ md',
    OrderedDict.get "s1"
      (SessionManager.sessions_index
         (SessionManager.update_session st 2000%Z "s1" (Some "completed") None
            (Some 6%Z) None (Some 91%Q)).1) = Some md'
    ∧ SessionManager.SessionMetadata.status md' = "completed"
    ∧ SessionManager.SessionMetadata.completed_at md' = Some 2000%Z
    ∧ SessionManager.SessionMetadata.agent_count md' = 6%Z
    ∧ SessionManager.SessionMetadata.error_count md' = 0%Z.
Proof.
  intros md st.
  destruct (update_session_partial_update st 2000%Z "s1" (Some "completed") None
              (Some 6%Z) None (Some 91%Q)) as [_ H].
  destruct (H md eq_refl) as (md' & Hg & Hs & Hc & _ & Ha & He & _).
  exists md'. split_and!; [exact Hg|exact Hs|exact Hc|exact Ha|exact He].
Defined.

(** C6 as stated fails for the empty status: it is supplied, yet the
    session keeps its old status. *)
Lemma update_session_ignores_empty_status :
  ¬ SessionManager.supplied_status_is_stored.
Proof.
  intros H.
  set (md := SessionManager.SessionMetadata.mk "s1" 1000%Z "running" None
               "amazon_campaign" 0 0 0 None None None).
  specialize (H (SessionManager.mkState [("s1", md)] {["s1"]} 7) 2000%Z "s1" ""
                md md eq_refl eq_refl).
  discriminate H.
Qed.

(** C7, as amended.  One sweep attempts exactly the sessions that are
    completed or failed and older than the retention period; it archives
    those whose directory exists and whose archive step does not raise,
    marking them archived with [archived_at] and removing the directory,
    leaves every other session as it was, and returns the number archived.
    A following sweep returns 0 provided no further session has aged past
    retention and every archive step that raised in the first sweep raises
    again. *)
Theorem cleanup_old_sessions_sweep (io_error : string → bool)
    (st : SessionManager.State) (now : SessionManager.Time) :
  NoDup (OrderedDict.keys (SessionManager.sessions_index st)) →
  let r := SessionManager.cleanup_old_sessions io_error st now in
  (∀ sid md,
     OrderedDict.get sid (SessionManager.sessions_index st) = Some md →
     if SessionManager.due (SessionManager.cutoff_date st now) md
        && bool_decide (sid ∈ SessionManager.session_dirs st)
        && negb (io_error sid)
     then OrderedDict.get sid (SessionManager.sessions_index r.1)
          = Some (SessionManager.archived_metadata now md)
          ∧ sid ∉ SessionManager.session_dirs r.1
     else OrderedDict.get sid (SessionManager.sessions_index r.1) = Some md
          ∧ (sid ∈ SessionManager.session_dirs r.1
             ↔ sid ∈ SessionManager.session_dirs st))
  ∧ r.2 = Z.of_nat
            (length
               (List.filter
                  (λ sid, bool_decide (sid ∈ SessionManager.session_dirs st)
                          && negb (io_error sid))
                  (SessionManager.sessions_to_cleanup st now)))
  ∧ (∀ io_error2 now2,
       (∀ sid md,
          OrderedDict.get sid (SessionManager.sessions_index st) = Some md →
          (SessionManager.SessionMetadata.created_at md
           < SessionManager.cutoff_date st now2)%Z →
          (SessionManager.SessionMetadata.created_at md
           < SessionManager.cutoff_date st now)%Z) →
       (∀ sid, sid ∈ SessionManager.sessions_to_cleanup st now →
               sid ∈ SessionManager.session_dirs st →
               io_error sid = true → io_error2 sid = true) →
       (SessionManager.cleanup_old_sessions io_error2 r.1 now2).2 = 0%Z).
Proof.
  intros Hnd r.
  pose proof (SessionManagerFacts.archive_all_spec io_error now
                (SessionManager.sessions_to_cleanup st now) st 0%Z
                (SessionManagerFacts.NoDup_sessions_to_cleanup st now Hnd))
    as (Hget & Hdirs & Hcount & Hret & Hkeys).
  fold (SessionManager.cleanup_old_sessions io_error st now) in Hget, Hdirs,
    Hcount, Hret, Hkeys. fold r in Hget, Hdirs, Hcount, Hret, Hkeys.
  assert (∀ sid md,
            OrderedDict.get sid (SessionManager.sessions_index st) = Some md →
            bool_decide (sid ∈ SessionManager.sessions_to_cleanup st now)
            = SessionManager.due (SessionManager.cutoff_date st now) md) as Hdue.
  { intros sid md Hmd.
    destruct (SessionManager.due _ md) eqn:Hd.
    - apply bool_decide_eq_true.
      apply SessionManagerFacts.elem_of_sessions_to_cleanup; eauto.
    - apply bool_decide_eq_false. intros Hin.
      apply SessionManagerFacts.elem_of_sessions_to_cleanup in Hin
        as (md' & Hmd' & Hd'); [|done].
      congruence. }
  assert (∀ sid md,
     OrderedDict.get sid (SessionManager.sessions_index st) = Some md →
     if SessionManager.due (SessionManager.cutoff_date st now) md
        && bool_decide (sid ∈ SessionManager.session_dirs st)
        && negb (io_error sid)
     then OrderedDict.get sid (SessionManager.sessions_index r.1)
          = Some (SessionManager.archived_metadata now md)
          ∧ sid ∉ SessionManager.session_dirs r.1
     else OrderedDict.get sid (SessionManager.sessions_index r.1) = Some md
          ∧ (sid ∈ SessionManager.session_dirs r.1
             ↔ sid ∈ SessionManager.session_dirs st)) as Hone.
  { intros sid md Hmd.
    pose proof (Hget sid) as Hg. pose proof (Hdirs sid) as Hd.
    rewrite Hmd, (Hdue sid md Hmd) in Hg. rewrite (Hdue sid md Hmd) in Hd.
    unfold SessionManager.archivable in Hg, Hd. rewrite <- andb_assoc.
    destruct (SessionManager.due (SessionManager.cutoff_date st now) md
              && (bool_decide (sid ∈ SessionManager.session_dirs st)
                  && negb (io_error sid))); simpl in Hg |- *.
    - split; [done|]. rewrite Hd. by intros [_ ?].
    - split; [done|]. rewrite Hd. tauto. }
  split_and!; [exact Hone| by rewrite Hcount |].
  intros io_error2 now2 Hage Hagain.
  assert (NoDup (OrderedDict.keys (SessionManager.sessions_index r.1))) as Hnd1
    by (by rewrite Hkeys).
  pose proof (SessionManagerFacts.archive_all_spec io_error2 now2
                (SessionManager.sessions_to_cleanup r.1 now2) r.1 0%Z
                (SessionManagerFacts.NoDup_sessions_to_cleanup r.1 now2 Hnd1))
    as (_ & _ & Hcount2 & _).
  unfold SessionManager.cleanup_old_sessions at 1. rewrite Hcount2.
  rewrite SessionManagerFacts.filter_nil_Forall; [done|].
  apply Forall_forall. intros sid Hin.
  apply SessionManagerFacts.elem_of_sessions_to_cleanup in Hin
    as (md1 & Hmd1 & Hdue1); [|done].
  assert (is_Some (OrderedDict.get sid (SessionManager.sessions_index st)))
    as [md Hmd].
  { apply OrderedDictFacts.get_is_Some_keys. rewrite <- Hkeys.
    apply OrderedDictFacts.get_is_Some_keys. eauto. }
  specialize (Hone sid md Hmd). unfold SessionManager.archivable.
  unfold SessionManager.cutoff_date in Hdue1. rewrite Hret in Hdue1.
  fold (SessionManager.cutoff_date st now2) in Hdue1.
  destruct (SessionManager.due (SessionManager.cutoff_date st now) md) eqn:Hd;
    simpl in Hone.
  - destruct (bool_decide (sid ∈ SessionManager.session_dirs st)) eqn:Hdir;
      simpl in Hone.
    + destruct (io_error sid) eqn:Hio; simpl in Hone.
      * rewrite (Hagain sid); [by rewrite andb_false_r| |by apply bool_decide_eq_true in Hdir|done].
        apply SessionManagerFacts.elem_of_sessions_to_cleanup; eauto.
      * destruct Hone as [Hg _]. rewrite Hg in Hmd1. injection Hmd1 as <-.
        unfold SessionManager.due in Hdue1. simpl in Hdue1.
        by rewrite andb_false_r in Hdue1.
    + destruct Hone as [_ Hiff]. apply bool_decide_eq_false in Hdir.
      rewrite bool_decide_eq_false_2; [done|]. by rewrite Hiff.
  - assert (OrderedDict.get sid (SessionManager.sessions_index r.1) = Some md)
      as Hsame.
    { by destruct (bool_decide (sid ∈ SessionManager.session_dirs st)
                   && negb (io_error sid)); simpl in Hone; destruct Hone. }
    rewrite Hsame in Hmd1. injection Hmd1 as <-.
    unfold SessionManager.due in Hd, Hdue1.
    apply andb_true_iff in Hdue1 as [Hold Hfin]. rewrite Hfin, andb_true_r in Hd.
    apply Z.ltb_lt in Hold. apply (Hage sid md Hmd) in Hold.
    apply Z.ltb_lt in Hold. congruence.
Qed.

Lemma cleanup_old_sessions_sweep_witness :
  let old status sid :=
    (sid, SessionManager.SessionMetadata.mk sid 0%Z status None
            "amazon_campaign" 0 0 0 None (Some 5%Z) None) in
  let st := SessionManager.mkState
              [old "completed" "s1"; old "failed" "s2"; old "running" "s3"]
              {["s1"; "s2"; "s3"]} 7 in
  let io_error := λ sid, String.eqb sid "s2" in
  let now := 691200000000%Z in
  (SessionManager.cleanup_old_sessions io_error st now).2 = 1%Z
  ∧ (SessionManager.cleanup_old_sessions io_error
       (SessionManager.cleanup_old_sessions io_error st now).1 now).2 = 0%Z.
Proof.
  intros old st io_error now.
  assert (NoDup (OrderedDict.keys (SessionManager.sessions_index st))) as Hnd.
  { vm_compute. repeat constructor; set_solver. }
  destruct (cleanup_old_sessions_sweep io_error st now Hnd) as (_ & Hcount & Hidem).
  split.
  - rewrite Hcount. vm_compute. reflexivity.
  - apply Hidem.
    + intros sid md _ H. exact H.
    + intros sid _ _ H. exact H.
Defined.

(** C7 as stated fails: a session whose archive step raises in the first
    sweep is still due, and the second sweep, in which the step succeeds,
    archives it and returns 1. *)
Lemma cleanup_old_sessions_retries_failed_archive :
  ¬ SessionManager.second_cleanup_returns_zero.
Proof.
  intros H.
  specialize (H (λ _, true) (λ _, false)
                (SessionManager.mkState
                   [("s1", SessionManager.SessionMetadata.mk "s1" 0%Z "completed"
                             None "amazon_campaign" 0 0 0 None (Some 5%Z) None)]
                   {["s1"]} 7)
                691200000000%Z).
  assert (NoDup ["s1"]) as Hnd by apply NoDup_singleton.
  specialize (H Hnd). vm_compute in H. discriminate H.
Qed.


(** * Further properties of the embedded code *)

Module LRUMore.
Import LRU LRUOps.
Section lru_more.
Context {V : Type}.
Implicit Types (c : LRUCache V) (k : string) (v : V).
Implicit Types (d : OrderedDict.t V).

Lemma get_tail_ne k d :
  NoDup (OrderedDict.keys d) → k ∈ OrderedDict.keys (tail d) →
  OrderedDict.get k (tail d) = OrderedDict.get k d.
Proof.
  destruct d as [|[k0 v0] d]; simpl; [done|].
  unfold OrderedDict.keys. simpl. rewrite NoDup_cons. intros [Hk0 _] Hk.
  case_decide; [by subst|done].
Qed.

Lemma put_unfold c k v :
  cache (put c k v)
  = if (Z.of_nat (length (inserted c k v)) >? capacity c)%Z
    then tail (inserted c k v) else inserted c k v.
Proof. unfold put, inserted. by case_match. Qed.

Lemma inserted_spec c k v :
  NoDup (OrderedDict.keys (cache c)) →
  NoDup (OrderedDict.keys (inserted c k v))
  ∧ last (OrderedDict.keys (inserted c k v)) = Some k
  ∧ OrderedDict.get k (inserted c k v) = Some v
  ∧ (∀ k', k' ≠ k →
       OrderedDict.get k' (inserted c k v) = OrderedDict.get k' (cache c))
  ∧ length (inserted c k v)
    = if OrderedDict.contains k (cache c) then length (cache c)
      else S (length (cache c)).
Proof.
  intros Hnd. unfold inserted.
  destruct (OrderedDict.contains k (cache c)) eqn:Hc.
  - apply OrderedDictFacts.contains_keys in Hc.
    assert (k ∈ OrderedDict.keys (OrderedDict.move_to_end k (cache c))) as Hin.
    { rewrite OrderedDictFacts.keys_move_to_end by done.
      apply elem_of_app. right. left. }
    split_and!.
    + by apply OrderedDictFacts.NoDup_keys_set,
        OrderedDictFacts.NoDup_keys_move_to_end.
    + rewrite OrderedDictFacts.keys_set_present by done.
      rewrite OrderedDictFacts.keys_move_to_end by done. apply last_snoc.
    + apply OrderedDictFacts.get_set_eq.
    + intros k' Hne. rewrite OrderedDictFacts.get_set_ne by done.
      by apply OrderedDictFacts.get_move_to_end.
    + rewrite OrderedDictFacts.length_set.
      apply OrderedDictFacts.contains_keys in Hin. rewrite Hin.
      apply OrderedDictFacts.length_move_to_end.
  - assert (k ∉ OrderedDict.keys (cache c)) as Hout.
    { intros Hin. apply OrderedDictFacts.contains_keys in Hin. congruence. }
    split_and!.
    + by apply OrderedDictFacts.NoDup_keys_set.
    + rewrite OrderedDictFacts.keys_set_absent by done.
      unfold OrderedDict.keys. rewrite fmap_app. apply last_snoc.
    + apply OrderedDictFacts.get_set_eq.
    + intros k' Hne. by apply OrderedDictFacts.get_set_ne.
    + rewrite OrderedDictFacts.length_set. by rewrite Hc.
Qed.

Lemma last_in_tail (l : list string) k :
  last l = Some k → (2 ≤ length l)%nat → k ∈ tail l.
Proof.
  destruct l as [|x [|y l]]; simpl; [lia|lia|]. intros Hl _.
  change (last (y :: l) = Some k) in Hl.
  apply last_Some in Hl as [l' ->]. apply elem_of_app. right. left.
Qed.

Lemma keys_tail d : OrderedDict.keys (tail d) = tail (OrderedDict.keys d).
Proof. by destruct d. Qed.

(** After [put c k v], with room for at least one entry, [k] is cached
    with value [v] at the most-recently-used end. *)
Lemma put_lookup c k v :
  wf c → (1 ≤ capacity c)%Z →
  OrderedDict.get k (cache (put c k v)) = Some v
  ∧ last (OrderedDict.keys (cache (put c k v))) = Some k.
Proof.
  intros [Hnd Hlen] Hcap.
  destruct (inserted_spec c k v Hnd) as (Hnd' & Hlast & Hget & _ & Hl).
  rewrite put_unfold.
  destruct (Z.gtb_spec (Z.of_nat (length (inserted c k v))) (capacity c));
    [|done].
  assert (2 ≤ length (inserted c k v))%nat as H2 by lia.
  assert (k ∈ OrderedDict.keys (tail (inserted c k v))) as Hin.
  { rewrite keys_tail. apply last_in_tail; [done|].
    unfold OrderedDict.keys. by rewrite length_fmap. }
  split.
  - by rewrite get_tail_ne.
  - rewrite keys_tail.
    destruct (OrderedDict.keys (inserted c k v)) as [|x [|y l]] eqn:E;
      simpl in *; try done.
    unfold OrderedDict.keys in E.
    apply (f_equal length) in E. rewrite length_fmap in E. simpl in E. lia.
Qed.

(** A key other than the one put keeps its value as long as it stays
    cached. *)
Lemma put_lookup_ne c k k' v :
  wf c → k' ≠ k → k' ∈ OrderedDict.keys (cache (put c k v)) →
  OrderedDict.get k' (cache (put c k v)) = OrderedDict.get k' (cache c).
Proof.
  intros [Hnd Hlen] Hne.
  destruct (inserted_spec c k v Hnd) as (Hnd' & _ & _ & Hother & _).
  rewrite put_unfold.
  destruct (Z.of_nat (length (inserted c k v)) >? capacity c)%Z.
  - intros Hin. rewrite get_tail_ne by done. by apply Hother.
  - intros _. by apply Hother.
Qed.

(** A key that is not cached is not brought in by a [put] of another
    key. *)
Lemma put_absent_ne c k k' v :
  wf c → k' ≠ k → OrderedDict.get k' (cache c) = None →
  OrderedDict.get k' (cache (put c k v)) = None.
Proof.
  intros [Hnd Hlen] Hne Hnone.
  destruct (inserted_spec c k v Hnd) as (Hnd' & _ & _ & Hother & _).
  rewrite put_unfold.
  assert (OrderedDict.get k' (inserted c k v) = None) as Hi
    by (by rewrite Hother).
  destruct (Z.of_nat (length (inserted c k v)) >? capacity c)%Z; [|done].
  apply OrderedDictFacts.get_None_keys. intros Hin.
  apply OrderedDictFacts.get_None_keys in Hi. apply Hi.
  rewrite keys_tail in Hin.
  destruct (OrderedDict.keys (inserted c k v)); simpl in *; [done|].
  by right.
Qed.

End lru_more.
End LRUMore.

(** X1.  With a capacity of at least 1, [get] right after [put] of the same
    key returns the value put, whatever the cache held before. *)
Theorem lru_get_after_put {V : Type} (c : LRU.LRUCache V) (k : string) (v : V) :
  LRU.wf c → (1 ≤ LRU.capacity c)%Z →
  (LRU.get (LRU.put c k v) k).2 = Some v.
Proof.
  intros Hwf Hcap.
  destruct (LRUMore.put_lookup c k v Hwf Hcap) as [Hget _].
  assert (LRU.wf (LRU.put c k v)) as Hwf'.
  { apply LRUFacts.wf_put; [lia|done]. }
  by destruct (LRUFacts.get_hit _ _ _ Hwf' Hget) as [-> _].
Qed.

Lemma lru_get_after_put_witness :
  (LRU.get (LRU.put (LRU.mkLRU [("a", 1); ("b", 2)] 2) "c" 3) "c").2 = Some 3.
Proof.
  apply lru_get_after_put.
  - split; simpl; [|lia]. vm_compute. repeat constructor; set_solver.
  - simpl. lia.
Defined.

(** X2.  [put] evicts only when a new key arrives at a full cache, and
    then exactly the least-recently-used entry: the cache becomes the old
    one without its first entry, followed by the new pair.  In every other
    case (the key is already cached, or there is room) all keys stay and
    every other key keeps its value. *)
Theorem lru_put_evicts_only_lru {V : Type} (c : LRU.LRUCache V) (k : string)
    (v : V) :
  LRU.wf c → (1 ≤ LRU.capacity c)%Z →
  (k ∉ OrderedDict.keys (LRU.cache c) →
   Z.of_nat (length (LRU.cache c)) = LRU.capacity c →
   LRU.cache (LRU.put c k v) = tail (LRU.cache c) ++ [(k, v)])
  ∧ (k ∈ OrderedDict.keys (LRU.cache c)
     ∨ (Z.of_nat (length (LRU.cache c)) < LRU.capacity c)%Z →
     ∀ k', k' ∈ OrderedDict.keys (LRU.cache c) →
           k' ∈ OrderedDict.keys (LRU.cache (LRU.put c k v))
           ∧ (k' ≠ k → OrderedDict.get k' (LRU.cache (LRU.put c k v))
                       = OrderedDict.get k' (LRU.cache c))).
Proof.
  intros Hwf Hcap. split.
  - intros Hk Hfull. rewrite LRUFacts.put_fresh_full by done. simpl.
    destruct (LRU.cache c); simpl in *; [lia|done].
  - intros Hroom k' Hk'.
    assert (k' ∈ OrderedDict.keys (LRU.cache (LRU.put c k v))) as Hin.
    { destruct Hwf as [Hnd Hlen].
      destruct (LRUMore.inserted_spec c k v Hnd) as (_ & _ & Hget & Hother & Hl).
      rewrite LRUMore.put_unfold.
      destruct (Z.gtb_spec (Z.of_nat (length (LRUOps.inserted c k v)))
                  (LRU.capacity c)) as [Hgt|_].
      - exfalso. destruct Hroom as [Hin|Hlt].
        + apply OrderedDictFacts.contains_keys in Hin. rewrite Hin in Hl. lia.
        + destruct (OrderedDict.contains k (LRU.cache c)); lia.
      - apply OrderedDictFacts.get_is_Some_keys.
        destruct (decide (k' = k)) as [->|Hne]; [by rewrite Hget|].
        rewrite Hother by done. by apply OrderedDictFacts.get_is_Some_keys. }
    split; [done|]. intros Hne. by apply LRUMore.put_lookup_ne.
Qed.

Lemma lru_put_evicts_only_lru_witness :
  LRU.cache (LRU.put (LRU.mkLRU [("a", 1); ("b", 2)] 2) "c" 3)
  = [("b", 2); ("c", 3)].
Proof.
  assert (LRU.wf (LRU.mkLRU [("a", 1); ("b", 2)] 2)) as Hwf.
  { split; simpl; [|lia]. vm_compute. repeat constructor; set_solver. }
  destruct (lru_put_evicts_only_lru (LRU.mkLRU [("a", 1); ("b", 2)] 2) "c" 3 Hwf)
    as [H _]; [simpl; lia|].
  apply H; [|reflexivity]. vm_compute. set_solver.
Defined.

Module PyStrFacts.
Import PyStrOps.

Lemma append_nil (s : string) : "" +:+ s = s.
Proof. reflexivity. Qed.

Lemma append_cons (a : Ascii.ascii) (s t : string) :
  String a s +:+ t = String a (s +:+ t).
Proof. reflexivity. Qed.

Lemma length_append (s t : string) :
  String.length (s +:+ t) = String.length s + String.length t.
Proof.
  induction s as [|a s IH]; [done|].
  rewrite append_cons. simpl. by rewrite IH.
Qed.

Lemma append_assoc (s t u : string) : (s +:+ t) +:+ u = s +:+ (t +:+ u).
Proof.
  induction s as [|a s IH]; [done|].
  rewrite !append_cons. by rewrite IH.
Qed.

Lemma append_inj_r (s1 s2 t : string) : s1 +:+ t = s2 +:+ t → s1 = s2.
Proof.
  revert s2. induction s1 as [|a s1 IH]; intros [|b s2] H;
    rewrite ?append_cons, ?append_nil in H.
  - done.
  - apply (f_equal String.length) in H. simpl in H.
    rewrite length_append in H. lia.
  - apply (f_equal String.length) in H. simpl in H.
    rewrite length_append in H. lia.
  - injection H as -> H. f_equal. by apply IH.
Qed.

Lemma colon_split_inj (x x' r r' : string) :
  has_colon x = false → has_colon x' = false →
  x +:+ ":" +:+ r = x' +:+ ":" +:+ r' → x = x' ∧ r = r'.
Proof.
  revert x'. induction x as [|a x IH]; intros [|b x'] Hx Hx' H;
    rewrite ?append_cons, ?append_nil in H; simpl in Hx, Hx'.
  - by injection H as ->.
  - injection H as <- _. by rewrite Ascii.eqb_refl in Hx'.
  - injection H as -> _. by rewrite Ascii.eqb_refl in Hx.
  - injection H as -> H.
    apply orb_false_iff in Hx as [_ Hx]. apply orb_false_iff in Hx' as [_ Hx'].
    destruct (IH x' Hx Hx' H) as [-> ->]. done.
Qed.

End PyStrFacts.

Module MemoryMore.
Import Memory MemoryOps.

Lemma lookup_and_touch_peek m now agent_id key memory_type :
  fst <$> lookup_and_touch m now agent_id key memory_type
  = touch now <$> peek m agent_id key memory_type.
Proof.
  unfold lookup_and_touch, peek.
  repeat case_match; simplify_eq/=; try done;
    repeat match goal with
           | H : _ !! _ = _ |- _ => rewrite H; simpl
           | H : load_longterm_memory _ _ _ = _ |- _ => rewrite H; simpl
           end; done.
Qed.

Lemma peek_with_cache m c agent_id key memory_type :
  peek (with_cache m c) agent_id key memory_type
  = peek m agent_id key memory_type.
Proof. done. Qed.

(** The value [retrieve] returns: a cached payload when there is one,
    otherwise the value of the tier's entry. *)
Lemma retrieve_value m now agent_id key memory_type :
  (retrieve m now agent_id key memory_type).2
  = match cached m agent_id key memory_type with
    | Some (VData p) => VData p
    | _ => match peek m agent_id key memory_type with
           | Some e => MemoryEntry.value e
           | None => VNone
           end
    end.
Proof.
  unfold retrieve, cached.
  destruct (enable_caching m) eqn:Hc.
  - destruct (LRU.get (cache m) (cache_key agent_id memory_type key))
      as [c1 r] eqn:Hg. simpl.
    assert (∀ m1 : Manager,
              peek m1 agent_id key memory_type = peek m agent_id key memory_type →
              (match lookup_and_touch m1 now agent_id key memory_type with
               | Some (e, m2) =>
                   ((if enable_caching m2
                     then with_cache m2
                            (LRU.put (cache m2)
                               (cache_key agent_id memory_type key)
                               (MemoryEntry.value e))
                     else m2), MemoryEntry.value e)
               | None => (m1, VNone)
               end).2
              = match peek m agent_id key memory_type with
                | Some e => MemoryEntry.value e
                | None => VNone
                end) as Hmiss.
    { intros m1 Hp.
      pose proof (lookup_and_touch_peek m1 now agent_id key memory_type) as H.
      rewrite Hp in H.
      destruct (lookup_and_touch m1 now agent_id key memory_type) as [[e m2]|];
        destruct (peek m agent_id key memory_type); simplify_eq/=; done. }
    destruct r as [[|p]|]; simpl; try done; by apply Hmiss.
  - pose proof (lookup_and_touch_peek m now agent_id key memory_type) as H.
    destruct (lookup_and_touch m now agent_id key memory_type) as [[e m2]|];
      destruct (peek m agent_id key memory_type); simplify_eq/=; done.
Qed.

Lemma cached_hit m agent_id key memory_type v :
  enable_caching m = true → LRU.wf (cache m) →
  OrderedDict.get (cache_key agent_id memory_type key) (LRU.cache (cache m))
  = Some v →
  cached m agent_id key memory_type = Some v.
Proof.
  intros Hc Hwf Hg. unfold cached. rewrite Hc.
  by destruct (LRUFacts.get_hit _ _ _ Hwf Hg) as [-> _].
Qed.

Lemma cached_miss m agent_id key memory_type :
  OrderedDict.get (cache_key agent_id memory_type key) (LRU.cache (cache m))
  = None →
  cached m agent_id key memory_type = None.
Proof.
  intros Hg. unfold cached. destruct (enable_caching m); [|done].
  unfold LRU.get, OrderedDict.contains. by rewrite Hg.
Qed.

Section hashing.
Variable md5_hexdigest : string → string.

(** The manager and the cache that a successful [store] leaves. *)
Lemma store_ok m now agent_id key value memory_type tags :
  is_tier memory_type →
  let r := store md5_hexdigest true m now agent_id key value memory_type tags in
  r.2 = true
  ∧ enable_caching r.1 = enable_caching m
  ∧ (∃ e, peek r.1 agent_id key memory_type = Some e
          ∧ MemoryEntry.value e = value
          ∧ MemoryEntry.access_count e = 0%Z
          ∧ MemoryEntry.accessed_at e = now)
  ∧ cache r.1
    = if enable_caching m
      then LRU.put (cache m) (cache_key agent_id memory_type key) value
      else cache m.
Proof.
  intros [-> | [-> | [-> | ->]]]; unfold store, peek; simpl;
    destruct (enable_caching m) eqn:Hc; simpl.
  all: try rewrite Hc.
  all: simpl.
  all: split; [done|]; split; [done|]; split; [|done].
  all: eexists; split;
    [unfold load_longterm_memory; simpl; rewrite lookup_insert_eq; simpl;
     first [reflexivity | by rewrite lookup_insert_eq]
    |done].
Qed.

End hashing.
End MemoryMore.

Module MemoryStoreFacts.
Import Memory MemoryOps.

(** Right after [put c k v] the key is cached with [v] or, when the cache
    has no room at all, not cached. *)
Lemma put_lookup_weak {V} (c : LRU.LRUCache V) k v :
  LRU.wf c →
  OrderedDict.get k (LRU.cache (LRU.put c k v)) = Some v
  ∨ OrderedDict.get k (LRU.cache (LRU.put c k v)) = None.
Proof.
  intros [Hnd Hlen].
  destruct (LRUMore.inserted_spec c k v Hnd) as (Hnd' & _ & Hget & _ & _).
  rewrite LRUMore.put_unfold.
  destruct (Z.of_nat (length (LRUOps.inserted c k v)) >? LRU.capacity c)%Z;
    [|by left].
  destruct (OrderedDict.get k (tail (LRUOps.inserted c k v))) as [v'|] eqn:E;
    [|by right].
  left. rewrite <- Hget, <- E. apply LRUMore.get_tail_ne; [done|].
  apply OrderedDictFacts.get_is_Some_keys. eauto.
Qed.

Lemma wf_capacity {V} (c : LRU.LRUCache V) : LRU.wf c → (0 ≤ LRU.capacity c)%Z.
Proof. intros [_ H]. lia. Qed.

Lemma cached_after_put m c agent_id key memory_type v :
  LRU.wf c →
  let m' := with_cache m (LRU.put c (cache_key agent_id memory_type key) v) in
  cached m' agent_id key memory_type = Some v
  ∨ cached m' agent_id key memory_type = None.
Proof.
  intros Hwf m'.
  destruct (enable_caching m') eqn:Hc; [|right; unfold cached; by rewrite Hc].
  destruct (put_lookup_weak c (cache_key agent_id memory_type key) v Hwf)
    as [Hg|Hg].
  - left. apply MemoryMore.cached_hit; [done| |done].
    apply LRUFacts.wf_put; [by apply wf_capacity|done].
  - right. by apply MemoryMore.cached_miss.
Qed.

Lemma with_cache_same m : with_cache m (cache m) = m.
Proof. by destruct m. Qed.

Section hashing.
Variable md5_hexdigest : string → string.

Lemma cached_after_store m now agent_id key value memory_type tags :
  is_tier memory_type → LRU.wf (cache m) →
  let r := store md5_hexdigest true m now agent_id key value memory_type tags in
  cached r.1 agent_id key memory_type = Some value
  ∨ cached r.1 agent_id key memory_type = None.
Proof.
  intros Ht Hwf r.
  destruct (MemoryMore.store_ok md5_hexdigest m now agent_id key value
              memory_type tags Ht) as (_ & Hen & _ & Hcache).
  fold r in Hen, Hcache.
  destruct (enable_caching m) eqn:Hc;
    [|right; unfold cached; by rewrite Hen].
  destruct (put_lookup_weak (cache m) (cache_key agent_id memory_type key)
              value Hwf) as [Hg|Hg].
  - left. apply MemoryMore.cached_hit; [done| |by rewrite Hcache].
    rewrite Hcache. apply LRUFacts.wf_put; [by apply wf_capacity|done].
  - right. apply MemoryMore.cached_miss. by rewrite Hcache.
Qed.

Lemma retrieve_after_store m now now' agent_id key value memory_type tags :
  is_tier memory_type → LRU.wf (cache m) →
  (retrieve (store md5_hexdigest true m now agent_id key value memory_type tags).1
     now' agent_id key memory_type).2 = value.
Proof.
  intros Ht Hwf.
  destruct (MemoryMore.store_ok md5_hexdigest m now agent_id key value
              memory_type tags Ht) as (_ & _ & (e & Hp & He & _) & _).
  rewrite MemoryMore.retrieve_value.
  destruct (cached_after_store m now agent_id key value memory_type tags Ht Hwf)
    as [-> | ->]; cbv zeta in Hp; rewrite Hp.
  - by destruct value.
  - done.
Qed.

End hashing.
End MemoryStoreFacts.

(** X3.  Round trip through the memory tiers: a value stored in one of
    the four tiers (the file writes succeeding) is the value a retrieve of
    the same agent, key and tier returns next, with or without caching,
    whatever the cache held and however small it is; this includes a
    stored [None]. *)
Theorem store_then_retrieve (md5_hexdigest : string → string)
    (m : Memory.Manager) (now now' agent_id key : string) (value : Memory.Value)
    (memory_type : string) (tags : option (list string)) :
  MemoryOps.is_tier memory_type → LRU.wf (Memory.cache m) →
  let r := Memory.store md5_hexdigest true m now agent_id key value
             memory_type tags in
  r.2 = true
  ∧ (Memory.retrieve r.1 now' agent_id key memory_type).2 = value.
Proof.
  intros Ht Hwf r. split.
  - by destruct (MemoryMore.store_ok md5_hexdigest m now agent_id key value
                   memory_type tags Ht) as (? & _).
  - by apply MemoryStoreFacts.retrieve_after_store.
Qed.

Lemma store_then_retrieve_witness :
  (Memory.retrieve
     (Memory.store id true (Memory.init "s1" true 0 ∅ ∅ []) "10:00"
        "copywriter" "draft" (Memory.VData "v1") "long_term" None).1
     "10:05" "copywriter" "draft" "long_term").2 = Memory.VData "v1".
Proof.
  apply (store_then_retrieve id (Memory.init "s1" true 0 ∅ ∅ []) "10:00" "10:05"
           "copywriter" "draft" (Memory.VData "v1") "long_term" None).
  - right. left. reflexivity.
  - split; simpl; [constructor|lia].
Defined.

(** X4.  A short-term store whose file write fails is not undone: the
    call returns [False], yet the entry is already in the in-memory tier
    and the cache was not touched.  With caching off, the next retrieve
    therefore returns the value whose store failed. *)
Theorem store_failed_write_keeps_entry (md5_hexdigest : string → string)
    (m : Memory.Manager) (now now' agent_id key : string) (value : Memory.Value)
    (tags : option (list string)) :
  let r := Memory.store md5_hexdigest false m now agent_id key value
             "short_term" tags in
  r.2 = false
  ∧ Memory.MemoryEntry.value
      <$> MemoryOps.peek r.1 agent_id key "short_term" = Some value
  ∧ Memory.cache r.1 = Memory.cache m
  ∧ (Memory.enable_caching m = false →
     (Memory.retrieve r.1 now' agent_id key "short_term").2 = value).
Proof.
  intros r.
  assert (MemoryOps.peek r.1 agent_id key "short_term"
          = Some (Memory.MemoryEntry.mk key value "short_term" agent_id
                    (Some (Memory.session_id m)) now now 0 (default [] tags)))
    as Hp.
  { unfold MemoryOps.peek, r, Memory.store. simpl.
    rewrite lookup_insert_eq. simpl. by rewrite lookup_insert_eq. }
  split_and!; [done|by rewrite Hp|done|].
  intros Hc. rewrite MemoryMore.retrieve_value, Hp.
  unfold MemoryOps.cached.
  replace (Memory.enable_caching r.1) with (Memory.enable_caching m) by done.
  by rewrite Hc.
Qed.

Lemma store_failed_write_keeps_entry_witness :
  (Memory.retrieve
     (Memory.store id false (Memory.init "s1" false 10 ∅ ∅ []) "10:00"
        "copywriter" "draft" (Memory.VData "v1") "short_term" None).1
     "10:05" "copywriter" "draft" "short_term").2 = Memory.VData "v1".
Proof.
  by apply (store_failed_write_keeps_entry id
              (Memory.init "s1" false 10 ∅ ∅ []) "10:00" "10:05" "copywriter"
              "draft" (Memory.VData "v1") None).
Defined.

(** X5.  Cache keys are built by joining agent id, tier and key with
    colons, so two different lookups can share a cache slot: with caching
    on and room for one entry, a payload that agent [a] stores under the
    key [mt:k] of tier [mt] is what a retrieve of key [k] by the agent
    named [a:mt] returns from the same tier, although nothing was ever
    stored for that agent. *)
Theorem cache_key_collision_leaks (md5_hexdigest : string → string)
    (m : Memory.Manager) (now now' a mt k payload : string)
    (tags : option (list string)) :
  MemoryOps.is_tier mt → LRU.wf (Memory.cache m) →
  Memory.enable_caching m = true → (1 ≤ LRU.capacity (Memory.cache m))%Z →
  let r := Memory.store md5_hexdigest true m now a (mt +:+ ":" +:+ k)
             (Memory.VData payload) mt tags in
  (Memory.retrieve r.1 now' (a +:+ ":" +:+ mt) k mt).2 = Memory.VData payload.
Proof.
  intros Ht Hwf Hc Hcap r.
  destruct (MemoryMore.store_ok md5_hexdigest m now a (mt +:+ ":" +:+ k)
              (Memory.VData payload) mt tags Ht) as (_ & Hen & _ & Hcache).
  fold r in Hen, Hcache. rewrite Hc in Hen, Hcache.
  assert (Memory.cache_key (a +:+ ":" +:+ mt) mt k
          = Memory.cache_key a mt (mt +:+ ":" +:+ k)) as Hkey.
  { unfold Memory.cache_key. by rewrite !PyStrFacts.append_assoc. }
  rewrite MemoryMore.retrieve_value.
  rewrite (MemoryMore.cached_hit r.1 _ _ _ (Memory.VData payload)); [done|done| |].
  - rewrite Hcache. apply LRUFacts.wf_put; [lia|done].
  - rewrite Hkey, Hcache. by apply LRUMore.put_lookup.
Qed.

Lemma cache_key_collision_leaks_witness :
  (Memory.retrieve
     (Memory.store id true (Memory.init "s1" true 10 ∅ ∅ []) "10:00"
        "writer" "working:plan" (Memory.VData "secret") "working" None).1
     "10:05" "writer:working" "plan" "working").2 = Memory.VData "secret".
Proof.
  apply (cache_key_collision_leaks id (Memory.init "s1" true 10 ∅ ∅ []) "10:00"
           "10:05" "writer" "working" "plan" "secret" None).
  - right. right. left. reflexivity.
  - split; simpl; [constructor|lia].
  - reflexivity.
  - simpl. lia.
Defined.

(** X6.  When agent ids contain no colon, the cache keys of two lookups in
    the memory tiers coincide only if agent, tier and key all coincide: no
    two different lookups share a cache slot. *)
Theorem cache_key_injective (a a' mt mt' k k' : string) :
  PyStrOps.has_colon a = false → PyStrOps.has_colon a' = false →
  MemoryOps.is_tier mt → MemoryOps.is_tier mt' →
  Memory.cache_key a mt k = Memory.cache_key a' mt' k' →
  a = a' ∧ mt = mt' ∧ k = k'.
Proof.
  intros Ha Ha' Ht Ht' H. unfold Memory.cache_key in H.
  apply PyStrFacts.colon_split_inj in H as [-> H]; [|done|done].
  assert (∀ s, MemoryOps.is_tier s → PyStrOps.has_colon s = false) as Hcolon.
  { by intros s [-> | [-> | [-> | ->]]]. }
  apply PyStrFacts.colon_split_inj in H as [-> ->]; auto.
Qed.

Lemma cache_key_injective_witness :
  "writer" = "writer" ∧ "working" = "working" ∧ "plan" = "plan".
Proof.
  apply (cache_key_injective "writer" "writer" "working" "working" "plan"
           "plan"); try reflexivity.
  - right. right. left. reflexivity.
  - right. right. left. reflexivity.
Defined.

Module MemoryCacheFacts.
Import Memory MemoryOps.

(** The key put last is still cached after one more [put], when the
    cache has room for two entries. *)
Lemma put_put_lookup {V} (c : LRU.LRUCache V) k k' v v' :
  LRU.wf c → (2 ≤ LRU.capacity c)%Z → k ≠ k' →
  OrderedDict.get k (LRU.cache (LRU.put (LRU.put c k v) k' v')) = Some v.
Proof.
  intros Hwf Hcap Hne.
  assert (LRU.wf (LRU.put c k v)) as Hwf1
    by (apply LRUFacts.wf_put; [lia|done]).
  destruct (LRUMore.put_lookup c k v Hwf) as [Hget Hlast]; [lia|].
  assert (k ∈ OrderedDict.keys (LRU.cache (LRU.put c k v))) as Hin
    by (apply OrderedDictFacts.get_is_Some_keys; eauto).
  rewrite LRUMore.put_lookup_ne; [done|done|done|].
  apply LRUFacts.put_preserves_key; [done|done|].
  rewrite LRUFacts.capacity_put.
  destruct (decide (2 ≤ length (LRU.cache (LRU.put c k v)))%nat) as [H2|H2].
  - right. rewrite LRUMore.keys_tail. apply LRUMore.last_in_tail; [done|].
    unfold OrderedDict.keys. by rewrite length_fmap.
  - left. lia.
Qed.

End MemoryCacheFacts.

(** X7.  The cache is keyed by the reading agent, also for the shared
    tier, and a store refreshes only the writer's slot.  So with caching
    on and room for two entries: after agent [a] has stored a payload
    under a shared key and another agent [b] has overwritten that key,
    the shared tier holds [b]'s value but a retrieve by [a] still returns
    [a]'s old payload. *)
Theorem shared_overwrite_not_seen_by_cached_reader
    (md5_hexdigest : string → string) (m : Memory.Manager)
    (t1 t2 t3 a b key payload : string) (v2 : Memory.Value)
    (tags1 tags2 : option (list string)) :
  LRU.wf (Memory.cache m) → Memory.enable_caching m = true →
  (2 ≤ LRU.capacity (Memory.cache m))%Z → a ≠ b →
  let m1 := (Memory.store md5_hexdigest true m t1 a key (Memory.VData payload)
               "shared" tags1).1 in
  let m2 := (Memory.store md5_hexdigest true m1 t2 b key v2 "shared" tags2).1 in
  Memory.MemoryEntry.value <$> Memory.shared_memory m2 !! key = Some v2
  ∧ (Memory.retrieve m2 t3 a key "shared").2 = Memory.VData payload.
Proof.
  intros Hwf Hc Hcap Hab m1 m2.
  assert (MemoryOps.is_tier "shared") as Ht by (right; right; by right).
  destruct (MemoryMore.store_ok md5_hexdigest m t1 a key (Memory.VData payload)
              "shared" tags1 Ht) as (_ & Hen1 & _ & Hcache1).
  fold m1 in Hen1, Hcache1. rewrite Hc in Hen1, Hcache1.
  destruct (MemoryMore.store_ok md5_hexdigest m1 t2 b key v2 "shared" tags2 Ht)
    as (_ & Hen2 & (e & Hp & He & _) & Hcache2).
  fold m2 in Hen2, Hcache2, Hp. rewrite Hen1 in Hen2, Hcache2.
  split; [by (change (MemoryOps.peek m2 b key "shared")
                with (Memory.shared_memory m2 !! key) in Hp; rewrite Hp, <- He)|].
  assert (Memory.cache_key a "shared" key ≠ Memory.cache_key b "shared" key)
    as Hne.
  { unfold Memory.cache_key. intros H.
    by apply PyStrFacts.append_inj_r in H. }
  rewrite MemoryMore.retrieve_value.
  rewrite (MemoryMore.cached_hit m2 _ _ _ (Memory.VData payload)); [done|done| |].
  - rewrite Hcache2, Hcache1.
    apply LRUFacts.wf_put; [rewrite LRUFacts.capacity_put; lia|].
    apply LRUFacts.wf_put; [lia|done].
  - rewrite Hcache2, Hcache1. by apply MemoryCacheFacts.put_put_lookup.
Qed.

Lemma shared_overwrite_not_seen_by_cached_reader_witness :
  let m := Memory.init "s1" true 10 ∅ ∅ [] in
  let m1 := (Memory.store id true m "10:00" "researcher" "brief"
               (Memory.VData "v1") "shared" None).1 in
  let m2 := (Memory.store id true m1 "10:01" "copywriter" "brief"
               (Memory.VData "v2") "shared" None).1 in
  Memory.MemoryEntry.value <$> Memory.shared_memory m2 !! "brief"
  = Some (Memory.VData "v2")
  ∧ (Memory.retrieve m2 "10:02" "researcher" "brief" "shared").2
    = Memory.VData "v1".
Proof.
  apply (shared_overwrite_not_seen_by_cached_reader id
           (Memory.init "s1" true 10 ∅ ∅ []) "10:00" "10:01" "10:02"
           "researcher" "copywriter" "brief" "v1" (Memory.VData "v2") None None).
  - split; simpl; [constructor|lia].
  - reflexivity.
  - simpl. lia.
  - discriminate.
Defined.

(** X8.  [clear_session_memory] ends the session: afterwards a retrieve
    from the short-term or the working tier returns [None] for every agent
    and key, while the shared and long-term tiers answer from their stored
    entries, and the campaign templates are kept. *)
Theorem clear_session_memory_forgets_session_tiers (m : Memory.Manager)
    (now agent_id key : string) :
  let m' := MemoryOps.clear_session_memory m in
  (Memory.retrieve m' now agent_id key "short_term").2 = Memory.VNone
  ∧ (Memory.retrieve m' now agent_id key "working").2 = Memory.VNone
  ∧ (Memory.retrieve m' now agent_id key "shared").2
    = default Memory.VNone
        (Memory.MemoryEntry.value <$> Memory.shared_memory m !! key)
  ∧ (Memory.retrieve m' now agent_id key "long_term").2
    = default Memory.VNone
        (Memory.MemoryEntry.value
           <$> Memory.load_longterm_memory m agent_id key)
  ∧ Memory.templates_index m' = Memory.templates_index m.
Proof.
  intros m'.
  assert (∀ mt, MemoryOps.cached m' agent_id key mt = None) as Hc.
  { intros mt. unfold MemoryOps.cached, m', MemoryOps.clear_session_memory.
    simpl. by destruct (Memory.enable_caching m) eqn:E; simpl; rewrite ?E. }
  assert (Memory.short_term_memory m' = ∅ ∧ Memory.working_memory m' = ∅
          ∧ Memory.shared_memory m' = Memory.shared_memory m
          ∧ Memory.longterm_index m' = Memory.longterm_index m
          ∧ Memory.longterm_files m' = Memory.longterm_files m
          ∧ Memory.templates_index m' = Memory.templates_index m)
    as (Hs & Hw & Hsh & Hli & Hlf & Hti).
  { unfold m', MemoryOps.clear_session_memory. simpl.
    by destruct (Memory.enable_caching m). }
  rewrite !MemoryMore.retrieve_value, !Hc.
  unfold MemoryOps.peek, Memory.load_longterm_memory. simpl.
  rewrite Hs, Hw, Hsh, Hli, Hlf, !lookup_empty. simpl.
  split_and!; try done.
  - by destruct (Memory.shared_memory m !! key).
  - by repeat case_match.
Qed.

(** X9.  [clear_working_memory] empties the agent's working tier but
    leaves the cache alone: with caching on and room for one entry, a
    payload stored in the working tier is still returned by retrieve
    after the tier has been cleared. *)
Theorem clear_working_memory_keeps_cached_value
    (md5_hexdigest : string → string) (m : Memory.Manager)
    (now now' agent_id key payload : string) (tags : option (list string)) :
  LRU.wf (Memory.cache m) → Memory.enable_caching m = true →
  (1 ≤ LRU.capacity (Memory.cache m))%Z →
  let m1 := (Memory.store md5_hexdigest true m now agent_id key
               (Memory.VData payload) "working" tags).1 in
  let m2 := MemoryOps.clear_working_memory m1 agent_id in
  Memory.working_memory m2 !! agent_id = Some ∅
  ∧ (Memory.retrieve m2 now' agent_id key "working").2 = Memory.VData payload.
Proof.
  intros Hwf Hc Hcap m1 m2.
  assert (MemoryOps.is_tier "working") as Ht by (right; right; by left).
  destruct (MemoryMore.store_ok md5_hexdigest m now agent_id key
              (Memory.VData payload) "working" tags Ht)
    as (_ & Hen1 & _ & Hcache1).
  fold m1 in Hen1, Hcache1. rewrite Hc in Hen1, Hcache1.
  assert (is_Some (Memory.working_memory m1 !! agent_id)) as [es Hes].
  { unfold m1, Memory.store. simpl. rewrite Hc. simpl.
    rewrite lookup_insert_eq. eauto. }
  assert (m2 = Memory.with_working m1
                 (<[agent_id := ∅]> (Memory.working_memory m1))) as Hm2.
  { unfold m2, MemoryOps.clear_working_memory. by rewrite Hes. }
  split; [rewrite Hm2; simpl; by rewrite lookup_insert_eq|].
  rewrite MemoryMore.retrieve_value.
  rewrite (MemoryMore.cached_hit m2 _ _ _ (Memory.VData payload)); [done| | |].
  - by rewrite Hm2.
  - rewrite Hm2. simpl. rewrite Hcache1. apply LRUFacts.wf_put; [lia|done].
  - rewrite Hm2. simpl. rewrite Hcache1. by apply LRUMore.put_lookup.
Qed.

Lemma clear_working_memory_keeps_cached_value_witness :
  let m1 := (Memory.store id true (Memory.init "s1" true 10 ∅ ∅ []) "10:00"
               "planner" "step" (Memory.VData "draft") "working" None).1 in
  let m2 := MemoryOps.clear_working_memory m1 "planner" in
  Memory.working_memory m2 !! "planner" = Some ∅
  ∧ (Memory.retrieve m2 "10:05" "planner" "step" "working").2
    = Memory.VData "draft".
Proof.
  apply (clear_working_memory_keeps_cached_value id
           (Memory.init "s1" true 10 ∅ ∅ []) "10:00" "10:05" "planner" "step"
           "draft" None).
  - split; simpl; [constructor|lia].
  - reflexivity.
  - simpl. lia.
Defined.

Module SimilarityFacts.
Import Memory MemoryOps.

Lemma ratio_bounds n d : (n ≤ d)%nat → (0 <= ratio n d)%Q ∧ (ratio n d <= 1)%Q.
Proof.
  intros H. unfold ratio. destruct d as [|d].
  - assert (n = 0)%nat as -> by lia. by split.
  - split.
    + apply Qle_shift_div_l; [unfold Qlt; simpl; lia|].
      rewrite Qmult_0_l. unfold Qle. simpl. lia.
    + apply Qle_shift_div_r; [unfold Qlt; simpl; lia|].
      rewrite Qmult_1_l. rewrite <- Zle_Qle. lia.
Qed.

Lemma size_list_to_set_le (l : list string) :
  (size (list_to_set l : gset string) ≤ length l)%nat.
Proof.
  induction l as [|x l IH].
  - by rewrite list_to_set_nil, size_empty.
  - rewrite list_to_set_cons, size_union_alt, size_singleton. simpl.
    assert (size ((list_to_set l : gset string) ∖ {[x]})
            ≤ size (list_to_set l : gset string))%nat
      by (apply subseteq_size; set_solver).
    lia.
Qed.

Lemma keyword_overlap_le a b :
  (keyword_overlap a b ≤ max (length a) (length b))%nat.
Proof.
  unfold keyword_overlap.
  assert (size ((list_to_set a : gset string) ∩ list_to_set b)
          ≤ size (list_to_set a : gset string))%nat
    by (apply subseteq_size; set_solver).
  pose proof (size_list_to_set_le a). lia.
Qed.

Lemma category_term_bounds category t :
  (0 <= category_term category t)%Q ∧ (category_term category t <= 0.4)%Q.
Proof.
  unfold category_term. destruct category as [c|]; [|split; lra].
  case_match; split; lra.
Qed.

Lemma keyword_term_bounds keywords t :
  (0 <= keyword_term keywords t)%Q ∧ (keyword_term keywords t <= 0.4)%Q.
Proof.
  unfold keyword_term.
  destruct (ratio_bounds _ _
              (keyword_overlap_le (default [] keywords)
                 (CampaignTemplate.keywords t))) as [H0 H1].
  split; lra.
Qed.

Lemma audience_term_bounds target_audience t :
  (0 <= audience_term target_audience t)%Q
  ∧ (audience_term target_audience t <= 0.2)%Q.
Proof.
  unfold audience_term. cbv zeta.
  set (a := words (default "" target_audience)).
  set (b := words (CampaignTemplate.target_audience t)).
  assert (size (a ∩ b) ≤ max (size a) (size b))%nat as Hle.
  { assert (size (a ∩ b) ≤ size a)%nat by (apply subseteq_size; set_solver).
    lia. }
  destruct (ratio_bounds _ _ Hle) as [H0 H1]. split; lra.
Qed.

Lemma similarity_range category keywords target_audience t :
  (0 <= similarity category keywords target_audience t)%Q
  ∧ (similarity category keywords target_audience t <= 1)%Q.
Proof.
  rewrite MemoryFacts.similarity_meets_spec. unfold similarity_spec.
  destruct (category_term_bounds category t).
  destruct (keyword_term_bounds keywords t).
  destruct (audience_term_bounds target_audience t).
  split; lra.
Qed.

Lemma slice_to_all {A} (n : Z) (l : list A) :
  (Z.of_nat (length l) ≤ n)%Z → slice_to n l = l.
Proof.
  intros H. unfold slice_to.
  destruct (Z.leb_spec 0 n); [|lia]. apply take_ge. lia.
Qed.

Lemma length_score_templates category keywords target_audience minq ts :
  (length (score_templates category keywords target_audience minq ts)
   ≤ length ts)%nat.
Proof.
  induction ts as [|t ts IH]; simpl; [done|].
  repeat case_match; simpl; lia.
Qed.

Lemma elem_of_values_get {V} k (v : V) d :
  OrderedDict.get k d = Some v → v ∈ OrderedDict.values d.
Proof.
  intros H%OrderedDictFacts.get_Some_elem_of.
  unfold OrderedDict.values. apply list_elem_of_fmap. by exists (k, v).
Qed.

(** The ranked list before the final slice. *)
Lemma ranking_elem_of category keywords target_audience minq ts t s :
  (t, s) ∈ PySort.sort_desc rank_lt
             (score_templates category keywords target_audience minq ts) ↔
  t ∈ ts ∧ ¬ (CampaignTemplate.quality_score t < minq)%Q
  ∧ s = similarity category keywords target_audience t ∧ (0 < s)%Q.
Proof.
  rewrite PySortFacts.sort_desc_perm. apply MemoryFacts.score_templates_spec.
Qed.

Lemma ranking_sorted category keywords target_audience minq ts :
  StronglySorted (PySort.ge rank_lt)
    (PySort.sort_desc rank_lt
       (score_templates category keywords target_audience minq ts)).
Proof.
  apply PySortFacts.sort_desc_sorted.
  - intros x y. apply MemoryFacts.key_lt_asym.
  - intros x y z. apply MemoryFacts.key_ge_trans.
Qed.

Lemma category_term_match c t :
  c ≠ "" → PyStr.lower (CampaignTemplate.category t) = PyStr.lower c →
  category_term (Some c) t = 0.4%Q.
Proof.
  intros Hc Hl. unfold category_term. rewrite Hl, String.eqb_refl.
  destruct (String.eqb_spec c ""); done.
Qed.

End SimilarityFacts.

(** X10.  The similarity score of a stored template is a number between
    0 and 1, for every query and every template. *)
Theorem similarity_between_0_and_1 (category : option string)
    (keywords : option (list string)) (target_audience : option string)
    (t : Memory.CampaignTemplate.t) :
  (0 <= Memory.similarity category keywords target_audience t)%Q
  ∧ (Memory.similarity category keywords target_audience t <= 1)%Q.
Proof. apply SimilarityFacts.similarity_range. Qed.

(** X11.  A saved campaign can be found again: after
    [save_campaign_template] with a non-empty category, a search for that
    category whose quality threshold the saved score meets and whose limit
    exceeds the number of templates stored before returns the saved
    template, with a similarity of at least 0.4, whatever keywords and
    audience the query names. *)
Theorem saved_template_is_found (md5_hexdigest : string → string)
    (m : Memory.Manager) (now product_name category : string) (quality_score : Q)
    (target_audience : string) (keywords : list string)
    (listing_structure social_strategy success_metrics : string)
    (tags : option (list string)) (query_keywords : option (list string))
    (query_audience : option string) (min_quality_score : Q) (limit : Z) :
  category ≠ "" → (min_quality_score <= quality_score)%Q →
  (Z.of_nat (length (Memory.templates_index m)) < limit)%Z →
  let r := Memory.save_campaign_template md5_hexdigest m now product_name
             category quality_score target_audience keywords listing_structure
             social_strategy success_metrics tags in
  ∃ t s,
    (t, s) ∈ Memory.find_similar_campaigns r.1 (Some category) query_keywords
               query_audience min_quality_score limit
    ∧ Memory.CampaignTemplate.template_id t = r.2
    ∧ Memory.CampaignTemplate.product_name t = product_name
    ∧ Memory.CampaignTemplate.quality_score t = quality_score
    ∧ (0.4 <= s)%Q.
Proof.
  intros Hcat Hq Hlimit r.
  set (t := Memory.CampaignTemplate.mk r.2 product_name category quality_score
              now (Memory.session_id m) target_audience keywords
              listing_structure social_strategy success_metrics
              (default [] tags)).
  assert (Memory.templates_index r.1
          = OrderedDict.set r.2 t (Memory.templates_index m)) as Hix by done.
  exists t, (Memory.similarity (Some category) query_keywords query_audience t).
  assert (0.4 <= Memory.similarity (Some category) query_keywords
                   query_audience t)%Q as Hsim.
  { rewrite MemoryFacts.similarity_meets_spec. unfold Memory.similarity_spec.
    rewrite (SimilarityFacts.category_term_match category t) by done.
    destruct (SimilarityFacts.keyword_term_bounds query_keywords t).
    destruct (SimilarityFacts.audience_term_bounds query_audience t). lra. }
  split_and!; try done.
  unfold Memory.find_similar_campaigns.
  rewrite SimilarityFacts.slice_to_all.
  - apply SimilarityFacts.ranking_elem_of. split_and!; [|simpl; lra|done|lra].
    rewrite Hix. apply (SimilarityFacts.elem_of_values_get r.2).
    apply OrderedDictFacts.get_set_eq.
  - rewrite PySortFacts.sort_desc_perm.
    pose proof (SimilarityFacts.length_score_templates (Some category)
                  query_keywords query_audience min_quality_score
                  (OrderedDict.values (Memory.templates_index r.1))) as Hl.
    unfold OrderedDict.values in Hl. rewrite length_fmap in Hl.
    assert (length (Memory.templates_index r.1)
            ≤ S (length (Memory.templates_index m)))%nat as Hs.
    { rewrite Hix, OrderedDictFacts.length_set.
      destruct (OrderedDict.contains r.2 (Memory.templates_index m)); lia. }
    unfold OrderedDict.values. lia.
Qed.

Lemma saved_template_is_found_witness :
  ∃ t s,
    (t, s) ∈ Memory.find_similar_campaigns
               (Memory.save_campaign_template id (Memory.init "s1" true 10 ∅ ∅ [])
                  "10:00" "SmartHub" "Smart Home" 90 "Homeowners" ["hub"] "" ""
                  "" None).1
               (Some "Smart Home") None None 85 5
    ∧ Memory.CampaignTemplate.template_id t
      = (Memory.save_campaign_template id (Memory.init "s1" true 10 ∅ ∅ [])
           "10:00" "SmartHub" "Smart Home" 90 "Homeowners" ["hub"] "" "" ""
           None).2
    ∧ Memory.CampaignTemplate.product_name t = "SmartHub"
    ∧ Memory.CampaignTemplate.quality_score t = 90%Q
    ∧ (0.4 <= s)%Q.
Proof.
  apply (saved_template_is_found id (Memory.init "s1" true 10 ∅ ∅ []) "10:00"
           "SmartHub" "Smart Home" 90 "Homeowners" ["hub"] "" "" "" None None
           None 85 5).
  - discriminate.
  - unfold Qle. simpl. lia.
  - simpl. lia.
Defined.

(** X12.  Saving a campaign again for the same product and category in
    the same session replaces the stored template instead of adding one:
    both calls return the same id, the index keeps its size, and the id
    now leads to the template of the second call. *)
Theorem save_campaign_template_twice_replaces (md5_hexdigest : string → string)
    (m : Memory.Manager) (product_name category : string)
    (now1 now2 : string) (q1 q2 : Q) (ta1 ta2 : string) (kw1 kw2 : list string)
    (ls1 ls2 ss1 ss2 sm1 sm2 : string) (tags1 tags2 : option (list string)) :
  let r1 := Memory.save_campaign_template md5_hexdigest m now1 product_name
              category q1 ta1 kw1 ls1 ss1 sm1 tags1 in
  let r2 := Memory.save_campaign_template md5_hexdigest r1.1 now2 product_name
              category q2 ta2 kw2 ls2 ss2 sm2 tags2 in
  r2.2 = r1.2
  ∧ length (Memory.templates_index r2.1) = length (Memory.templates_index r1.1)
  ∧ OrderedDict.keys (Memory.templates_index r2.1)
    = OrderedDict.keys (Memory.templates_index r1.1)
  ∧ OrderedDict.get r1.2 (Memory.templates_index r2.1)
    = Some (Memory.CampaignTemplate.mk r1.2 product_name category q2 now2
              (Memory.session_id m) ta2 kw2 ls2 ss2 sm2 (default [] tags2)).
Proof.
  intros r1 r2.
  assert (r1.2 ∈ OrderedDict.keys (Memory.templates_index r1.1)) as Hin.
  { apply OrderedDictFacts.get_is_Some_keys. unfold r1. simpl.
    rewrite OrderedDictFacts.get_set_eq. eauto. }
  split_and!.
  - done.
  - unfold r2 at 1. simpl. rewrite OrderedDictFacts.length_set.
    apply OrderedDictFacts.contains_keys in Hin.
    by replace (OrderedDict.contains _ (Memory.templates_index r1.1)) with true.
  - unfold r2 at 1. simpl. by rewrite OrderedDictFacts.keys_set_present.
  - unfold r2. simpl. apply OrderedDictFacts.get_set_eq.
Qed.

Module SuggestionFacts.
Import CampaignSearch.
Section order.
Context {A : Type} (lt : A → A → bool).

(** The head of the sorted list: no element is above it, and among the
    elements tied with it, it comes first in the input. *)
Lemma sort_desc_head l x rest :
  PySortOrder.consistent lt l = true →
  PySort.sort_desc lt l = x :: rest →
  x ∈ l
  ∧ (∀ y, y ∈ l → lt x y = false)
  ∧ head (List.filter (PySortOrder.tied lt x) l) = Some x.
Proof.
  intros Hc Hs.
  destruct (PySortOrderFacts.sort_desc_consistent lt l Hc)
    as (Hperm & Hsorted & Hstable).
  destruct (PySortOrderFacts.consistent_spec lt l Hc) as [Hasym _].
  rewrite Hs in Hperm, Hsorted, Hstable.
  assert (x ∈ l) as Hx by (rewrite <- Hperm; left).
  assert (lt x x = false) as Hirr.
  { destruct (lt x x) eqn:E; [|done]. by rewrite (Hasym x x Hx Hx E) in E. }
  split_and!; [done| |].
  - intros y Hy. rewrite <- Hperm in Hy.
    apply elem_of_cons in Hy as [->|Hy]; [done|].
    apply StronglySorted_inv in Hsorted as [_ Hhd].
    rewrite Forall_forall in Hhd. by apply Hhd.
  - rewrite <- (Hstable x Hx). cbn [List.filter].
    unfold PySortOrder.tied at 1. by rewrite Hirr.
Qed.

End order.
End SuggestionFacts.

(** X13.  [get_learning_suggestions] answers from the best stored match.
    When the comparisons among the scores are consistent (no NaN), it
    returns [None] exactly when no stored template with a quality score
    not below 85 has a positive similarity to the product; otherwise the
    suggestion is built from such a template: one that no other
    qualifying template is above in the order on
    (similarity, quality score) as the code computes them in floating
    point, the first in the index among those tied with it, and it
    suggests the first ten keywords of that template. *)
Theorem get_learning_suggestions_best_match (str_lower : string → string)
    (str_split : string → list string)
    (templates_index : OrderedDict.t CampaignSearch.CampaignTemplate.t)
    (category : option string) (keywords : list string)
    (target_audience : option string) :
  let qualifying :=
    CampaignSearch.qualifying str_lower str_split templates_index category
      (Some keywords) target_audience CampaignSearch.min_quality_85 in
  PySortOrder.consistent CampaignSearch.rank_lt qualifying = true →
  match CampaignSearch.get_learning_suggestions str_lower str_split
          templates_index category keywords target_audience with
  | None => qualifying = []
  | Some s =>
      ∃ t sim,
        (t, sim) ∈ qualifying
        ∧ (∀ x, x ∈ qualifying → CampaignSearch.rank_lt (t, sim) x = false)
        ∧ head (List.filter
                  (PySortOrder.tied CampaignSearch.rank_lt (t, sim)) qualifying)
          = Some (t, sim)
        ∧ CampaignSearch.found_similar_campaign s = true
        ∧ CampaignSearch.similarity_score s = sim
        ∧ CampaignSearch.template_id s
          = CampaignSearch.CampaignTemplate.template_id t
        ∧ CampaignSearch.reference_product_name s
          = CampaignSearch.CampaignTemplate.product_name t
        ∧ CampaignSearch.reference_quality_score s
          = CampaignSearch.CampaignTemplate.quality_score t
        ∧ CampaignSearch.suggested_keywords s
          = take 10 (CampaignSearch.CampaignTemplate.keywords t)
  end.
Proof.
  intros qualifying Hc.
  unfold CampaignSearch.get_learning_suggestions,
    CampaignSearch.find_similar_campaigns.
  rewrite CampaignSearchFacts.score_templates_qualifying. fold qualifying.
  destruct (PySort.sort_desc CampaignSearch.rank_lt qualifying)
    as [|[t sim] rest] eqn:Hs.
  - simpl. symmetry. apply Permutation_nil_l.
    rewrite <- Hs. apply PySortFacts.sort_desc_perm.
  - simpl.
    destruct (SuggestionFacts.sort_desc_head CampaignSearch.rank_lt qualifying
                (t, sim) rest Hc Hs) as (Hin & Hbest & Hfirst).
    exists t, sim. split_and!; done.
Qed.

Lemma get_learning_suggestions_best_match_witness :
  is_Some
    (CampaignSearch.get_learning_suggestions PyStr.lower PyStr.split
       (CampaignSearch.index_of
          [CampaignSearch.template_partial; CampaignSearch.template_audience])
       (Some "smart home") ["smart hub"; "voice"; "wifi"]
       (Some "Tech savvy homeowners")).
Proof.
  pose proof (get_learning_suggestions_best_match PyStr.lower PyStr.split
                (CampaignSearch.index_of
                   [CampaignSearch.template_partial;
                    CampaignSearch.template_audience])
                (Some "smart home") ["smart hub"; "voice"; "wifi"]
                (Some "Tech savvy homeowners")) as H.
  cbv zeta in H.
  assert (PySortOrder.consistent CampaignSearch.rank_lt
            (CampaignSearch.qualifying PyStr.lower PyStr.split
               (CampaignSearch.index_of
                  [CampaignSearch.template_partial;
                   CampaignSearch.template_audience])
               (Some "smart home") (Some ["smart hub"; "voice"; "wifi"])
               (Some "Tech savvy homeowners") CampaignSearch.min_quality_85)
          = true) as Hc by (vm_compute; reflexivity).
  specialize (H Hc).
  destruct (CampaignSearch.get_learning_suggestions _ _ _ _ _ _) as [s|];
    [by exists s|].
  vm_compute in H. discriminate H.
Defined.

Module CampaignSearchExamples.
Import PrimInt63 PrimFloat.
Import CampaignSearch.

(** Scores are rounded as in Python: [0.4 + 0.4 * (1 / 3) + 0.2 * (1 / 3)]
    is [0.6] and [0.4 + 0.2 * (3 / 3)] is [0.6000000000000001], so the
    second template is ranked first although its quality score is
    lower. *)
Example float_scores_rank_as_in_python :
  (λ x : CampaignTemplate.t * float, (CampaignTemplate.template_id x.1, x.2))
  <$> find_similar_campaigns PyStr.lower PyStr.split
        (index_of [template_partial; template_audience])
        (Some "smart home") (Some ["smart hub"; "voice"; "wifi"])
        (Some "Tech savvy homeowners") min_quality_85 5
  = [("t2", 0.6000000000000001%float); ("t1", 0.6%float)].
Proof. vm_compute. reflexivity. Qed.

Example suggestion_follows_float_ranking :
  template_id
  <$> get_learning_suggestions PyStr.lower PyStr.split
        (index_of [template_partial; template_audience])
        (Some "smart home") ["smart hub"; "voice"; "wifi"]
        (Some "Tech savvy homeowners")
  = Some "t2".
Proof. vm_compute. reflexivity. Qed.

End CampaignSearchExamples.

Module StateTrackerMore.
Import StateTracker StateTrackerOps.

Lemma elem_of_set {V} k (v : V) d kv :
  kv ∈ OrderedDict.set k v d → kv = (k, v) ∨ kv ∈ d.
Proof.
  induction d as [|[k' v'] d IH]; simpl.
  - intros ->%list_elem_of_singleton. by left.
  - case_decide.
    + intros [->|H']%elem_of_cons; [by left|]. right. by right.
    + intros [->|H']%elem_of_cons; [right; left|].
      destruct (IH H') as [->|?]; [by left|]. right. by right.
Qed.

Lemma keys_set_iff {V} k (v : V) d k' :
  k' ∈ OrderedDict.keys (OrderedDict.set k v d)
  ↔ k' = k ∨ k' ∈ OrderedDict.keys d.
Proof.
  rewrite <- !OrderedDictFacts.get_is_Some_keys.
  destruct (decide (k = k')) as [->|Hne].
  - rewrite OrderedDictFacts.get_set_eq. split; eauto.
  - rewrite OrderedDictFacts.get_set_ne by done. split; [eauto|].
    by intros [->|?].
Qed.

Lemma elem_of_update_task t f st k x :
  (k, x) ∈ tasks (update_task t f st) →
  (k, x) ∈ tasks st ∨ (k = t ∧ ∃ x0, (t, x0) ∈ tasks st ∧ x = f x0).
Proof.
  unfold update_task. destruct (OrderedDict.get t (tasks st)) as [x0|] eqn:E;
    [|by left].
  simpl. intros [[= -> ->]|H]%elem_of_set; [|by left].
  right. split; [done|]. exists x0. split; [|done].
  by apply OrderedDictFacts.get_Some_elem_of.
Qed.

Lemma keys_update_task t f st :
  OrderedDict.keys (tasks (update_task t f st)) = OrderedDict.keys (tasks st).
Proof.
  unfold update_task. destruct (OrderedDict.get t (tasks st)) as [x0|] eqn:E;
    [|done].
  simpl. apply OrderedDictFacts.keys_set_present.
  apply OrderedDictFacts.get_is_Some_keys. eauto.
Qed.

Lemma dependencies_update_task t f st :
  dependencies (update_task t f st) = dependencies st.
Proof. unfold update_task. by destruct (OrderedDict.get t (tasks st)). Qed.

Lemma execution_order_update_task t f st :
  execution_order (update_task t f st) = execution_order st.
Proof. unfold update_task. by destruct (OrderedDict.get t (tasks st)). Qed.

Lemma get_update_task_eq t f st :
  OrderedDict.get t (tasks (update_task t f st))
  = f <$> OrderedDict.get t (tasks st).
Proof.
  unfold update_task. destruct (OrderedDict.get t (tasks st)) as [x0|] eqn:E;
    simpl; [|by rewrite E].
  apply OrderedDictFacts.get_set_eq.
Qed.

Lemma get_update_task_ne t t' f st :
  t ≠ t' →
  OrderedDict.get t' (tasks (update_task t f st))
  = OrderedDict.get t' (tasks st).
Proof.
  intros Hne. unfold update_task.
  destruct (OrderedDict.get t (tasks st)) as [x0|] eqn:E; simpl; [|done].
  by apply OrderedDictFacts.get_set_ne.
Qed.

Lemma set_set {V} k (v v' : V) d :
  OrderedDict.set k v (OrderedDict.set k v' d) = OrderedDict.set k v d.
Proof.
  induction d as [|[k0 v0] d IH]; simpl.
  - by case_decide.
  - case_decide; simpl; case_decide; try done. by rewrite IH.
Qed.

Lemma tasks_update_task_twice t f g st :
  tasks (update_task t g (update_task t f st))
  = tasks (update_task t (g ∘ f) st).
Proof.
  unfold update_task at 1. rewrite get_update_task_eq. unfold update_task.
  destruct (OrderedDict.get t (tasks st)) as [x|] eqn:E; simpl; [|done].
  apply set_set.
Qed.

(** Every operation other than [register_task] leaves the tracker as it
    is or rewrites one registered task in place. *)
Lemma step_cases st o :
  (∃ t n ds, o = RegisterTask t n ds)
  ∨ step st o = st
  ∨ ∃ t f extra,
      tasks (step st o) = tasks (update_task t f st)
      ∧ dependencies (step st o) = dependencies st
      ∧ execution_order (step st o) = execution_order st ++ extra
      ∧ t ∈ OrderedDict.keys (tasks st)
      ∧ (∀ x, id (f x) = id x)
      ∧ (∀ x, status (f x) ≠ SKIPPED)
      ∧ ((o = RetryTask t ∧ ∀ x, retry_count (f x) = (retry_count x + 1)%Z)
         ∨ ((∀ t', o ≠ RetryTask t')
            ∧ ∀ x, retry_count (f x) = retry_count x))
      ∧ (∀ k, k ∈ extra → k = t).
Proof.
  destruct o as [t n ds|now t|now t r|now t e|t]; [left; eauto|right..]; simpl;
    unfold start_task, complete_task, fail_task, retry_task;
    (destruct (OrderedDict.contains t (tasks st)) eqn:Hc; [right|by left]);
    apply OrderedDictFacts.contains_keys in Hc.
  - eexists t, _, [t]. simpl. rewrite tasks_update_task_twice.
    rewrite !dependencies_update_task, !execution_order_update_task.
    split_and!; try done.
    + right. by split.
    + by intros k ->%list_elem_of_singleton.
  - eexists t, _, []. rewrite dependencies_update_task,
      execution_order_update_task, app_nil_r.
    split_and!; try done.
    + right. by split.
    + by intros k ?%elem_of_nil.
  - eexists t, _, []. rewrite dependencies_update_task,
      execution_order_update_task, app_nil_r.
    split_and!; try done.
    + right. by split.
    + by intros k ?%elem_of_nil.
  - eexists t, _, []. rewrite dependencies_update_task,
      execution_order_update_task, app_nil_r.
    split_and!; try done.
    + left. by split.
    + by intros k ?%elem_of_nil.
Qed.

Lemma tracker_run_snoc ops o : run (ops ++ [o]) = step (run ops) o.
Proof. unfold run. by rewrite fold_left_app. Qed.

Lemma retries_of_snoc t ops o :
  retries_of t (ops ++ [o])
  = (retries_of t ops
     + match o with
       | RetryTask t' => if bool_decide (t' = t) then 1 else 0
       | _ => 0
       end)%nat.
Proof.
  unfold retries_of. rewrite List.filter_app, length_app. f_equal.
  simpl. destruct o as [| | | |t']; simpl; try done. by case_bool_decide.
Qed.

(** A task's retry count never exceeds the number of [retry_task] calls
    made for it. *)
Lemma retry_count_le ops k x :
  (k, x) ∈ tasks (run ops) →
  (0 ≤ retry_count x ≤ Z.of_nat (retries_of k ops))%Z.
Proof.
  revert k x. induction ops as [|o ops IH] using rev_ind; intros k x.
  - by intros ?%elem_of_nil.
  - rewrite tracker_run_snoc, retries_of_snoc.
    destruct (step_cases (run ops) o)
      as [(t & n & ds & ->)|[->|(t & f & extra & Ht & _ & _ & _ & _ & _ & Hr & _)]].
    + simpl.
      intros [[= -> ->]|H]%elem_of_set; simpl; [lia|].
      apply IH in H. lia.
    + intros H%IH. lia.
    + rewrite Ht. intros [H|(-> & x0 & H & ->)]%elem_of_update_task.
      * apply IH in H. lia.
      * apply IH in H. destruct Hr as [[-> Hr]|[Hne Hr]]; rewrite Hr.
        -- rewrite bool_decide_eq_true_2 by done. lia.
        -- lia.
Qed.

(** Reachable trackers are well formed. *)
Lemma tracker_wf_run ops : wf (run ops).
Proof.
  induction ops as [|o ops IH] using rev_ind.
  - split_and!.
    + apply NoDup_nil_2.
    + intros k. split; [by intros ?%elem_of_nil|].
      unfold run. simpl. rewrite lookup_empty. by intros [? ?].
    + by intros k ?%elem_of_nil.
    + by intros k x ?%elem_of_nil.
  - rewrite tracker_run_snoc. destruct IH as (Hnd & Hdeps & Hexec & Htask).
    destruct (step_cases (run ops) o)
      as [(t & n & ds & ->)
         |[->|(t & f & extra & Ht & Hd & He & Hin & Hid & Hst & _ & Hex)]].
    + simpl. split_and!; simpl.
      * by apply OrderedDictFacts.NoDup_keys_set.
      * intros k. rewrite keys_set_iff, Hdeps.
        destruct (decide (k = t)) as [->|Hne].
        -- rewrite lookup_insert_eq. split; eauto.
        -- rewrite lookup_insert_ne by done. split; [by intros [?|?]|eauto].
      * intros k Hk. apply keys_set_iff. right. by apply Hexec.
      * intros k x [[= -> ->]|H]%elem_of_set; [done|]. by apply Htask.
    + done.
    + split_and!.
      * rewrite Ht. by apply StateTrackerFacts.NoDup_keys_update_task.
      * intros k. by rewrite Ht, Hd, keys_update_task.
      * intros k. rewrite He, Ht, keys_update_task.
        intros [?|Hk]%elem_of_app; [by apply Hexec|].
        by rewrite (Hex k Hk).
      * intros k x. rewrite Ht.
        intros [H|(-> & x0 & H & ->)]%elem_of_update_task; [by apply Htask|].
        rewrite Hid. split; [by apply (Htask t x0)|apply Hst].
Qed.

End StateTrackerMore.


Module StateTrackerQueries.
Import StateTracker StateTrackerOps.

Lemma elem_of_get {V} k (v : V) d :
  NoDup (OrderedDict.keys d) → (k, v) ∈ d → OrderedDict.get k d = Some v.
Proof.
  induction d as [|[k' v'] d IH]; simpl.
  - by intros _ ?%elem_of_nil.
  - unfold OrderedDict.keys. simpl. rewrite NoDup_cons. intros [Hk' Hnd].
    intros [[= -> ->]|Hin]%elem_of_cons; [by case_decide|].
    case_decide as Hk; [|by apply IH]. subst k'. exfalso. apply Hk'.
    apply list_elem_of_fmap. by exists (k, v).
Qed.

Lemma count_partition (l : list Task) :
  Forall (λ x, status x ≠ SKIPPED) l →
  (length (List.filter (λ t, bool_decide (status t = COMPLETED)) l)
   + length (List.filter (λ t, bool_decide (status t = FAILED)) l)
   + length (List.filter (λ t, bool_decide (status t = RUNNING)) l)
   + length (List.filter (λ t, bool_decide (status t = PENDING)) l)
   = length l)%nat.
Proof.
  induction 1 as [|x l Hx _ IH]; simpl; [done|].
  destruct (status x); simpl; try done; lia.
Qed.

Lemma length_filter_le {A} (f : A → bool) l :
  (length (List.filter f l) ≤ length l)%nat.
Proof. induction l as [|x l IH]; simpl; [done|]. destruct (f x); simpl; lia. Qed.

Lemma Qpercentage_bounds (a b : Q) :
  (0 <= a)%Q → (a <= b)%Q → (0 < b)%Q →
  (0 <= a / b * 100)%Q ∧ (a / b * 100 <= 100)%Q
  ∧ ((a / b * 100 == 100)%Q → (a == b)%Q).
Proof.
  intros Ha Hab Hb.
  assert (0 <= a / b)%Q as H0.
  { apply Qle_shift_div_l; [done|]. by rewrite Qmult_0_l. }
  assert (a / b <= 1)%Q as H1.
  { apply Qle_shift_div_r; [done|]. by rewrite Qmult_1_l. }
  split_and!; [lra|lra|].
  intros H100.
  assert (a / b == 1)%Q as Heq by lra.
  rewrite <- (Qmult_div_r a b) by lra. rewrite Heq. ring.
Qed.

Lemma percentage_bounds (c t : nat) :
  (c ≤ t)%nat → (0 < t)%nat →
  (0 <= inject_Z (Z.of_nat c) / inject_Z (Z.of_nat t) * 100)%Q
  ∧ (inject_Z (Z.of_nat c) / inject_Z (Z.of_nat t) * 100 <= 100)%Q
  ∧ ((inject_Z (Z.of_nat c) / inject_Z (Z.of_nat t) * 100 == 100)%Q → c = t).
Proof.
  intros Hle Hpos.
  destruct (Qpercentage_bounds (inject_Z (Z.of_nat c)) (inject_Z (Z.of_nat t)))
    as (H0 & H1 & H100).
  - change 0%Q with (inject_Z 0). rewrite <- Zle_Qle. lia.
  - rewrite <- Zle_Qle. lia.
  - change 0%Q with (inject_Z 0). rewrite <- Zlt_Qlt. lia.
  - split_and!; [done|done|]. intros H. apply H100 in H.
    unfold Qeq in H. simpl in H. lia.
Qed.

End StateTrackerQueries.

(** X14.  [has_critical_failure] reports a failure only for a task that
    is failed and for which [retry_task] has been called at least three
    times: along every sequence of tracker operations, a tracker that
    reports a critical failure holds such a task. *)
Theorem critical_failure_needs_three_retries (ops : list StateTracker.op) :
  StateTrackerOps.has_critical_failure (StateTracker.run ops) = true →
  ∃ task_id,
    StateTracker.get_task_status (StateTracker.run ops) task_id
    = Some StateTracker.FAILED
    ∧ (3 ≤ StateTrackerOps.retries_of task_id ops)%nat.
Proof.
  unfold StateTrackerOps.has_critical_failure. intros H.
  apply existsb_exists in H as (x & Hin & Hx).
  apply andb_true_iff in Hx as [Hf Hr].
  apply bool_decide_eq_true in Hf. apply Z.leb_le in Hr.
  apply list_elem_of_In in Hin. unfold OrderedDict.values in Hin.
  apply list_elem_of_fmap in Hin as ([k x'] & -> & Hin). simpl in *.
  exists k. split.
  - unfold StateTracker.get_task_status.
    rewrite (StateTrackerQueries.elem_of_get k x'); [by rewrite <- Hf|apply StateTrackerFacts.NoDup_keys_run|done].
  - apply StateTrackerMore.retry_count_le in Hin. lia.
Qed.

Lemma critical_failure_needs_three_retries_witness :
  ∃ task_id,
    StateTracker.get_task_status
      (StateTracker.run
         [StateTracker.RegisterTask "listing" "Write listing" None;
          StateTracker.RetryTask "listing"; StateTracker.RetryTask "listing";
          StateTracker.RetryTask "listing";
          StateTracker.FailTask "10:00" "listing" "timeout"]) task_id
    = Some StateTracker.FAILED
    ∧ (3 ≤ StateTrackerOps.retries_of task_id
             [StateTracker.RegisterTask "listing" "Write listing" None;
              StateTracker.RetryTask "listing"; StateTracker.RetryTask "listing";
              StateTracker.RetryTask "listing";
              StateTracker.FailTask "10:00" "listing" "timeout"])%nat.
Proof.
  apply critical_failure_needs_three_retries. vm_compute. reflexivity.
Defined.

(** X15.  The progress report accounts for every task: along every
    sequence of tracker operations the completed, failed, running and
    pending counts add up to the total, the completion percentage lies
    between 0 and 100, and it is 100 only when there is at least one task
    and all tasks are completed. *)
Theorem workflow_progress_accounts_for_every_task (ops : list StateTracker.op) :
  let p := StateTrackerOps.get_workflow_progress (StateTracker.run ops) in
  (StateTrackerOps.completed p + StateTrackerOps.failed p
   + StateTrackerOps.running p + StateTrackerOps.pending p
   = StateTrackerOps.total_tasks p)%nat
  ∧ (0 <= StateTrackerOps.completion_percentage p)%Q
  ∧ (StateTrackerOps.completion_percentage p <= 100)%Q
  ∧ ((StateTrackerOps.completion_percentage p == 100)%Q →
     (0 < StateTrackerOps.total_tasks p)%nat
     ∧ StateTrackerOps.completed p = StateTrackerOps.total_tasks p).
Proof.
  intros p. unfold p, StateTrackerOps.get_workflow_progress. simpl.
  unfold StateTrackerOps.count_status.
  set (st := StateTracker.run ops).
  assert (length (OrderedDict.values (StateTracker.tasks st))
          = length (StateTracker.tasks st)) as Hlen
    by (unfold OrderedDict.values; by rewrite length_fmap).
  split.
  - rewrite <- Hlen. apply StateTrackerQueries.count_partition.
    apply Forall_forall. intros x Hx. unfold OrderedDict.values in Hx.
    apply list_elem_of_fmap in Hx as ([k x'] & -> & Hin).
    destruct (StateTrackerMore.tracker_wf_run ops) as (_ & _ & _ & Htask).
    by apply (Htask k x').
  - pose proof (StateTrackerQueries.length_filter_le
                  (λ t, bool_decide (StateTracker.status t = StateTracker.COMPLETED))
                  (OrderedDict.values (StateTracker.tasks st))) as Hle.
    rewrite Hlen in Hle.
    destruct (Nat.ltb_spec 0 (length (StateTracker.tasks st))) as [Hpos|Hz].
    + destruct (StateTrackerQueries.percentage_bounds _ _ Hle Hpos)
        as (H0 & H1 & H100).
      split_and!; [done|done|]. intros H. split; [done|]. by apply H100.
    + split_and!; [lra|lra|]. intros H. exfalso. lra.
Qed.


Module StateTrackerReady.
Import StateTracker StateTrackerOps.

Lemma complete_task_registered st now d r :
  d ∈ OrderedDict.keys (tasks st) →
  complete_task st now d r
  = update_task d
      (λ t, mkTask (id t) (name t) COMPLETED (start_time t) (Some now) r
              (error t) (retry_count t)) st.
Proof.
  intros Hd%OrderedDictFacts.contains_keys. unfold complete_task.
  by rewrite Hd.
Qed.

Lemma dep_completed_complete_task st now d r d' :
  d ∈ OrderedDict.keys (tasks st) →
  dep_completed (complete_task st now d r) d'
  = if decide (d' = d) then true else dep_completed st d'.
Proof.
  intros Hd. rewrite complete_task_registered by done. unfold dep_completed.
  case_decide as Heq.
  - subst d'. rewrite StateTrackerMore.get_update_task_eq.
    apply OrderedDictFacts.get_is_Some_keys in Hd as [x ->]. done.
  - by rewrite StateTrackerMore.get_update_task_ne.
Qed.

Lemma dep_completed_spec st d :
  dep_completed st d = true
  ↔ ∃ task, OrderedDict.get d (tasks st) = Some task ∧ status task = COMPLETED.
Proof.
  unfold dep_completed. destruct (OrderedDict.get d (tasks st)) as [x|].
  - rewrite bool_decide_eq_true. split; [eauto|]. by intros (? & [= <-] & ?).
  - split; [done|]. by intros (? & ? & ?).
Qed.

Lemma can_execute_task_forall st t :
  can_execute_task st t = true
  ↔ t ∈ OrderedDict.keys (tasks st)
    ∧ ∀ d, d ∈ deps_of st t → dep_completed st d = true.
Proof.
  rewrite StateTrackerFacts.can_execute_task_spec.
  by setoid_rewrite dep_completed_spec.
Qed.

End StateTrackerReady.

(** X16.  The result of a task can be read back exactly while the task
    is completed: after [complete_task] on a registered task,
    [get_task_result] returns the result given; once the task is failed
    or retried afterwards it returns [None] again; and completing a task
    that was never registered records nothing. *)
Theorem task_result_round_trip (st : StateTracker.State)
    (now now' task_id err : string) (res : option string) :
  let st1 := StateTracker.complete_task st now task_id res in
  (task_id ∈ OrderedDict.keys (StateTracker.tasks st) →
   StateTrackerOps.get_task_result st1 task_id = res
   ∧ StateTrackerOps.get_task_result
       (StateTracker.fail_task st1 now' task_id err) task_id = None
   ∧ StateTrackerOps.get_task_result
       (StateTracker.retry_task st1 task_id) task_id = None)
  ∧ (task_id ∉ OrderedDict.keys (StateTracker.tasks st) →
     st1 = st ∧ StateTrackerOps.get_task_result st1 task_id = None).
Proof.
  intros st1. split.
  - intros Hin.
    assert (task_id ∈ OrderedDict.keys (StateTracker.tasks st1)) as Hin1.
    { unfold st1. rewrite StateTrackerReady.complete_task_registered by done.
      by rewrite StateTrackerMore.keys_update_task. }
    apply OrderedDictFacts.contains_keys in Hin1 as Hc1.
    unfold StateTrackerOps.get_task_result, StateTracker.fail_task,
      StateTracker.retry_task.
    rewrite Hc1, !StateTrackerMore.get_update_task_eq.
    unfold st1. rewrite StateTrackerReady.complete_task_registered by done.
    rewrite StateTrackerMore.get_update_task_eq.
    apply OrderedDictFacts.get_is_Some_keys in Hin as [x ->]. done.
  - intros Hout.
    assert (OrderedDict.contains task_id (StateTracker.tasks st) = false) as Hc.
    { apply not_true_is_false. by rewrite OrderedDictFacts.contains_keys. }
    assert (st1 = st) as -> by (unfold st1, StateTracker.complete_task;
                                 by rewrite Hc).
    split; [done|]. unfold StateTrackerOps.get_task_result.
    apply OrderedDictFacts.get_None_keys in Hout. by rewrite Hout.
Qed.

(** X17.  Completing a dependency releases exactly the tasks it was
    holding back: for a pending task [t] and a registered task [d] other
    than [t], [t] is in the ready list after [complete_task d] if and only
    if every dependency of [t] other than [d] was already completed. *)
Theorem completing_dependency_releases_task (st : StateTracker.State)
    (now t d : string) (res : option string) :
  NoDup (OrderedDict.keys (StateTracker.tasks st)) →
  StateTracker.get_task_status st t = Some StateTracker.PENDING →
  d ∈ OrderedDict.keys (StateTracker.tasks st) → t ≠ d →
  t ∈ StateTracker.get_ready_tasks (StateTracker.complete_task st now d res)
  ↔ ∀ d', d' ∈ StateTracker.deps_of st t → d' ≠ d →
          StateTracker.dep_completed st d' = true.
Proof.
  intros Hnd Hp Hd Hne.
  set (st1 := StateTracker.complete_task st now d res).
  assert (st1 = StateTracker.update_task d
                  (λ t, StateTracker.mkTask (StateTracker.id t)
                          (StateTracker.name t) StateTracker.COMPLETED
                          (StateTracker.start_time t) (Some now) res
                          (StateTracker.error t) (StateTracker.retry_count t))
                  st) as Hst1
    by (by apply StateTrackerReady.complete_task_registered).
  assert (t ∈ OrderedDict.keys (StateTracker.tasks st)) as Ht.
  { apply OrderedDictFacts.get_is_Some_keys. unfold StateTracker.get_task_status in Hp.
    destruct (OrderedDict.get t (StateTracker.tasks st)); [eauto|done]. }
  rewrite StateTrackerFacts.get_ready_tasks_spec
    by (rewrite Hst1; by apply StateTrackerFacts.NoDup_keys_update_task).
  rewrite StateTrackerReady.can_execute_task_forall.
  assert (StateTracker.get_task_status st1 t = Some StateTracker.PENDING) as ->.
  { unfold StateTracker.get_task_status. rewrite Hst1.
    by rewrite StateTrackerMore.get_update_task_ne. }
  assert (StateTracker.deps_of st1 t = StateTracker.deps_of st t) as ->.
  { unfold StateTracker.deps_of. rewrite Hst1.
    by rewrite StateTrackerMore.dependencies_update_task. }
  assert (OrderedDict.keys (StateTracker.tasks st1)
          = OrderedDict.keys (StateTracker.tasks st)) as ->.
  { rewrite Hst1. apply StateTrackerMore.keys_update_task. }
  split.
  - intros (_ & _ & Hall) d' Hd' Hne'. specialize (Hall d' Hd').
    unfold st1 in Hall.
    rewrite StateTrackerReady.dep_completed_complete_task in Hall by done.
    by case_decide.
  - intros Hall. split_and!; [done|done|]. intros d' Hd'. unfold st1.
    rewrite StateTrackerReady.dep_completed_complete_task by done.
    case_decide; [done|]. by apply Hall.
Qed.

Lemma completing_dependency_releases_task_witness :
  "publish"
  ∈ StateTracker.get_ready_tasks
      (StateTracker.complete_task
         (StateTracker.run
            [StateTracker.RegisterTask "write" "Write copy" None;
             StateTracker.RegisterTask "publish" "Publish" (Some ["write"])])
         "10:00" "write" (Some "copy")).
Proof.
  apply completing_dependency_releases_task.
  - vm_compute. repeat constructor; set_solver.
  - reflexivity.
  - vm_compute. set_solver.
  - discriminate.
  - intros d' Hd' Hne. vm_compute in Hd'.
    apply list_elem_of_singleton in Hd'. congruence.
Defined.

(** X18.  Dependency cycles are accepted at registration and block the
    ready list: two tasks that depend on each other are never both ready,
    and in particular a task that lists itself as a dependency is never
    ready, in whatever state the tracker is. *)
Theorem dependency_cycle_blocks_ready_list (st : StateTracker.State)
    (t u : string) :
  NoDup (OrderedDict.keys (StateTracker.tasks st)) →
  u ∈ StateTracker.deps_of st t → t ∈ StateTracker.deps_of st u →
  ¬ (t ∈ StateTracker.get_ready_tasks st
     ∧ u ∈ StateTracker.get_ready_tasks st).
Proof.
  intros Hnd Hu Ht [Hrt Hru].
  apply StateTrackerFacts.get_ready_tasks_spec in Hrt as [Hpt _]; [|done].
  apply StateTrackerFacts.get_ready_tasks_spec in Hru as [_ Hcu]; [|done].
  apply StateTrackerFacts.can_execute_task_spec in Hcu as [_ Hall].
  destruct (Hall t Ht) as (task & Hget & Hstatus).
  unfold StateTracker.get_task_status in Hpt. rewrite Hget in Hpt.
  simpl in Hpt. congruence.
Qed.

Lemma dependency_cycle_blocks_ready_list_witness :
  ¬ ("review"
     ∈ StateTracker.get_ready_tasks
         (StateTracker.run
            [StateTracker.RegisterTask "review" "Review" (Some ["review"])])
     ∧ "review"
       ∈ StateTracker.get_ready_tasks
           (StateTracker.run
              [StateTracker.RegisterTask "review" "Review" (Some ["review"])])).
Proof.
  apply dependency_cycle_blocks_ready_list.
  - vm_compute. repeat constructor; set_solver.
  - vm_compute. set_solver.
  - vm_compute. set_solver.
Defined.

(** X19.  [get_next_executable_tasks] with a non-negative bound returns
    the first ready tasks in registration order, as many as the bound
    allows, and every task it returns is pending with all its
    dependencies completed. *)
Theorem next_executable_tasks_are_first_ready (st : StateTracker.State)
    (max_parallel : Z) :
  NoDup (OrderedDict.keys (StateTracker.tasks st)) → (0 ≤ max_parallel)%Z →
  let next := StateTrackerOps.get_next_executable_tasks st max_parallel in
  (∃ rest, StateTracker.get_ready_tasks st = next ++ rest)
  ∧ length next
    = Z.to_nat max_parallel `min` length (StateTracker.get_ready_tasks st)
  ∧ ∀ t, t ∈ next →
         StateTracker.get_task_status st t = Some StateTracker.PENDING
         ∧ StateTracker.can_execute_task st t = true.
Proof.
  intros Hnd Hn next. unfold next, StateTrackerOps.get_next_executable_tasks.
  destruct (MemoryFacts.slice_to_prefix max_parallel
              (StateTracker.get_ready_tasks st)) as [rest Hrest].
  split_and!.
  - by exists rest.
  - by apply MemoryFacts.slice_to_length.
  - intros t Ht. apply StateTrackerFacts.get_ready_tasks_spec; [done|].
    rewrite Hrest. apply elem_of_app. by left.
Qed.

Lemma next_executable_tasks_are_first_ready_witness :
  length
    (StateTrackerOps.get_next_executable_tasks
       (StateTracker.run
          [StateTracker.RegisterTask "a" "A" None;
           StateTracker.RegisterTask "b" "B" None;
           StateTracker.RegisterTask "c" "C" (Some ["a"])]) 1)
  = 1%nat.
Proof.
  destruct (next_executable_tasks_are_first_ready
              (StateTracker.run
                 [StateTracker.RegisterTask "a" "A" None;
                  StateTracker.RegisterTask "b" "B" None;
                  StateTracker.RegisterTask "c" "C" (Some ["a"])]) 1)
    as (_ & Hlen & _).
  - vm_compute. repeat constructor; set_solver.
  - lia.
  - exact Hlen.
Defined.

(** X20.  Invariants of the tracker: after any sequence of operations on
    a fresh tracker, exactly the registered tasks have a dependency list,
    every task in the execution order is registered, every task record
    carries the id it is stored under, no task is in the [SKIPPED] status
    (no operation assigns it), and retry counts are never negative. *)
Theorem tracker_invariants (ops : list StateTracker.op) :
  let st := StateTracker.run ops in
  (∀ k, k ∈ OrderedDict.keys (StateTracker.tasks st)
        ↔ is_Some (StateTracker.dependencies st !! k))
  ∧ (∀ k, k ∈ StateTracker.execution_order st →
          k ∈ OrderedDict.keys (StateTracker.tasks st))
  ∧ (∀ k x, OrderedDict.get k (StateTracker.tasks st) = Some x →
            StateTracker.id x = k
            ∧ StateTracker.status x ≠ StateTracker.SKIPPED
            ∧ (0 ≤ StateTracker.retry_count x)%Z).
Proof.
  intros st. destruct (StateTrackerMore.tracker_wf_run ops) as (_ & Hd & He & Ht).
  split_and!; [done|done|].
  intros k x Hget%OrderedDictFacts.get_Some_elem_of.
  destruct (Ht k x Hget) as [Hid Hs].
  apply StateTrackerMore.retry_count_le in Hget. split_and!; [done|done|lia].
Qed.

Module LogWorkerFacts.
Import AsyncLogger LogWorker.

Lemma agent_log_file_ne_master a : agent_log_file a ≠ master_log_file.
Proof.
  unfold agent_log_file, master_log_file. rewrite PyStrFacts.append_cons.
  discriminate.
Qed.

Lemma agent_log_file_inj a b : agent_log_file a = agent_log_file b → a = b.
Proof.
  unfold agent_log_file. rewrite !PyStrFacts.append_cons, !PyStrFacts.append_nil.
  intros [= H]. by apply PyStrFacts.append_inj_r in H.
Qed.

Lemma lines_of_append_eq files path line :
  lines_of (append_line files path line) path = lines_of files path ++ [line].
Proof.
  unfold lines_of, append_line, Files in *. by rewrite lookup_insert_eq.
Qed.

Lemma lines_of_append_ne files path path' line :
  path ≠ path' →
  lines_of (append_line files path line) path' = lines_of files path'.
Proof.
  intros. unfold lines_of, append_line, Files in *.
  by rewrite lookup_insert_ne.
Qed.

Lemma log_call_spec st c :
  log_call st c
  = if Queue.full (log_queue st)
    then mkLogger (session_id st) (log_queue st) (events_logged st)
           (events_dropped st + 1)
    else mkLogger (session_id st)
           (Queue.mk (Queue.items (log_queue st) ++ [event_of st c])
              (Queue.maxsize (log_queue st)))
           (events_logged st) (events_dropped st).
Proof.
  unfold log_call, log, Queue.put_nowait, Queue.put.
  by destruct (Queue.full (log_queue st)).
Qed.

Section writer.
Variable to_json : LogEvent.t → json.

(** What one successful [_write_event] adds to a file. *)
Lemma write_event_ok_lines files event path :
  lines_of (write_event to_json WriteOk files event).1 path
  = lines_of files path
    ++ (if bool_decide (path = master_log_file)
        then [Decoded (to_json event)]
        else if truthy_str (LogEvent.agent_id event)
                && bool_decide
                     (path = agent_log_file
                               (default "" (LogEvent.agent_id event)))
             then [Decoded (to_json event)] else []).
Proof.
  unfold write_event.
  destruct (truthy_str (LogEvent.agent_id event)) eqn:Ha; simpl.
  - case_bool_decide as Hm.
    + subst path. rewrite lines_of_append_ne by apply agent_log_file_ne_master.
      apply lines_of_append_eq.
    + case_bool_decide as Hp.
      * subst path. rewrite lines_of_append_eq.
        by rewrite lines_of_append_ne by done.
      * rewrite !lines_of_append_ne by done. by rewrite app_nil_r.
  - case_bool_decide as Hm.
    + subst path. apply lines_of_append_eq.
    + rewrite lines_of_append_ne by done. by rewrite app_nil_r.
Qed.

Lemma write_event_ok_returns files event :
  (write_event to_json WriteOk files event).2 = true.
Proof. unfold write_event. by destruct (truthy_str _). Qed.

(** The master log after any [_write_event]: one more line, or the same
    lines when the write of the master log failed; the call returns only
    if the line was added. *)
Lemma write_event_master outcome files event :
  let r := write_event to_json outcome files event in
  (lines_of r.1 master_log_file = lines_of files master_log_file ∧ r.2 = false)
  ∨ lines_of r.1 master_log_file
    = lines_of files master_log_file ++ [Decoded (to_json event)].
Proof.
  unfold write_event.
  destruct outcome; simpl; [right|by left|right];
    destruct (truthy_str (LogEvent.agent_id event)); simpl;
    rewrite ?(lines_of_append_ne _ (agent_log_file _))
      by apply agent_log_file_ne_master;
    apply lines_of_append_eq.
Qed.

Lemma written_lines files es path :
  lines_of (written to_json files es) path
  = lines_of files path
    ++ (Decoded ∘ to_json
        <$> List.filter
              (λ e, bool_decide (path = master_log_file)
                    || truthy_str (LogEvent.agent_id e)
                       && bool_decide
                            (path = agent_log_file
                                      (default "" (LogEvent.agent_id e))))
              es).
Proof.
  revert files. induction es as [|e es IH]; intros files.
  - simpl. by rewrite app_nil_r.
  - change (written to_json files (e :: es))
      with (written to_json (write_event to_json WriteOk files e).1 es).
    rewrite IH, write_event_ok_lines, <- app_assoc.
    f_equal. simpl. case_bool_decide; simpl; [done|].
    by destruct (truthy_str (LogEvent.agent_id e) && bool_decide _).
Qed.

Lemma worker_step_ok st files e rest :
  Queue.items (log_queue st) = e :: rest →
  worker_step to_json WriteOk (st, files)
  = (mkLogger (session_id st) (Queue.mk rest (Queue.maxsize (log_queue st)))
       (events_logged st + 1) (events_dropped st),
     (write_event to_json WriteOk files e).1).
Proof.
  intros Hq. unfold worker_step. rewrite Hq.
  pose proof (write_event_ok_returns files e) as Hok.
  destruct (write_event to_json WriteOk files e) as [files' ok].
  simpl in *. by subst ok.
Qed.

Lemma drain_items (l : list LogEvent.t) st files :
  Queue.items (log_queue st) = l →
  fold_left (λ s _, worker_step to_json WriteOk s) l (st, files)
  = (mkLogger (session_id st) (Queue.mk [] (Queue.maxsize (log_queue st)))
       (events_logged st + Z.of_nat (length l)) (events_dropped st),
     written to_json files l).
Proof.
  revert st files. induction l as [|e l IH]; intros st files Hq.
  - simpl. destruct st as [sid [items maxsize] logged dropped].
    simpl in *. subst. do 2 f_equal. lia.
  - cbn [fold_left]. rewrite (worker_step_ok st files e l Hq).
    rewrite IH by done. cbn [session_id log_queue events_logged events_dropped
                              Queue.maxsize length].
    f_equal. f_equal. lia.
Qed.

Lemma drain_spec st files :
  drain to_json (st, files)
  = (mkLogger (session_id st) (Queue.mk [] (Queue.maxsize (log_queue st)))
       (events_logged st + Z.of_nat (length (Queue.items (log_queue st))))
       (events_dropped st),
     written to_json files (Queue.items (log_queue st))).
Proof. unfold drain. simpl. by apply drain_items. Qed.

End writer.

Lemma decoded_fmap {A} (f : A → json) (l : list A) :
  decoded (Decoded ∘ f <$> l) = f <$> l.
Proof.
  unfold decoded. induction l as [|x l IH]; [done|].
  rewrite fmap_cons. cbn [omap list_omap compose]. by rewrite IH.
Qed.

Lemma filter_all {A} (f : A → bool) (l : list A) :
  (∀ x, f x = true) → List.filter f l = l.
Proof. intros Hf. induction l as [|x l IH]; simpl; [done|]. by rewrite Hf, IH. Qed.

(** Reading a log file without filters and without a limit returns what
    its lines decode to. *)
Lemma read_logs_unfiltered files agent_id :
  read_logs files agent_id None None None
  = Ok (decoded (lines_of files
                   (if truthy_str agent_id
                    then agent_log_file (default "" agent_id)
                    else master_log_file))).
Proof.
  pose proof (AsyncLoggerFacts.read_logs_spec files agent_id None None None) as H.
  simpl in H. unfold lines_of.
  destruct (files !! _) as [lines|] eqn:E; simpl; [|done].
  rewrite H by done. simpl. f_equal. by apply filter_all.
Qed.

End LogWorkerFacts.


Module LogRunFacts.
Import AsyncLogger LogWorker.

Lemma filter_fmap {A B} (f : B → bool) (g : A → B) (l : list A) :
  List.filter f (g <$> l) = g <$> List.filter (f ∘ g) l.
Proof.
  induction l as [|x l IH]; [done|]. rewrite fmap_cons. simpl.
  destruct (f (g x)); simpl; by rewrite IH.
Qed.

Section writer.
Variable to_json : LogEvent.t → json.

Lemma logger_run_snoc acts a sys :
  run to_json (acts ++ [a]) sys = act to_json (run to_json acts sys) a.
Proof. unfold run. by rewrite fold_left_app. Qed.

Lemma by_agent_written st a c :
  a ≠ "" →
  bool_decide (agent_log_file a = master_log_file)
  || truthy_str (LogEvent.agent_id (event_of st c))
     && bool_decide
          (agent_log_file a
           = agent_log_file (default "" (LogEvent.agent_id (event_of st c))))
  = by_agent a c.
Proof.
  intros Ha. unfold by_agent.
  change (LogEvent.agent_id (event_of st c)) with (lc_agent_id c).
  rewrite (bool_decide_eq_false_2 (agent_log_file a = master_log_file))
    by apply LogWorkerFacts.agent_log_file_ne_master.
  cbn [orb]. destruct (lc_agent_id c) as [b|]; cbn [truthy_str default andb];
    [|by rewrite bool_decide_eq_false_2].
  - destruct (String.eqb_spec b "") as [Heq|Hb]; cbn [negb andb].
    + subst b. rewrite bool_decide_eq_false_2; [done|]. by intros [= <-].
    + destruct (decide (a = b)) as [->|Hab].
      * by rewrite !bool_decide_eq_true_2.
      * rewrite !bool_decide_eq_false_2; [done| |].
        -- by intros [= ->].
        -- by intros ?%LogWorkerFacts.agent_log_file_inj.
Qed.

End writer.
End LogRunFacts.

(** X21.  The logger's counters never over-report.  Along every
    interleaving of [log] calls and writer turns on a fresh logger, with
    writes that may fail: every event counted as logged has its line in
    the master log, the lines written, the events dropped and the events
    still queued never outnumber the [log] calls made, a bounded queue never
    holds more than its size, and when no write fails every call is
    accounted for exactly once as logged, dropped or queued. *)
Theorem logger_counters_account_for_calls (to_json : AsyncLogger.LogEvent.t → AsyncLogger.json)
    (sid : string) (buffer_size : Z) (acts : list LogWorker.action) :
  let sys := LogWorker.run to_json acts (LogWorker.fresh sid buffer_size) in
  let lines := Z.of_nat (length (LogWorker.lines_of sys.2
                                   AsyncLogger.master_log_file)) in
  let qsize := Z.of_nat (length (AsyncLogger.Queue.items
                                   (AsyncLogger.log_queue sys.1))) in
  let calls := Z.of_nat (length (LogWorker.log_calls acts)) in
  (0 ≤ AsyncLogger.events_logged sys.1 ≤ lines)%Z
  ∧ (0 ≤ AsyncLogger.events_dropped sys.1)%Z
  ∧ (lines + AsyncLogger.events_dropped sys.1 + qsize ≤ calls)%Z
  ∧ ((0 < buffer_size)%Z → (qsize ≤ buffer_size)%Z)
  ∧ ((∀ o, LogWorker.Work o ∈ acts → o = LogWorker.WriteOk) →
     (AsyncLogger.events_logged sys.1 + AsyncLogger.events_dropped sys.1
      + qsize = calls)%Z).
Proof.
  cbv zeta.
  assert (∀ acts,
    let sys := LogWorker.run to_json acts (LogWorker.fresh sid buffer_size) in
    let lines := Z.of_nat (length (LogWorker.lines_of sys.2
                                     AsyncLogger.master_log_file)) in
    let qsize := Z.of_nat (length (AsyncLogger.Queue.items
                                     (AsyncLogger.log_queue sys.1))) in
    let calls := Z.of_nat (length (LogWorker.log_calls acts)) in
    AsyncLogger.Queue.maxsize (AsyncLogger.log_queue sys.1) = buffer_size
    ∧ (0 ≤ AsyncLogger.events_logged sys.1 ≤ lines)%Z
    ∧ (0 ≤ AsyncLogger.events_dropped sys.1)%Z
    ∧ (lines + AsyncLogger.events_dropped sys.1 + qsize ≤ calls)%Z
    ∧ ((0 < buffer_size)%Z → (qsize ≤ buffer_size)%Z)
    ∧ ((∀ o, LogWorker.Work o ∈ acts → o = LogWorker.WriteOk) →
       AsyncLogger.events_logged sys.1 = lines
       ∧ (lines + AsyncLogger.events_dropped sys.1 + qsize = calls)%Z)) as Hinv.
  { clear acts. intros acts.
    induction acts as [|a acts IH] using rev_ind.
    - cbv zeta. simpl. unfold LogWorker.lines_of, AsyncLogger.Files.
      rewrite lookup_empty. simpl. split_and!; try done; lia.
    - cbv zeta in *. rewrite LogRunFacts.logger_run_snoc.
      destruct (LogWorker.run to_json acts (LogWorker.fresh sid buffer_size))
        as [st files].
      destruct IH as (Hmax & Hlog & Hdrop & Hsum & Hq & Hok).
      simpl in Hmax, Hlog, Hdrop, Hsum, Hq, Hok.
      assert (∀ P : Prop,
                ((∀ o, LogWorker.Work o ∈ acts → o = LogWorker.WriteOk) → P) →
                (∀ o, LogWorker.Work o ∈ acts ++ [a] → o = LogWorker.WriteOk) →
                P) as Hweaken.
      { intros P HP Hall. apply HP. intros o Ho. apply Hall.
        apply elem_of_app. by left. }
      unfold LogWorker.log_calls. rewrite omap_app, length_app.
      fold (LogWorker.log_calls acts).
      destruct a as [c|o]; simpl.
      + rewrite LogWorkerFacts.log_call_spec. unfold AsyncLogger.Queue.full.
        rewrite Hmax.
        destruct (Z.ltb_spec 0 buffer_size) as [Hn|Hn]; simpl;
          [destruct (Z.leb_spec buffer_size
                       (Z.of_nat (length (AsyncLogger.Queue.items
                                            (AsyncLogger.log_queue st)))))
             as [Hf|Hf]|]; simpl; rewrite ?length_app; simpl;
          (split_and!; try done; try lia);
          intros Hall; apply (Hweaken _ Hok) in Hall; lia.
      + unfold LogWorker.worker_step.
        destruct (AsyncLogger.Queue.items (AsyncLogger.log_queue st))
          as [|e rest] eqn:Hitems; simpl.
        * rewrite Hitems. simpl in *.
          split_and!; try done; try lia.
          intros Hall; apply (Hweaken _ Hok) in Hall; lia.
        * pose proof (LogWorkerFacts.write_event_master to_json o files e) as Hw.
          pose proof (LogWorkerFacts.write_event_ok_returns to_json files e)
            as Hret.
          assert (o = LogWorker.WriteOk →
                  (LogWorker.write_event to_json o files e).2 = true) as Hret'
            by (by intros ->).
          destruct (LogWorker.write_event to_json o files e) as [files' ok].
          simpl in *. clear Hret.
          destruct Hw as [[Hsame ->]|Hmore].
          -- rewrite Hsame. split_and!; try done; try lia.
             intros Hall. exfalso.
             assert (o = LogWorker.WriteOk) as Ho
               by (apply Hall, elem_of_app; right; left).
             by specialize (Hret' Ho).
          -- rewrite Hmore, length_app. simpl.
             split_and!; try done; try (destruct ok; lia).
             intros Hall.
             assert (o = LogWorker.WriteOk) as Ho
               by (apply Hall, elem_of_app; right; left).
             rewrite (Hret' Ho). apply (Hweaken _ Hok) in Hall. lia. }
  destruct (Hinv acts) as (_ & Hlog & Hdrop & Hsum & Hq & Hok).
  cbv zeta in *. split_and!; try lia.
  intros Hall. apply Hok in Hall. lia.
Qed.


Module LogScheduleFacts.
Import AsyncLogger LogWorker.

Lemma event_of_session st st' c :
  session_id st = session_id st' → event_of st c = event_of st' c.
Proof. unfold event_of. by intros ->. Qed.

Lemma log_calls_snoc acts a :
  log_calls (acts ++ [a])
  = log_calls acts ++ match a with Log c => [c] | Work _ => [] end.
Proof. unfold log_calls. rewrite omap_app. by destruct a. Qed.

Section writer.
Variable to_json : LogEvent.t → json.

Lemma written_app files es es' :
  written to_json files (es ++ es')
  = written to_json (written to_json files es) es'.
Proof. unfold written. by rewrite fold_left_app. Qed.

(** The state after any schedule of [log] calls and successful writer
    turns on a fresh logger: the calls the queue has taken, of which a
    first part is written and the rest is queued. *)
Lemma run_taken sid n acts :
  (∀ o, Work o ∈ acts → o = WriteOk) →
  let sys := run to_json acts (fresh sid n) in
  ∃ taken done,
    taken `sublist_of` log_calls acts
    ∧ ((n ≤ 0)%Z → taken = log_calls acts)
    ∧ event_of (fresh sid n).1 <$> taken
      = done ++ Queue.items (log_queue sys.1)
    ∧ sys.2 = written to_json ∅ done
    ∧ session_id sys.1 = sid
    ∧ Queue.maxsize (log_queue sys.1) = n
    ∧ events_logged sys.1 = Z.of_nat (length done)
    ∧ events_dropped sys.1
      = (Z.of_nat (length (log_calls acts)) - Z.of_nat (length taken))%Z.
Proof.
  induction acts as [|a acts IH] using rev_ind; intros Hok.
  - exists [], []. simpl. split_and!; done.
  - cbv zeta. rewrite LogRunFacts.logger_run_snoc, log_calls_snoc.
    destruct IH as (taken & done & Hsub & Hall & Hev & Hfiles & Hsid & Hmax
                    & Hlog & Hdrop).
    { intros o Ho. apply Hok, elem_of_app. by left. }
    destruct (run to_json acts (fresh sid n)) as [st files].
    cbn [fst snd] in Hev, Hfiles, Hsid, Hmax, Hlog, Hdrop.
    destruct a as [c|o].
    + cbn [act fst snd]. rewrite LogWorkerFacts.log_call_spec.
      destruct (Queue.full (log_queue st)) eqn:Hfull.
      * exists taken, done. cbn [fst snd session_id log_queue events_logged
                                  events_dropped].
        split_and!; try done.
        -- by apply sublist_inserts_r.
        -- intros Hn. exfalso. unfold Queue.full in Hfull. rewrite Hmax in Hfull.
           apply andb_true_iff in Hfull as [Hpos _].
           apply Z.ltb_lt in Hpos. lia.
        -- rewrite Hdrop, length_app. simpl. lia.
      * exists (taken ++ [c]), done.
        cbn [fst snd session_id log_queue events_logged events_dropped
               Queue.items Queue.maxsize].
        split_and!; try done.
        -- by apply sublist_app.
        -- intros Hn. by rewrite (Hall Hn).
        -- rewrite fmap_app, Hev, <- app_assoc. do 2 f_equal. simpl.
           f_equal. by apply event_of_session.
        -- rewrite Hdrop, !length_app. simpl. lia.
    + assert (o = WriteOk) as -> by (apply Hok, elem_of_app; right; left).
      rewrite app_nil_r. cbn [act].
      destruct (Queue.items (log_queue st)) as [|e rest] eqn:Hitems.
      * exists taken, done. unfold worker_step. rewrite Hitems.
        simpl. rewrite Hitems. by rewrite app_nil_r in *.
      * rewrite (LogWorkerFacts.worker_step_ok to_json st files e rest Hitems).
        exists taken, (done ++ [e]).
        cbn [fst snd session_id log_queue events_logged events_dropped
               Queue.items Queue.maxsize].
        split_and!; try done.
        -- by rewrite Hev, <- app_assoc.
        -- rewrite written_app, <- Hfiles. done.
        -- rewrite Hlog, length_app. simpl. lia.
Qed.

(** The same after the flush. *)
Lemma drained_run sid n acts :
  (∀ o, Work o ∈ acts → o = WriteOk) →
  let sys := drain to_json (run to_json acts (fresh sid n)) in
  ∃ taken,
    taken `sublist_of` log_calls acts
    ∧ ((n ≤ 0)%Z → taken = log_calls acts)
    ∧ sys.2 = written to_json ∅ (event_of (fresh sid n).1 <$> taken)
    ∧ Queue.items (log_queue sys.1) = []
    ∧ events_logged sys.1 = Z.of_nat (length taken)
    ∧ events_dropped sys.1
      = (Z.of_nat (length (log_calls acts)) - Z.of_nat (length taken))%Z.
Proof.
  intros Hok.
  destruct (run_taken sid n acts Hok)
    as (taken & done & Hsub & Hall & Hev & Hfiles & Hsid & Hmax & Hlog & Hdrop).
  cbv zeta. destruct (run to_json acts (fresh sid n)) as [st files].
  cbn [fst snd] in Hev, Hfiles, Hsid, Hmax, Hlog, Hdrop.
  rewrite LogWorkerFacts.drain_spec. exists taken.
  cbn [fst snd session_id log_queue events_logged events_dropped Queue.items
         Queue.maxsize].
  split_and!; try done.
  - by rewrite Hev, written_app, <- Hfiles.
  - rewrite Hlog. apply (f_equal length) in Hev.
    rewrite length_fmap, length_app in Hev. lia.
Qed.

Lemma read_back_master files es :
  read_logs (written to_json files es) None None None None
  = Ok (decoded (lines_of files master_log_file) ++ (to_json <$> es)).
Proof.
  rewrite LogWorkerFacts.read_logs_unfiltered. simpl.
  rewrite LogWorkerFacts.written_lines.
  rewrite LogWorkerFacts.filter_all
    by (intros e; by rewrite bool_decide_eq_true_2).
  unfold decoded. rewrite omap_app. fold (decoded (Decoded ∘ to_json <$> es)).
  by rewrite LogWorkerFacts.decoded_fmap.
Qed.

End writer.
End LogScheduleFacts.

(** X22.  What is logged can be read back, in order, under every
    schedule.  Take any interleaving of [log] calls and writer turns on a
    fresh logger whose writes succeed, then a flush.  [read_logs] without
    filters returns the events of the calls the queue took, in call
    order: a subsequence of the calls, and all of them when the queue is
    unbounded.  The calls left out are the dropped ones, counted in
    [events_dropped]; every event read back was counted in
    [events_logged]; the queue is empty. *)
Theorem logged_events_read_back_in_order
    (to_json : AsyncLogger.LogEvent.t → AsyncLogger.json) (sid : string)
    (buffer_size : Z) (acts : list LogWorker.action) :
  (∀ o, LogWorker.Work o ∈ acts → o = LogWorker.WriteOk) →
  let st0 := (LogWorker.fresh sid buffer_size).1 in
  let sys := LogWorker.drain to_json
               (LogWorker.run to_json acts (LogWorker.fresh sid buffer_size)) in
  ∃ taken,
    taken `sublist_of` LogWorker.log_calls acts
    ∧ ((buffer_size ≤ 0)%Z → taken = LogWorker.log_calls acts)
    ∧ AsyncLogger.read_logs sys.2 None None None None
      = AsyncLogger.Ok (to_json ∘ LogWorker.event_of st0 <$> taken)
    ∧ AsyncLogger.events_logged sys.1 = Z.of_nat (length taken)
    ∧ AsyncLogger.events_dropped sys.1
      = (Z.of_nat (length (LogWorker.log_calls acts))
         - Z.of_nat (length taken))%Z
    ∧ AsyncLogger.Queue.items (AsyncLogger.log_queue sys.1) = [].
Proof.
  intros Hok st0 sys.
  destruct (LogScheduleFacts.drained_run to_json sid buffer_size acts Hok)
    as (taken & Hsub & Hall & Hfiles & Hq & Hlog & Hdrop).
  exists taken. fold sys in Hfiles, Hq, Hlog, Hdrop.
  split_and!; try done.
  rewrite Hfiles, LogScheduleFacts.read_back_master.
  unfold LogWorker.lines_of, AsyncLogger.Files. rewrite lookup_empty. simpl.
  by rewrite <- list_fmap_compose.
Qed.

Lemma logged_events_read_back_in_order_witness :
  ∃ taken,
    taken
    `sublist_of` LogWorker.log_calls
                   [LogWorker.Log
                      (LogWorker.mkLogCall "10:00" "1" AsyncLogger.AGENT_STARTED
                         AsyncLogger.INFO "m1" (Some "writer") None None None
                         None);
                    LogWorker.Work LogWorker.WriteOk;
                    LogWorker.Log
                      (LogWorker.mkLogCall "10:01" "2"
                         AsyncLogger.AGENT_COMPLETED AsyncLogger.SUCCESS "m2"
                         (Some "writer") None None None None)]
    ∧ length taken = 2%nat.
Proof.
  destruct (logged_events_read_back_in_order
              (λ e, AsyncLogger.JString (AsyncLogger.LogEvent.message e)) "s1" 0
              [LogWorker.Log
                 (LogWorker.mkLogCall "10:00" "1" AsyncLogger.AGENT_STARTED
                    AsyncLogger.INFO "m1" (Some "writer") None None None None);
               LogWorker.Work LogWorker.WriteOk;
               LogWorker.Log
                 (LogWorker.mkLogCall "10:01" "2" AsyncLogger.AGENT_COMPLETED
                    AsyncLogger.SUCCESS "m2" (Some "writer") None None None
                    None)])
    as (taken & Hsub & Hall & _).
  - intros o Ho. apply elem_of_cons in Ho as [Ho|Ho]; [discriminate Ho|].
    apply elem_of_cons in Ho as [Ho|Ho]; [by injection Ho|].
    apply elem_of_cons in Ho as [Ho|Ho]; [discriminate Ho|].
    by apply elem_of_nil in Ho.
  - exists taken. split; [exact Hsub|].
    assert (0 ≤ 0)%Z as H0 by lia. by rewrite (Hall H0).
Defined.

(** X23.  Agent-level log isolation, under every schedule.  On the same
    runs, [read_logs] for a non-empty agent id returns exactly those of
    the events read from the master log whose call named this agent, in
    the same order, and nothing of any other agent. *)
Theorem agent_log_holds_the_agents_events
    (to_json : AsyncLogger.LogEvent.t → AsyncLogger.json) (sid : string)
    (buffer_size : Z) (acts : list LogWorker.action) (a : string) :
  (∀ o, LogWorker.Work o ∈ acts → o = LogWorker.WriteOk) → a ≠ "" →
  let st0 := (LogWorker.fresh sid buffer_size).1 in
  let sys := LogWorker.drain to_json
               (LogWorker.run to_json acts (LogWorker.fresh sid buffer_size)) in
  ∃ taken,
    taken `sublist_of` LogWorker.log_calls acts
    ∧ ((buffer_size ≤ 0)%Z → taken = LogWorker.log_calls acts)
    ∧ AsyncLogger.read_logs sys.2 None None None None
      = AsyncLogger.Ok (to_json ∘ LogWorker.event_of st0 <$> taken)
    ∧ AsyncLogger.read_logs sys.2 (Some a) None None None
      = AsyncLogger.Ok
          (to_json ∘ LogWorker.event_of st0
           <$> List.filter (LogWorker.by_agent a) taken).
Proof.
  intros Hok Ha st0 sys.
  destruct (LogScheduleFacts.drained_run to_json sid buffer_size acts Hok)
    as (taken & Hsub & Hall & Hfiles & _).
  exists taken. fold sys in Hfiles.
  split_and!; try done.
  - rewrite Hfiles, LogScheduleFacts.read_back_master.
    unfold LogWorker.lines_of, AsyncLogger.Files. rewrite lookup_empty. simpl.
    by rewrite <- list_fmap_compose.
  - rewrite Hfiles, LogWorkerFacts.read_logs_unfiltered.
    assert (truthy_str (Some a) = true) as ->.
    { simpl. by destruct (String.eqb_spec a ""). }
    cbn [default from_option id].
    rewrite LogWorkerFacts.written_lines.
    unfold LogWorker.lines_of at 1, AsyncLogger.Files. rewrite lookup_empty.
    cbn [default from_option id app].
    rewrite LogRunFacts.filter_fmap.
    rewrite (List.filter_ext _ (LogWorker.by_agent a))
      by (intros c; by apply LogRunFacts.by_agent_written).
    rewrite LogWorkerFacts.decoded_fmap. by rewrite <- list_fmap_compose.
Qed.

Lemma agent_log_holds_the_agents_events_witness :
  AsyncLogger.read_logs
    (LogWorker.drain
       (λ e, AsyncLogger.JString (AsyncLogger.LogEvent.message e))
       (LogWorker.run
          (λ e, AsyncLogger.JString (AsyncLogger.LogEvent.message e))
          [LogWorker.Log
             (LogWorker.mkLogCall "10:00" "1" AsyncLogger.WORKFLOW_STAGE
                AsyncLogger.INFO "m1" (Some "writer") None None None None);
           LogWorker.Work LogWorker.WriteOk;
           LogWorker.Log
             (LogWorker.mkLogCall "10:01" "2" AsyncLogger.WORKFLOW_STAGE
                AsyncLogger.INFO "m2" (Some "editor") None None None None);
           LogWorker.Log
             (LogWorker.mkLogCall "10:02" "3" AsyncLogger.WORKFLOW_STAGE
                AsyncLogger.INFO "m3" (Some "writer") None None None None)]
          (LogWorker.fresh "s1" 0))).2
    (Some "writer") None None None
  = AsyncLogger.Ok [AsyncLogger.JString "m1"; AsyncLogger.JString "m3"].
Proof.
  destruct (agent_log_holds_the_agents_events
              (λ e, AsyncLogger.JString (AsyncLogger.LogEvent.message e)) "s1" 0
              [LogWorker.Log
                 (LogWorker.mkLogCall "10:00" "1" AsyncLogger.WORKFLOW_STAGE
                    AsyncLogger.INFO "m1" (Some "writer") None None None None);
               LogWorker.Work LogWorker.WriteOk;
               LogWorker.Log
                 (LogWorker.mkLogCall "10:01" "2" AsyncLogger.WORKFLOW_STAGE
                    AsyncLogger.INFO "m2" (Some "editor") None None None None);
               LogWorker.Log
                 (LogWorker.mkLogCall "10:02" "3" AsyncLogger.WORKFLOW_STAGE
                    AsyncLogger.INFO "m3" (Some "writer") None None None None)]
              "writer") as (taken & _ & Hall & _ & Hread).
  - intros o Ho. repeat (apply elem_of_cons in Ho as [Ho|Ho];
                         [first [discriminate Ho | by injection Ho]|]).
    by apply elem_of_nil in Ho.
  - discriminate.
  - assert (0 ≤ 0)%Z as H0 by lia. rewrite (Hall H0) in Hread. exact Hread.
Defined.

Module SessionLifecycleFacts.
Import SessionManager SessionOps.

Lemma is_finished_truthy s : is_finished s = true → truthy_str (Some s) = true.
Proof.
  unfold is_finished. simpl.
  destruct (String.eqb_spec s "") as [->|]; [done|done].
Qed.

(** What a sweep does to one session. *)
Lemma cleanup_old_sessions_get io_error st now sid :
  NoDup (OrderedDict.keys (sessions_index st)) →
  let r := cleanup_old_sessions io_error st now in
  OrderedDict.get sid (sessions_index r.1)
  = match OrderedDict.get sid (sessions_index st) with
    | Some md =>
        if due (cutoff_date st now) md && archivable io_error st sid
        then Some (archived_metadata now md) else Some md
    | None => None
    end.
Proof.
  intros Hnd r.
  destruct (SessionManagerFacts.archive_all_spec io_error now
              (sessions_to_cleanup st now) st 0%Z
              (SessionManagerFacts.NoDup_sessions_to_cleanup st now Hnd))
    as (Hget & _).
  unfold r, cleanup_old_sessions. rewrite Hget.
  destruct (OrderedDict.get sid (sessions_index st)) as [md|] eqn:E.
  - destruct (due (cutoff_date st now) md) eqn:Hd.
    + rewrite bool_decide_eq_true_2; [done|].
      apply SessionManagerFacts.elem_of_sessions_to_cleanup; eauto.
    + rewrite bool_decide_eq_false_2; [done|].
      intros (md' & Hmd' & Hd')%SessionManagerFacts.elem_of_sessions_to_cleanup;
        [|done].
      congruence.
  - by destruct (_ && _).
Qed.

Lemma cleanup_old_sessions_count io_error st now sid md :
  NoDup (OrderedDict.keys (sessions_index st)) →
  OrderedDict.get sid (sessions_index st) = Some md →
  due (cutoff_date st now) md = true → archivable io_error st sid = true →
  (1 ≤ (cleanup_old_sessions io_error st now).2)%Z.
Proof.
  intros Hnd Hget Hdue Harch.
  destruct (SessionManagerFacts.archive_all_spec io_error now
              (sessions_to_cleanup st now) st 0%Z
              (SessionManagerFacts.NoDup_sessions_to_cleanup st now Hnd))
    as (_ & _ & Hcount & _).
  unfold cleanup_old_sessions. rewrite Hcount.
  assert (sid ∈ List.filter (archivable io_error st) (sessions_to_cleanup st now))
    as Hin.
  { apply list_elem_of_In, filter_In. split; [|done].
    apply list_elem_of_In, SessionManagerFacts.elem_of_sessions_to_cleanup; eauto. }
  destruct (List.filter _ _); [by apply elem_of_nil in Hin|]. simpl. lia.
Qed.

Lemma cleanup_old_sessions_dirs io_error st now sid :
  NoDup (OrderedDict.keys (sessions_index st)) →
  sid ∈ session_dirs (cleanup_old_sessions io_error st now).1 ↔
  sid ∈ session_dirs st
  ∧ (bool_decide (sid ∈ sessions_to_cleanup st now)
     && archivable io_error st sid = false).
Proof.
  intros Hnd.
  destruct (SessionManagerFacts.archive_all_spec io_error now
              (sessions_to_cleanup st now) st 0%Z
              (SessionManagerFacts.NoDup_sessions_to_cleanup st now Hnd))
    as (_ & Hdirs & _).
  apply Hdirs.
Qed.

End SessionLifecycleFacts.

(** X24.  The life of a session: a session that is created, then marked
    completed or failed, is archived by the first sweep that runs more
    than the retention period after its creation, provided the archive
    step does not fail: the sweep counts it, its status becomes
    ["archived"] with the time of the sweep, its creation and completion
    times are kept, and its directory is gone. *)
Theorem finished_session_is_archived_after_retention
    (io_error : string → bool) (st : SessionManager.State)
    (t0 t1 t2 : SessionManager.Time) (session_id : string)
    (product_name : option string) (workflow_type status : string) :
  NoDup (OrderedDict.keys (SessionManager.sessions_index st)) →
  SessionManager.is_finished status = true →
  (t0 + (SessionManager.retention_days st
         * SessionManager.microseconds_per_day) < t2)%Z →
  io_error session_id = false →
  let st1 := (SessionOps.create_session st t0 session_id product_name
                workflow_type).1 in
  let st2 := (SessionManager.update_session st1 t1 session_id (Some status)
                None None None None).1 in
  let r := SessionManager.cleanup_old_sessions io_error st2 t2 in
  (1 ≤ r.2)%Z
  ∧ (session_id ∉ SessionManager.session_dirs r.1)
  ∧ (∃ md, SessionOps.get_session_metadata r.1 session_id = Some md
           ∧ SessionManager.SessionMetadata.status md = "archived"
           ∧ SessionManager.SessionMetadata.archived_at md = Some t2
           ∧ SessionManager.SessionMetadata.created_at md = t0
           ∧ SessionManager.SessionMetadata.completed_at md = Some t1
           ∧ SessionManager.SessionMetadata.product_name md = product_name).
Proof.
  intros Hnd Hfin Hold Hio st1 st2 r.
  set (md0 := SessionManager.SessionMetadata.mk session_id t0 "running"
                product_name workflow_type 0 0 0 None None None).
  set (md1 := SessionManager.updated_metadata t1 (Some status) None None None
                None md0).
  assert (OrderedDict.get session_id (SessionManager.sessions_index st1)
          = Some md0) as Hget1 by apply OrderedDictFacts.get_set_eq.
  assert (st2 = SessionManager.mkState
                  (OrderedDict.set session_id md1
                     (SessionManager.sessions_index st1))
                  (SessionManager.session_dirs st1)
                  (SessionManager.retention_days st1)) as Hst2.
  { unfold st2, SessionManager.update_session. by rewrite Hget1. }
  assert (NoDup (OrderedDict.keys (SessionManager.sessions_index st2))) as Hnd2.
  { rewrite Hst2. simpl. by do 2 apply OrderedDictFacts.NoDup_keys_set. }
  assert (OrderedDict.get session_id (SessionManager.sessions_index st2)
          = Some md1) as Hget2.
  { rewrite Hst2. apply OrderedDictFacts.get_set_eq. }
  assert (SessionManager.SessionMetadata.status md1 = status
          ∧ SessionManager.SessionMetadata.completed_at md1 = Some t1)
    as [Hstatus Hcompleted].
  { unfold md1, SessionManager.updated_metadata.
    rewrite (SessionLifecycleFacts.is_finished_truthy _ Hfin). simpl.
    by rewrite Hfin. }
  assert (SessionManager.due (SessionManager.cutoff_date st2 t2) md1 = true)
    as Hdue.
  { unfold SessionManager.due. rewrite Hstatus, Hfin, andb_true_r.
    apply Z.ltb_lt. unfold SessionManager.cutoff_date. rewrite Hst2. simpl.
    unfold md1, SessionManager.updated_metadata.
    destruct (truthy_str (Some status)); simpl; lia. }
  assert (SessionManager.archivable io_error st2 session_id = true) as Harch.
  { unfold SessionManager.archivable. rewrite Hio, andb_true_r.
    apply bool_decide_eq_true. rewrite Hst2. simpl. set_solver. }
  split_and!.
  - by apply (SessionLifecycleFacts.cleanup_old_sessions_count io_error st2 t2
                session_id md1).
  - unfold r. rewrite SessionLifecycleFacts.cleanup_old_sessions_dirs by done.
    intros [_ Hno]. rewrite Harch, andb_true_r in Hno.
    apply bool_decide_eq_false in Hno. apply Hno.
    apply SessionManagerFacts.elem_of_sessions_to_cleanup; eauto.
  - exists (SessionManager.archived_metadata t2 md1).
    unfold SessionOps.get_session_metadata, r.
    rewrite SessionLifecycleFacts.cleanup_old_sessions_get by done.
    rewrite Hget2, Hdue, Harch. simpl. split_and!; try done.
    + unfold md1, SessionManager.updated_metadata.
      by destruct (truthy_str (Some status)).
    + unfold md1, SessionManager.updated_metadata.
      by destruct (truthy_str (Some status)).
Qed.

Lemma finished_session_is_archived_after_retention_witness :
  let st := SessionManager.mkState [] ∅ 7 in
  let st1 := (SessionOps.create_session st 0%Z "s1" None "amazon_campaign").1 in
  let st2 := (SessionManager.update_session st1 1000%Z "s1" (Some "completed")
                None None None None).1 in
  (1 ≤ (SessionManager.cleanup_old_sessions (λ _, false) st2
          (8 * SessionManager.microseconds_per_day)%Z).2)%Z.
Proof.
  intros st st1 st2.
  destruct (finished_session_is_archived_after_retention (λ _, false) st 0%Z
              1000%Z (8 * SessionManager.microseconds_per_day)%Z "s1" None
              "amazon_campaign" "completed") as [H _].
  - apply NoDup_nil_2.
  - reflexivity.
  - simpl. unfold SessionManager.microseconds_per_day. lia.
  - reflexivity.
  - exact H.
Defined.


Module SessionListFacts.
Import SessionManager SessionOps.

Lemma created_lt_asym x y : created_lt x y = true → created_lt y x = false.
Proof. unfold created_lt. rewrite Z.ltb_lt, Z.ltb_ge. lia. Qed.

Lemma created_ge_trans x y z :
  created_lt x y = false → created_lt y z = false → created_lt x z = false.
Proof. unfold created_lt. rewrite !Z.ltb_ge. lia. Qed.

Lemma selected_sessions st status :
  (if truthy_str status
   then List.filter
          (λ s, String.eqb (SessionMetadata.status s) (default "" status))
          (OrderedDict.values (sessions_index st))
   else OrderedDict.values (sessions_index st))
  = List.filter (status_selected status) (OrderedDict.values (sessions_index st)).
Proof.
  unfold status_selected. destruct (truthy_str status); simpl; [done|].
  induction (OrderedDict.values (sessions_index st)) as [|x l IH]; simpl;
    [done|]. by rewrite <- IH.
Qed.

End SessionListFacts.

(** X25.  [list_sessions] lists the newest sessions first: the result is
    the beginning of the list of all sessions whose status equals the
    filter (all sessions when the filter is absent or empty) ordered by
    creation time, newest first; a positive limit [n] keeps the first [n]
    of them, and without a limit all of them are returned. *)
Theorem list_sessions_newest_first (st : SessionManager.State)
    (status : option string) (limit : option Z) :
  let res := SessionManager.list_sessions st status limit in
  ∃ rest,
    StronglySorted
      (λ a b, (SessionManager.SessionMetadata.created_at b
               ≤ SessionManager.SessionMetadata.created_at a)%Z)
      (res ++ rest)
    ∧ res ++ rest
      ≡ₚ List.filter (SessionManager.status_selected status)
           (OrderedDict.values (SessionManager.sessions_index st))
    ∧ (∀ n, limit = Some n → (0 < n)%Z →
            length res = Z.to_nat n `min` length (res ++ rest))
    ∧ (limit = None → rest = []).
Proof.
  intros res. unfold res, SessionManager.list_sessions.
  rewrite SessionListFacts.selected_sessions.
  set (selected := List.filter (SessionManager.status_selected status)
                     (OrderedDict.values (SessionManager.sessions_index st))).
  set (sorted := PySort.sort_desc SessionManager.created_lt selected).
  assert (StronglySorted
            (λ a b, (SessionManager.SessionMetadata.created_at b
                     ≤ SessionManager.SessionMetadata.created_at a)%Z) sorted)
    as Hsorted.
  { pose proof (PySortFacts.sort_desc_sorted SessionManager.created_lt
                  SessionListFacts.created_lt_asym
                  SessionListFacts.created_ge_trans selected) as Hs.
    fold sorted in Hs. clearbody sorted.
    induction Hs as [|x l Hl IH Hx]; constructor; [done|].
    eapply Forall_impl; [exact Hx|]. intros y Hy.
    unfold PySort.ge, SessionManager.created_lt in Hy. by apply Z.ltb_ge in Hy. }
  assert (sorted ≡ₚ selected) as Hperm by apply PySortFacts.sort_desc_perm.
  destruct (truthy_int limit) eqn:Hl.
  - destruct (MemoryFacts.slice_to_prefix (default 0%Z limit) sorted)
      as [rest Hrest].
    exists rest. rewrite <- Hrest. split_and!; [done|done| |].
    + intros n -> Hn. simpl. apply MemoryFacts.slice_to_length. lia.
    + intros ->. done.
  - exists []. rewrite app_nil_r. split_and!; [done|done| |done].
    intros n -> Hn. simpl in Hl. apply negb_false_iff, Z.eqb_eq in Hl. lia.
Qed.

(** X26.  [cleanup_session] archives on request whatever the status and
    the age of the session: when the directory of a known session exists
    and the archive step does not fail, the call returns [True], the
    session becomes ["archived"] (also one that is still running, created
    a moment ago) and its directory is gone, so that a second
    [cleanup_session] returns [False] and changes nothing; when the
    directory does not exist the call returns [False] and changes
    nothing. *)
Theorem cleanup_session_ignores_status_and_age (io_error io_error' : string → bool)
    (st : SessionManager.State) (now now' : SessionManager.Time)
    (session_id : string) (md : SessionManager.SessionMetadata.t) :
  OrderedDict.get session_id (SessionManager.sessions_index st) = Some md →
  let r := SessionOps.cleanup_session io_error st now session_id in
  (session_id ∈ SessionManager.session_dirs st → io_error session_id = false →
   r.2 = true
   ∧ SessionOps.get_session_metadata r.1 session_id
     = Some (SessionManager.archived_metadata now md)
   ∧ (session_id ∉ SessionManager.session_dirs r.1)
   ∧ SessionOps.cleanup_session io_error' r.1 now' session_id = (r.1, false))
  ∧ (session_id ∉ SessionManager.session_dirs st → r = (st, false)).
Proof.
  intros Hget r. unfold r, SessionOps.cleanup_session.
  rewrite !SessionManagerFacts.archive_session_unfold.
  unfold SessionManager.archivable. split.
  - intros Hin Hio. rewrite Hio, bool_decide_eq_true_2 by done. simpl.
    rewrite Hget.
    assert (session_id
            ∉ SessionManager.session_dirs st ∖ {[session_id]}) as Hout
      by set_solver.
    split_and!; [done| |done|].
    + unfold SessionOps.get_session_metadata. simpl.
      apply OrderedDictFacts.get_set_eq.
    + simpl. by rewrite bool_decide_eq_false_2.
  - intros Hout. by rewrite bool_decide_eq_false_2.
Qed.

Lemma cleanup_session_ignores_status_and_age_witness :
  (SessionOps.cleanup_session (λ _, false)
     (SessionOps.create_session (SessionManager.mkState [] ∅ 7) 0%Z "s1" None
        "amazon_campaign").1 1%Z "s1").2 = true.
Proof.
  destruct (cleanup_session_ignores_status_and_age (λ _, false) (λ _, false)
              (SessionOps.create_session (SessionManager.mkState [] ∅ 7) 0%Z
                 "s1" None "amazon_campaign").1 1%Z 2%Z "s1"
              (SessionManager.SessionMetadata.mk "s1" 0%Z "running" None
                 "amazon_campaign" 0 0 0 None None None)) as [H _].
  - reflexivity.
  - apply H; [|reflexivity]. simpl. set_solver.
Defined.

(** X27.  Updating a session whose directory is gone (an archived one,
    for instance) fails half-way: [update_session] raises when it writes
    the manifest, but the index entry already carries the new status.  A
    session marked completed or failed in this way can no longer be
    archived: every later sweep leaves it as it is. *)
Theorem update_after_archive_raises_but_changes_status
    (io_error : string → bool) (st : SessionManager.State)
    (now now' : SessionManager.Time) (session_id status : string)
    (md : SessionManager.SessionMetadata.t) :
  NoDup (OrderedDict.keys (SessionManager.sessions_index st)) →
  OrderedDict.get session_id (SessionManager.sessions_index st) = Some md →
  session_id ∉ SessionManager.session_dirs st → status ≠ "" →
  let r := SessionManager.update_session st now session_id (Some status) None
             None None None in
  r.2 = SessionManager.Raised
  ∧ (SessionManager.SessionMetadata.status
       <$> SessionOps.get_session_metadata r.1 session_id) = Some status
  ∧ SessionOps.get_session_metadata
      (SessionManager.cleanup_old_sessions io_error r.1 now').1 session_id
    = SessionOps.get_session_metadata r.1 session_id.
Proof.
  intros Hnd Hget Hout Hs r.
  assert (truthy_str (Some status) = true) as Ht.
  { simpl. by destruct (String.eqb_spec status ""). }
  assert (r = (SessionManager.mkState
                 (OrderedDict.set session_id
                    (SessionManager.updated_metadata now (Some status) None
                       None None None md)
                    (SessionManager.sessions_index st))
                 (SessionManager.session_dirs st)
                 (SessionManager.retention_days st), SessionManager.Raised))
    as Hr.
  { unfold r, SessionManager.update_session. rewrite Hget.
    by rewrite bool_decide_eq_false_2. }
  rewrite Hr. simpl. unfold SessionOps.get_session_metadata. simpl.
  split_and!; [done| |].
  - rewrite OrderedDictFacts.get_set_eq. simpl.
    unfold SessionManager.updated_metadata. by rewrite Ht.
  - rewrite SessionLifecycleFacts.cleanup_old_sessions_get
      by (by apply OrderedDictFacts.NoDup_keys_set).
    simpl. rewrite OrderedDictFacts.get_set_eq.
    unfold SessionManager.archivable. simpl.
    rewrite (bool_decide_eq_false_2 _ Hout). simpl.
    by rewrite andb_false_r.
Qed.

Lemma update_after_archive_raises_but_changes_status_witness :
  (SessionManager.update_session
     (SessionManager.mkState
        [("s1", SessionManager.SessionMetadata.mk "s1" 0%Z "archived" None
                  "amazon_campaign" 0 0 0 None None (Some 5%Z))] ∅ 7)
     9%Z "s1" (Some "completed") None None None None).2
  = SessionManager.Raised.
Proof.
  destruct (update_after_archive_raises_but_changes_status (λ _, false)
              (SessionManager.mkState
                 [("s1", SessionManager.SessionMetadata.mk "s1" 0%Z "archived"
                           None "amazon_campaign" 0 0 0 None None (Some 5%Z))]
                 ∅ 7)
              9%Z 10%Z "s1" "completed"
              (SessionManager.SessionMetadata.mk "s1" 0%Z "archived" None
                 "amazon_campaign" 0 0 0 None None (Some 5%Z))) as [H _].
  - vm_compute. repeat constructor; set_solver.
  - reflexivity.
  - set_solver.
  - discriminate.
  - exact H.
Defined.


(** X28.  [share_to_all] makes a value visible to the other agents: an
    agent that has nothing cached under the shared key retrieves, from the
    shared tier, the value another agent has just shared, with or without
    caching. *)
Theorem shared_value_is_visible_to_other_agents
    (md5_hexdigest : string → string) (m : Memory.Manager)
    (now now' from_agent reader key : string) (value : Memory.Value) :
  LRU.wf (Memory.cache m) → from_agent ≠ reader →
  OrderedDict.get (Memory.cache_key reader "shared" key)
    (LRU.cache (Memory.cache m)) = None →
  (Memory.retrieve
     (MemoryOps.share_to_all md5_hexdigest m now from_agent key value)
     now' reader key "shared").2 = value.
Proof.
  intros Hwf Hne Hnone. unfold MemoryOps.share_to_all.
  assert (MemoryOps.is_tier "shared") as Ht by (right; right; by right).
  destruct (MemoryMore.store_ok md5_hexdigest m now from_agent key value
              "shared" None Ht) as (_ & Hen & (e & Hp & He & _) & Hcache).
  cbv zeta in *.
  rewrite MemoryMore.retrieve_value.
  rewrite MemoryMore.cached_miss.
  - change (MemoryOps.peek ?m reader key "shared")
      with (MemoryOps.peek m from_agent key "shared").
    by rewrite Hp.
  - rewrite Hcache. destruct (Memory.enable_caching m); [|done].
    apply LRUMore.put_absent_ne; [done| |done].
    unfold Memory.cache_key. intros H.
    by apply PyStrFacts.append_inj_r in H.
Qed.

Lemma shared_value_is_visible_to_other_agents_witness :
  (Memory.retrieve
     (MemoryOps.share_to_all id (Memory.init "s1" true 10 ∅ ∅ []) "10:00"
        "researcher" "brief" (Memory.VData "v1"))
     "10:05" "copywriter" "brief" "shared").2 = Memory.VData "v1".
Proof.
  apply (shared_value_is_visible_to_other_agents id
           (Memory.init "s1" true 10 ∅ ∅ []) "10:00" "10:05" "researcher"
           "copywriter" "brief" (Memory.VData "v1")).
  - split; simpl; [constructor|lia].
  - discriminate.
  - reflexivity.
Defined.
